(** * The von Mises-Fisher distribution: a shallow embedding

    Source: [tensorflow_probability/python/distributions/von_mises_fisher.py].

    Tensors are lists (a batch of scalars is [list F], a batch of event
    vectors is [list (list F)], [n] samples per batch member are
    [list (list (list F))]).  The scalar type is an interface, [Scalar]:
    the code is written once over it, as the source is written once over
    the dtype, and read at two instances:
    - [R], exact real arithmetic, where every value is finite (rounding is
      not modelled; a division by zero has no meaning there, and the
      statements over [R] stay away from it);
    - [xreal], the reals extended with the IEEE special values [+inf],
      [-inf] and [NaN], exact on finite values, where [tf.check_numerics]
      can fail.
    Python exceptions and failed TensorFlow assertions are values of
    [error]; a function that can raise returns a [result].  The batch has
    rank 1, and elementwise ops broadcast along it as TensorFlow does
    ([broadcast_with]).  The source builds a graph: the body of
    [tf.while_loop] is built once, and its ops run once per iteration. *)

From Stdlib Require Import Reals Qreals Psatz Lia List QArith String ZArith Bool.
Import ListNotations.

Set Implicit Arguments.

(** ** Errors *)

(** The tag [tf.check_numerics] is called with. *)
Inductive numerics_tag : Type :=
| besseli (v : Q)             (* 'besseli{}'.format(v) *)
| tag_w                       (* 'w' *)
| tag_u_3d                    (* 'u in _sample_3d' *)
| tag_samples.                (* 'samples' *)

Inductive error : Type :=
| ValueError (msg : string)
| KeyError (v : Q)
| TypeError (msg : string)
| RecursionError
| InvalidArgumentError (msg : string)   (* a failed tf.assert_* *)
| CheckNumericsError (t : numerics_tag). (* a failed tf.check_numerics *)

Inductive result (A : Type) : Type :=
| Ok (a : A)
| Err (e : error).

Arguments Err {A} e.

Definition bind {A B : Type} (m : result A) (k : A -> result B) : result B :=
  match m with
  | Ok a => k a
  | Err e => Err e
  end.

Declare Scope result_scope.
Delimit Scope result_scope with result.
Notation "x <- m ;; k" := (bind m (fun x => k))
  (at level 61, m at next level, right associativity) : result_scope.
Notation "' pat <- m ;; k" := (bind m (fun x => match x with pat => k end))
  (at level 61, pat pattern, m at next level, right associativity) : result_scope.
Open Scope result_scope.

Definition is_ok {A : Type} (m : result A) : bool :=
  match m with Ok _ => true | Err _ => false end.

(** ** Scalars *)

Class Scalar (F : Type) : Type := {
  of_Q : Q -> F;                 (* a Python number cast to the dtype *)
  pi : F;                        (* np.pi *)
  add : F -> F -> F;
  sub : F -> F -> F;
  mul : F -> F -> F;
  div : F -> F -> F;
  neg : F -> F;
  absf : F -> F;                 (* tf.abs *)
  sqrtf : F -> F;                (* tf.sqrt, np.sqrt *)
  rsqrt : F -> F;                (* tf.rsqrt *)
  expf : F -> F;                 (* tf.exp *)
  logf : F -> F;                 (* tf.log, np.log *)
  log1p : F -> F;                (* tf.log1p *)
  maximum : F -> F -> F;         (* tf.maximum *)
  ltb : F -> F -> bool;          (* x < y *)
  leb : F -> F -> bool;          (* x <= y *)
  eqb : F -> F -> bool;          (* tf.equal *)
  is_finite : F -> bool;         (* neither NaN nor an infinity *)
  bessel_i0e : F -> F;           (* tf.math.bessel_i0e *)
  bessel_i1e : F -> F;           (* tf.math.bessel_i1e *)
  lgamma : F -> F;               (* tf.lgamma *)
  near_tol : F                   (* 10 * eps of the dtype: tf.assert_near's
                                    default rtol and atol *)
}.

Declare Scope scalar_scope.
Delimit Scope scalar_scope with sc.
Infix "+." := add (at level 50, left associativity) : scalar_scope.
Infix "-." := sub (at level 50, left associativity) : scalar_scope.
Infix "*." := mul (at level 40, left associativity) : scalar_scope.
Infix "/." := div (at level 40, left associativity) : scalar_scope.
Infix "<?." := ltb (at level 70, no associativity) : scalar_scope.
Infix "<=?." := leb (at level 70, no associativity) : scalar_scope.

(** ** Tensors as lists *)

Section Lists.
Variables A B C : Type.

Fixpoint zip_with (f : A -> B -> C) (l1 : list A) (l2 : list B) : list C :=
  match l1, l2 with
  | a :: l1', b :: l2' => f a b :: zip_with f l1' l2'
  | _, _ => []
  end.

(** [tf.where(cond, x, y)] on tensors of one shape. *)
Fixpoint where_ (cond : list bool) (x y : list A) : list A :=
  match cond, x, y with
  | c :: cond', a :: x', b :: y' => (if c then a else b) :: where_ cond' x' y'
  | _, _, _ => []
  end.

(** An elementwise op on two tensors, along one axis: sizes that are
    equal pair up, a size of 1 is stretched to the other size, and any
    other two sizes do not broadcast (the shapes are taken as known when
    the op is built, where TensorFlow raises [ValueError]). *)
Definition broadcast_with (f : A -> B -> C) (l1 : list A) (l2 : list B)
  : result (list C) :=
  if (List.length l1 =? List.length l2)%nat then Ok (zip_with f l1 l2)
  else
    match l1, l2 with
    | [a], _ => Ok (map (f a) l2)
    | _, [b] => Ok (map (fun a => f a b) l1)
    | _, _ => Err (ValueError "Dimensions must be equal")
    end.

(** The rows of a tensor, once each has been computed: the first row
    that raised raises. *)
Fixpoint all_ok (l : list (result A)) : result (list A) :=
  match l with
  | [] => Ok []
  | m :: l' => a <- m ;; t <- all_ok l' ;; Ok (a :: t)
  end.
End Lists.

(** [tf.broadcast_static_shape] and [tf.broadcast_dynamic_shape] on two
    shapes of rank 1. *)
Definition broadcast_shape (a b : nat) : result nat :=
  if (a =? b)%nat then Ok a
  else if (a =? 1)%nat then Ok b
  else if (b =? 1)%nat then Ok a
  else Err (ValueError "Incompatible shapes for broadcasting").

Section Tensor.
Context {F : Type} {S : Scalar F}.
Open Scope scalar_scope.

Definition zero : F := of_Q 0.
Definition one : F := of_Q 1.
Definition two : F := of_Q 2.

(** [z > 0] *)
Definition gt0 (x : F) : bool := zero <?. x.

Definition ones_like (t : list F) : list F := map (fun _ => one) t.
Definition zeros_like (t : list F) : list F := map (fun _ => zero) t.

(** [tf.reduce_sum(t, axis=-1)] on one vector. *)
Definition reduce_sum (t : list F) : F := fold_right add zero t.

Definition all_finite (t : list F) : bool := forallb is_finite t.

(** [tf.check_numerics(t, tag)]: the tensor itself, or an error when an
    entry is NaN or infinite. *)
Definition check_numerics (t : list F) (tag : numerics_tag) : result (list F) :=
  if all_finite t then Ok t else Err (CheckNumericsError tag).
End Tensor.

(** ** [_bessel_ive] *)

Section Bessel.
Context {F : Type} {S : Scalar F}.
Open Scope scalar_scope.

(** The cache: a Python dict from orders to tensors. *)
Definition cache_t : Type := list (Q * list F).

Fixpoint cache_get (c : cache_t) (v : Q) : option (list F) :=
  match c with
  | [] => None
  | (k, t) :: c' => if Qeq_bool k v then Some t else cache_get c' v
  end.

Fixpoint cache_set (c : cache_t) (v : Q) (t : list F) : cache_t :=
  match c with
  | [] => [(v, t)]
  | (k, t') :: c' =>
      if Qeq_bool k v then (k, t) :: c' else (k, t') :: cache_set c' v t
  end.

(** [cache[v]], a [KeyError] when the key is absent. *)
Definition cache_item (c : cache_t) (v : Q) : result (list F) :=
  match cache_get c v with
  | Some t => Ok t
  | None => Err (KeyError v)
  end.

(** [sinhe = lambda x: (tf.exp(x - tf.abs(x)) - tf.exp(-x - tf.abs(x))) / 2] *)
Definition sinhe (x : F) : F :=
  (expf (x -. absf x) -. expf (neg x -. absf x)) /. two.

(** [coshe = lambda x: (tf.exp(x - tf.abs(x)) + tf.exp(-x - tf.abs(x))) / 2] *)
Definition coshe (x : F) : F :=
  (expf (x -. absf x) +. expf (neg x -. absf x)) /. two.

(** [np.sqrt(2 / np.pi)] *)
Definition sqrt_2_over_pi : F := sqrtf (two /. pi).

(** [safe_z = tf.where(z > 0, z, tf.ones_like(z))] *)
Definition safe (z : list F) : list F :=
  where_ (map gt0 z) z (ones_like z).

(** [wrap = lambda result: tf.check_numerics(result, 'besseli{}'.format(v))] *)
Definition wrap (v : Q) (t : list F) : result (list F) :=
  check_numerics t (besseli v).

(** The branches on [v] that fill [cache[v]] for the four base orders;
    another order leaves the cache as it is. *)
Definition bessel_base (v : Q) (z : list F) (cache : cache_t) : cache_t :=
  let safe_z := safe z in
  if Qeq_bool v 0 then
    cache_set cache v (map bessel_i0e z)
  else if Qeq_bool v 1 then
    cache_set cache v (map bessel_i1e z)
  else if Qeq_bool v (1 # 2) then
    cache_set cache v
      (zip_with mul
         (map (fun x => sqrt_2_over_pi *. sinhe x) z)
         (where_ (map gt0 z) (map rsqrt safe_z) (ones_like safe_z)))
  else if Qeq_bool v (- (1 # 2)) then
    cache_set cache v
      (zip_with mul
         (map (fun x => sqrt_2_over_pi *. coshe x) z)
         (where_ (map gt0 z) (map rsqrt safe_z) (ones_like safe_z)))
  else cache.

(** [_bessel_ive(v, z, cache)].  [fuel] bounds the depth of the Python
    recursion.  The result carries the contents of the caller's dict
    after the call: [cache = cache or {}] rebinds the local name to a
    fresh dict when the caller's is [None] or empty, so the caller sees
    the writes only when it passed a dict that was not empty. *)
Fixpoint bessel_ive_rec (fuel : nat) (v : Q) (z : list F) (cache : cache_t)
  : result (list F * cache_t) :=
  match fuel with
  | O => Err RecursionError
  | Datatypes.S fuel' =>
      if Qle_bool 2 v then
        Err (ValueError
               "Evaluating bessel_i by recurrence becomes imprecise for large v")
      else
        let aliased := match cache with [] => false | _ => true end in
        let visible (local : cache_t) := if aliased then local else cache in
        match cache_get cache v with
        | Some t => r <- wrap v t ;; Ok (r, cache)
        | None =>
            let local := bessel_base v z cache in
            if Qle_bool v 1 then
              t <- cache_item local v ;;
              r <- wrap v t ;;
              Ok (r, visible local)
            else
              '(a, local1) <- bessel_ive_rec fuel' (v - 2) z local ;;
              '(b, local2) <- bessel_ive_rec fuel' (v - 1) z local1 ;;
              let t :=
                zip_with sub a
                  (zip_with div (map (fun x => of_Q (2 * (v - 1)) *. x) b) z) in
              let local3 := cache_set local2 v t in
              r <- wrap v t ;;
              Ok (r, visible local3)
        end
  end.

(** A call without a cache, [_bessel_ive(v, z)].  Two levels of recursion
    are all an order below 2 can use (see [bessel_ive_fuel]). *)
Definition _bessel_ive (v : Q) (z : list F) : result (list F) :=
  '(r, _) <- bessel_ive_rec 2 v z [] ;; Ok r.
End Bessel.

(** ** The distribution object *)

(** The floating-point types of TensorFlow. *)
Inductive float_dtype : Type := float16 | float32 | float64.

Definition is_float32 (t : float_dtype) : bool :=
  match t with float32 => true | _ => false end.

(** The batch has rank 1: [mean_direction] is a list of rows, of shape
    [[Bm, D]], and [concentration] a list of scalars, of shape [[Bc]]. *)
Record VonMisesFisher (F : Type) : Type := {
  dtype : float_dtype;          (* self.dtype *)
  event_dim : nat;              (* tf.shape(mean_direction)[-1] *)
  static_shape : bool;          (* is the event size known statically? *)
  mean_direction : list (list F);
  concentration : list F;
  validate_args : bool;
  allow_nan_stats : bool
}.

Section Distribution.
Context {F : Type} {S : Scalar F}.
Open Scope scalar_scope.

Definition square (x : F) : F := x *. x.

(** [tf.linalg.norm(x, axis=-1)] on one vector. *)
Definition norm (x : list F) : F := sqrtf (reduce_sum (map square x)).

(** [tf.assert_near(x, y)]: [|x - y| <= atol + rtol * |y|]. *)
Definition near (atol rtol x y : F) : bool :=
  absf (x -. y) <=?. (atol +. rtol *. absf y).

(** A list of assertions under [tf.control_dependencies]: each is the
    outcome of its test with its message; the first that fails raises. *)
Definition run_assertions (l : list (bool * string)) : result unit :=
  match find (fun a => negb (fst a)) l with
  | Some (_, msg) => Err (InvalidArgumentError msg)
  | None => Ok tt
  end.

(** [mean_direction.shape.with_rank_at_least(1)[-1].value] *)
Definition static_event_dim (D : nat) (static : bool) : option nat :=
  if static then Some D else None.

(** [VonMisesFisher.__init__].  The [ValueError] is raised while the
    object is built; the assertions guard the stored parameters.
    [common_dtype] is [dtype_util.common_dtype([mean_direction,
    concentration], tf.float32)], the type both arguments are read at. *)
Definition VonMisesFisher_init (common_dtype : float_dtype)
    (D : nat) (static : bool)
    (mean_direction : list (list F)) (concentration : list F)
    (validate_args allow_nan_stats : bool) : result (VonMisesFisher F) :=
  let assertions :=
    if validate_args then
      [ (forallb (fun k => zero <=?. k) concentration,
         "`concentration` must be non-negative"%string);
        ((1 <? D)%nat,
         "`mean_direction` may not have scalar event shape"%string);
        (forallb (fun m => near near_tol near_tol one (norm m)) mean_direction,
         "`mean_direction` must be unit-length"%string) ]
    else [] in
  assertions' <-
    match static_event_dim D static with
    | Some d =>
        if (5 <? d)%nat
        then Err (ValueError "vMF ndims > 5 is not currently supported")
        else Ok assertions
    | None =>
        if validate_args
        then Ok (assertions ++
                 [((D <=? 5)%nat,
                   "vMF ndims > 5 is not currently supported"%string)])
        else Ok assertions
    end ;;
  _ <- run_assertions assertions' ;;
  Ok {| dtype := common_dtype;
        event_dim := D;
        static_shape := static;
        mean_direction := mean_direction;
        concentration := concentration;
        validate_args := validate_args;
        allow_nan_stats := allow_nan_stats |}.

Variable self : VonMisesFisher F.

(** [self.event_shape[0].value] *)
Definition event_shape_value : option nat :=
  static_event_dim (event_dim self) (static_shape self).

(** [event_dim / 2] as the Python float it is. *)
Definition half (D : nat) : Q := inject_Z (Z.of_nat D) / 2.

(** [_maybe_assert_valid_sample] *)
Definition _maybe_assert_valid_sample (samples : list (list F))
  : result (list (list F)) :=
  if negb (validate_args self) then Ok samples
  else
    _ <- run_assertions
           [ (forallb (fun x => near near_tol near_tol one (norm x)) samples,
              "samples must be unit length"%string);
             (forallb (fun x => (List.length x =? event_dim self)%nat) samples,
              "samples must have innermost dimension matching that of `self.mean_direction`"%string) ] ;;
    Ok samples.

(** [self._batch_shape_tensor()], [self._batch_shape()] *)
Definition _batch_shape_tensor : result nat :=
  broadcast_shape (List.length (mean_direction self))
    (List.length (concentration self)).

(** [self.mean_direction + tf.zeros_like(self.concentration)[..., tf.newaxis]]:
    shapes [[Bm, D]] and [[Bc, 1]]. *)
Definition bcast_mean_dir : result (list (list F)) :=
  broadcast_with (fun m z0 => map (fun a => a +. z0) m)
    (mean_direction self) (zeros_like (concentration self)).

(** [tf.reduce_sum(x * y, axis=-1)] on one pair of vectors of one
    length. *)
Definition dot (x y : list F) : F := reduce_sum (zip_with mul x y).

(** [x * y] on two tensors of rank 2: both axes broadcast. *)
Definition mul2 (x y : list (list F)) : result (list (list F)) :=
  rows <- broadcast_with (broadcast_with mul) x y ;; all_ok rows.

(** [_log_unnormalized_prob], on samples of shape [[Bx, Dx]]. *)
Definition _log_unnormalized_prob (samples : list (list F)) : result (list F) :=
  samples <- _maybe_assert_valid_sample samples ;;
  bcast_mean_dir <- bcast_mean_dir ;;
  prod <- mul2 samples bcast_mean_dir ;;
  let inner_product := map reduce_sum prod in
  broadcast_with mul (concentration self) inner_product.

(** [_log_normalization] *)
Definition _log_normalization : result (list F) :=
  match event_shape_value with
  | None =>
      Err (ValueError
             "vMF _log_normalizer currently only supports statically known event shape")
  | Some D =>
      let safe_conc := safe (concentration self) in
      ive <- _bessel_ive (half D - 1) safe_conc ;;
      let safe_lognorm :=
        zip_with sub
          (zip_with sub
             (map (fun k => of_Q (half D - 1) *. logf k
                            -. of_Q (half D) *. logf (two *. pi)) safe_conc)
             (map logf ive))
          (map absf safe_conc) in
      let log_nsphere_surface_area :=
        logf two +. of_Q (half D) *. logf pi -. lgamma (of_Q (half D)) in
      Ok (where_ (map gt0 (concentration self))
            (map neg safe_lognorm)
            (map (fun o => log_nsphere_surface_area *. o)
               (ones_like safe_lognorm)))
  end.

(** [_log_prob] *)
Definition _log_prob (x : list (list F)) : result (list F) :=
  x <- _maybe_assert_valid_sample x ;;
  unnormalized <- _log_unnormalized_prob x ;;
  normalization <- _log_normalization ;;
  broadcast_with sub unnormalized normalization.

(** [_mode] *)
Definition _mode : result (list (list F)) := bcast_mean_dir.

(** [_mean] *)
Definition _mean : result (list (list F)) :=
  match event_shape_value with
  | None =>
      Err (ValueError "event shape must be statically known for _bessel_ive")
  | Some D =>
      let safe_conc := safe (concentration self) in
      num <- _bessel_ive (half D) safe_conc ;;
      den <- _bessel_ive (half D - 1) safe_conc ;;
      safe_mean <-
        broadcast_with (fun m r => map (fun a => a *. r) m)
          (mean_direction self) (zip_with div num den) ;;
      broadcast_with
        (fun k m => where_ (map (fun z0 => z0 <?. k) (zeros_like m))
                      m (zeros_like m))
        (concentration self) safe_mean
  end.

(** [tf.nn.l2_normalize(x, axis=-1)], with TensorFlow's default
    [epsilon=1e-12]: [x * rsqrt(max(sum(x**2), epsilon))]. *)
Definition l2_epsilon : F := of_Q (1 # 1000000000000).

Definition l2_normalize (x : list F) : list F :=
  let x_inv_norm := rsqrt (maximum (reduce_sum (map square x)) l2_epsilon) in
  map (fun a => a *. x_inv_norm) x.

(** [tf.concat([[1.], tf.zeros([event_dim - 1])], axis=0)];
    [tf.zeros] refuses the shape [-1]. *)
Definition basis (D : nat) : result (list F) :=
  match D with
  | O => Err (InvalidArgumentError "Dimension -1 must be >= 0")
  | Datatypes.S k => Ok (one :: repeat zero k)
  end.

(** The reflection of one vector, given the normal [u]:
    [v - 2 * reduce_sum(v * u) * u]. *)
Definition reflect (u v : list F) : list F :=
  zip_with sub v (map (fun ui => two *. dot v u *. ui) u).

(** The normals of [_rotate], one per batch member:
    [u = tf.nn.l2_normalize(basis - self.mean_direction, axis=-1)]. *)
Definition rotate_normals : result (list (list F)) :=
  e1 <- basis (event_dim self) ;;
  Ok (map (fun m => l2_normalize (zip_with sub e1 m)) (mean_direction self)).

(** [_rotate] on samples of shape [n, B, D]. *)
Definition _rotate (samples : list (list (list F)))
  : result (list (list (list F))) :=
  u <- rotate_normals ;;
  Ok (map (fun row => zip_with reflect u row) samples).
End Distribution.

(** ** Random draws *)

Inductive draw_kind : Type := Uniform | Normal | Beta.

(** Modelled from the spec: [seed_stream.SeedStream], which is imported by
    the source and not part of it.  The spec's words: "a single seeded,
    deterministic stream per sampling call: each random draw requested
    consumes the next value from that stream in a fixed, reproducible
    order ...; no two draws share a sub-seed, and the stream is local to
    one call".  A stream holds the seed it was made from, its salt and the
    number of sub-seeds handed out; a stream made from no seed hands out
    no sub-seeds. *)
Record SeedStream : Type := {
  original_seed : option Z;
  salt : string;
  counter : nat
}.

Definition SeedStream_new (seed : option Z) (salt : string) : SeedStream :=
  {| original_seed := seed; salt := salt; counter := 0 |}.

Section Sampling.
Context {F : Type} {S : Scalar F}.
Open Scope scalar_scope.

(** The state of the generator an op without a seed draws from. *)
Variable G : Type.

(** Where a random op takes its values from: its seed and the number of
    times it has run before (an op in the body of a loop runs once per
    iteration, and a seeded op gives its next values each time), or the
    state of the generator when the op has no seed. *)
Inductive source : Type :=
| Seeded (s : Z) (run : nat)
| Unseeded (g : G).

(** What the model is given: the digest [SeedStream] derives sub-seeds
    with, how an unseeded draw advances the generator, and the value of
    each entry of a drawn tensor (by sample index, batch index and, for
    the normal draw, coordinate). *)
Variable hash : Z -> nat -> string -> Z.
Variable next_state : G -> G.
Variable uniform_at : source -> nat -> nat -> F.
Variable normal_at : source -> nat -> nat -> nat -> F.
Variable beta_at : F -> F -> source -> nat -> nat -> F.

(** [seed()]: the next sub-seed, and the stream after the call. *)
Definition SeedStream_call (s : SeedStream) : option Z * SeedStream :=
  let c := Datatypes.S (counter s) in
  (option_map (fun sd => hash sd c (salt s)) (original_seed s),
   {| original_seed := original_seed s; salt := salt s; counter := c |}).

(** The generator state and the log of the draws made so far. *)
Record rng : Type := {
  ambient : G;
  drawn : list (draw_kind * option Z)
}.

(** A sampling computation ends with a value, raises, or is still in
    its loop when the fuel is spent. *)
Inductive outcome (A : Type) : Type :=
| Done (a : A) (r : rng)
| Raised (e : error)
| Running.

Arguments Raised {A} e.
Arguments Running {A}.

Definition Rand (A : Type) : Type := rng -> outcome A.

Definition ret {A : Type} (a : A) : Rand A := fun r => Done a r.

Definition bindR {A B : Type} (m : Rand A) (k : A -> Rand B) : Rand B :=
  fun r =>
    match m r with
    | Done a r' => k a r'
    | Raised e => Raised e
    | Running => Running
    end.

Definition lift {A : Type} (m : result A) : Rand A :=
  fun r =>
    match m with
    | Ok a => Done a r
    | Err e => Raised e
    end.

Notation "x <~ m ;; k" := (bindR m (fun x => k))
  (at level 61, m at next level, right associativity).
Notation "' pat <~ m ;; k" :=
  (bindR m (fun x => match x with pat => k end))
  (at level 61, pat pattern, m at next level, right associativity).

(** One run of a random op, after [run] earlier ones: it is logged, and
    an op without a seed uses up the generator's state. *)
Definition random_op (k : draw_kind) (seed : option Z) (run : nat)
  : Rand source :=
  fun r =>
    match seed with
    | Some s =>
        Done (Seeded s run)
             {| ambient := ambient r; drawn := drawn r ++ [(k, seed)] |}
    | None =>
        Done (Unseeded (ambient r))
             {| ambient := next_state (ambient r);
                drawn := drawn r ++ [(k, seed)] |}
    end.

Definition tabulate2 (n B : nat) (f : nat -> nat -> F) : list (list F) :=
  map (fun i => map (f i) (seq 0 B)) (seq 0 n).

Definition tabulate3 (n B D : nat) (f : nat -> nat -> nat -> F)
  : list (list (list F)) :=
  map (fun i => map (fun b => map (f i b) (seq 0 D)) (seq 0 B)) (seq 0 n).

(** [tf.random_uniform([n, B], seed=seed)] *)
Definition random_uniform (n B : nat) (seed : option Z) (run : nat)
  : Rand (list (list F)) :=
  src <~ random_op Uniform seed run ;; ret (tabulate2 n B (uniform_at src)).

(** [tf.random_normal([n, B, D], seed=seed)] *)
Definition random_normal (n B D : nat) (seed : option Z) (run : nat)
  : Rand (list (list (list F))) :=
  src <~ random_op Normal seed run ;; ret (tabulate3 n B D (normal_at src)).

(** [tf.distributions.Beta(a, b).sample([n, B], seed=seed)] *)
Definition beta_sample (a b : F) (n B : nat) (seed : option Z) (run : nat)
  : Rand (list (list F)) :=
  src <~ random_op Beta seed run ;; ret (tabulate2 n B (beta_at a b src)).

(** [tf.check_numerics] on a tensor of rank 2 and of rank 3. *)
Definition check_numerics2 (t : list (list F)) (tag : numerics_tag)
  : result (list (list F)) :=
  if forallb all_finite t then Ok t else Err (CheckNumericsError tag).

Definition check_numerics3 (t : list (list (list F))) (tag : numerics_tag)
  : result (list (list (list F))) :=
  if forallb (forallb all_finite) t then Ok t else Err (CheckNumericsError tag).

(** [tf.reduce_logsumexp([a, b], axis=0)]: the maximum is taken out, and
    replaced by 0 when it is not finite. *)
Definition logsumexp2 (a b : F) : F :=
  let raw_max := maximum a b in
  let my_max := if is_finite raw_max then raw_max else zero in
  logf (expf (a -. my_max) +. expf (b -. my_max)) +. my_max.

Variable self : VonMisesFisher F.

(** The batch size the samplers work at: [self._batch_shape_tensor()]
    with the parameters given at their common batch shape, which is then
    the shape of [concentration]. *)
Definition batch_size : nat := List.length (concentration self).

(** One row (one sample index) of [u] in [_sample_3d]. *)
Definition u_row_3d (z : list F) : list F :=
  let safe_conc := safe (concentration self) in
  let safe_z := safe z in
  let safe_u :=
    zip_with
      (fun sz sc =>
         one +. logsumexp2 (logf sz) (log1p (neg sz) -. two *. sc) /. sc)
      safe_z safe_conc in
  let u :=
    where_ (zip_with (fun k z0 => z0 <?. k)
              (concentration self) (zeros_like safe_u))
      safe_u
      (map (fun zi => two *. zi -. one) z) in
  where_ (map (fun zi => eqb zi zero) z) (map neg (ones_like u)) u.

(** [_sample_3d] *)
Definition _sample_3d (n : nat) (seed : option Z)
  : Rand (list (list (list F))) :=
  let stream := SeedStream_new seed "von_mises_fisher_3d" in
  let '(s, stream) := SeedStream_call stream in
  z <~ random_uniform n batch_size s 0 ;;
  let u := map u_row_3d z in
  u <~ (if negb (allow_nan_stats self)
        then lift (check_numerics2 u tag_u_3d)
        else ret u) ;;
  ret (map (map (fun ui => [ui])) u).

(** [tf.while_loop(cond_fn, body_fn, init)], with no bound of its own on
    the number of iterations: [fuel] is the number of times the condition
    may be tested. *)
Fixpoint while_loop {St : Type} (fuel : nat) (cond_fn : St -> bool)
    (body_fn : St -> Rand St) (st : St) : Rand St :=
  match fuel with
  | O => fun _ => Running
  | Datatypes.S fuel' =>
      if cond_fn st
      then st' <~ body_fn st ;; while_loop fuel' cond_fn body_fn st'
      else ret st
  end.

(** [dim = tf.cast(event_dim - 1, self.dtype)] *)
Definition dim_of (D : nat) : F := of_Q (inject_Z (Z.of_nat D - 1)).

(** The constants of Wood's rejection sampler, per batch member. *)
Definition wood_b (D : nat) (k : F) : F :=
  dim_of D /. (two *. k +. sqrtf (of_Q 4 *. square k +. square (dim_of D))).

Definition wood_x (D : nat) (k : F) : F :=
  (one -. wood_b D k) /. (one +. wood_b D k).

Definition wood_c (D : nat) (k : F) : F :=
  k *. wood_x D k +. dim_of D *. log1p (neg (square (wood_x D k))).

(** The state of the loop: [w], [should_continue], and the number of
    iterations made, which is the number of times the random ops of the
    body have run. *)
Definition loop_state : Type :=
  (list (list F) * list (list bool) * nat)%type.

(** [cond_fn]: [tf.reduce_any(should_continue)] *)
Definition cond_fn (st : loop_state) : bool :=
  let '(_, should_continue, _) := st in
  existsb (existsb (fun c => c)) should_continue.

(** The candidate of [body_fn], kept in the lanes that have not accepted:
    [tf.where(should_continue, (1 - (1 + b) * z) / (1 - (1 - b) * z), w)] *)
Definition next_w (D : nat) (z w : list (list F))
    (should_continue : list (list bool)) : list (list F) :=
  let candidate :=
    map (fun zrow =>
           zip_with (fun k zi =>
                       (one -. (one +. wood_b D k) *. zi)
                       /. (one -. (one -. wood_b D k) *. zi))
             (concentration self) zrow) z in
  zip_with (fun cw => where_ (fst cw) (snd cw))
    (combine should_continue candidate) w.

(** The acceptance test of [body_fn]:
    [tf.logical_and(should_continue,
       kappa * w + dim * tf.log1p(-x * w) - c < tf.log(u))] *)
Definition next_should_continue (D : nat) (w unif : list (list F))
    (should_continue : list (list bool)) : list (list bool) :=
  let rejected :=
    zip_with (fun wrow urow =>
                zip_with (fun kw ui =>
                            let '(k, wi) := kw in
                            (k *. wi
                             +. dim_of D *. log1p (neg (wood_x D k) *. wi)
                             -. wood_c D k) <?. logf ui)
                  (combine (concentration self) wrow) urow) w unif in
  zip_with (zip_with andb) should_continue rejected.

(** One iteration of [body_fn].  [tf.while_loop] builds the loop from
    one call of [body_fn], so the two calls of [seed()] in it are made
    once: the beta op keeps the sub-seed [s1] and the uniform op the
    sub-seed [s2] at every iteration (see [wood_dim0]). *)
Definition body_fn (D n : nat) (s1 s2 : option Z) (st : loop_state)
  : Rand loop_state :=
  let '(w, should_continue, run) := st in
  let dim := dim_of D in
  z <~ beta_sample (dim /. two) (dim /. two) n batch_size s1 run ;;
  let w := next_w D z w should_continue in
  w <~ lift (check_numerics2 w tag_w) ;;
  unif <~ random_uniform n batch_size s2 run ;;
  ret (w, next_should_continue D w unif should_continue, Datatypes.S run).

(** [tf.nn.top_k(t)[0]] with [k = 1] on a flat tensor: its largest entry;
    an empty tensor has no column to take. *)
Definition top_1 (t : list F) : result F :=
  match t with
  | [] => Err (InvalidArgumentError "input must have at least k columns")
  | x :: t' => Ok (fold_left maximum t' x)
  end.

(** A factor of shape [..., 1] times a vector: the factor is broadcast. *)
Definition bcast_mul (a o : list F) : list F :=
  match a with
  | [x] => map (fun oj => x *. oj) o
  | _ => zip_with mul a o
  end.

(** The [else] branch of [_sample_n]: Wood's rejection loop for the first
    coordinate, from [w = 0] and every lane still to accept.  Building
    the loop takes the first two sub-seeds of the stream, whatever the
    number of iterations. *)
Definition wood_dim0 (fuel D n : nat) (seed : SeedStream)
  : Rand (list (list (list F)) * SeedStream) :=
  let w := tabulate2 n batch_size (fun _ _ => zero) in
  let should_continue :=
    map (fun _ => map (fun _ => true) (seq 0 batch_size)) (seq 0 n) in
  let '(s1, seed) := SeedStream_call seed in
  let '(s2, seed) := SeedStream_call seed in
  '(w, _, _) <~
    while_loop fuel cond_fn (body_fn D n s1 s2) (w, should_continue, 0%nat) ;;
  ret (map (map (fun wi => [wi])) w, seed).

(** The branch on [event_dim == 3] of [_sample_n], which computes
    [samples_dim0]: the 3-D sampler makes a stream of its own from the
    seed, the loop draws from the stream of [_sample_n].  (An event size
    that is not known statically is a tensor, and compares unequal to 3.) *)
Definition first_coordinate (fuel n : nat) (seed0 : option Z)
    (seed : SeedStream) : Rand (list (list (list F)) * SeedStream) :=
  match event_shape_value self with
  | Some 3%nat => u <~ _sample_3d n seed0 ;; ret (u, seed)
  | _ => wood_dim0 fuel (event_dim self) n seed
  end.

(** The sample about the basis vector, from the first coordinate and the
    normal draw:
    [unit_otherdims = l2_normalize(normal)],
    [samples = concat([samples_dim0,
                       sqrt(maximum(1 - samples_dim0**2, 0)) * unit_otherdims])],
    [samples = l2_normalize(samples)]. *)
Definition assemble (samples_dim0 normal : list (list (list F)))
  : list (list (list F)) :=
  let unit_otherdims := map (map l2_normalize) normal in
  let samples :=
    zip_with (zip_with
      (fun d0 o =>
         d0 ++ bcast_mul
                 (map (fun x => sqrtf (maximum (one -. square x) zero)) d0) o))
      samples_dim0 unit_otherdims in
  map (map l2_normalize) samples.

(** [_sample_n] *)
Definition _sample_n (fuel : nat) (n : nat) (seed : option Z)
  : Rand (list (list (list F))) :=
  let seed0 := seed in
  let seed := SeedStream_new seed "vom_mises_fisher" in
  let D := event_dim self in
  let conc := concentration self in
  '(samples_dim0, seed) <~ first_coordinate fuel n seed0 seed ;;
  _ <~ (if negb (allow_nan_stats self)
        then lift (run_assertions
               [ (forallb (forallb (forallb
                    (fun x => x <=?. of_Q (101 # 100)))) samples_dim0,
                  "assert_less_equal"%string);
                 (forallb (forallb (forallb
                    (fun x => of_Q (- (101 # 100)) <=?. x))) samples_dim0,
                  "assert_greater_equal"%string) ])
        else ret tt) ;;
  let '(s, seed) := SeedStream_call seed in
  normal <~ random_normal n batch_size (D - 1) s 0 ;;
  let samples := assemble samples_dim0 normal in
  samples <~ (if negb (allow_nan_stats self)
              then lift (check_numerics3 samples tag_samples)
              else ret samples) ;;
  _ <~ (if negb (allow_nan_stats self)
        then lift (worst <- top_1 (map (fun x => absf (one -. norm x))
                                     (List.concat samples)) ;;
                   run_assertions
                     [ (near (of_Q (1 # 10000)) near_tol zero worst,
                        "assert_near"%string) ])
        else ret tt) ;;
  _ <~ (if negb (allow_nan_stats self)
        then lift (e1 <- basis D ;;
                   u <- rotate_normals self ;;
                   run_assertions
                     [ (forallb (fun um =>
                                   norm (zip_with sub (reflect (fst um) e1)
                                           (snd um))
                                   <?. of_Q (1 # 100000))
                          (combine u (mean_direction self)),
                        "assert_less"%string) ])
        else ret tt) ;;
  lift (_rotate self samples).
End Sampling.

(** ** The scalar instances *)

(** *** Exact reals *)

Section RealScalar.
Open Scope R_scope.

(** [tf.math.bessel_i0e], [tf.math.bessel_i1e] and [tf.lgamma] are
    TensorFlow kernels: they are taken as given, as is the tolerance of
    [tf.assert_near]. *)
Variables (i0e i1e lgam : R -> R) (tol : R).

Definition Rltb (x y : R) : bool := if Rlt_dec x y then true else false.
Definition Rleb (x y : R) : bool := if Rle_dec x y then true else false.
Definition Reqb (x y : R) : bool := if Req_dec_T x y then true else false.

Definition R_scalar : Scalar R := {|
  of_Q := Q2R;
  pi := PI;
  add := Rplus;
  sub := Rminus;
  mul := Rmult;
  div := Rdiv;
  neg := Ropp;
  absf := Rabs;
  sqrtf := sqrt;
  rsqrt := fun x => / sqrt x;
  expf := exp;
  logf := ln;
  log1p := fun x => ln (1 + x);
  maximum := Rmax;
  ltb := Rltb;
  leb := Rleb;
  eqb := Reqb;
  is_finite := fun _ => true;
  bessel_i0e := i0e;
  bessel_i1e := i1e;
  lgamma := lgam;
  near_tol := tol
|}.
End RealScalar.

(** *** Reals with the IEEE special values

    Finite values are exact reals (no rounding, no overflow, one zero);
    the infinities and NaN follow IEEE 754. *)

Inductive xreal : Type :=
| Fin (r : R)
| PInf
| NInf
| NaN.

Section ExtendedScalar.
Open Scope R_scope.

Variables (i0e i1e lgam : R -> R) (tol : R).

Definition xneg (x : xreal) : xreal :=
  match x with
  | Fin r => Fin (- r)
  | PInf => NInf
  | NInf => PInf
  | NaN => NaN
  end.

Definition xadd (x y : xreal) : xreal :=
  match x, y with
  | NaN, _ | _, NaN => NaN
  | PInf, NInf | NInf, PInf => NaN
  | PInf, _ | _, PInf => PInf
  | NInf, _ | _, NInf => NInf
  | Fin a, Fin b => Fin (a + b)
  end.

Definition xsub (x y : xreal) : xreal := xadd x (xneg y).

(** An infinity of the sign of [a], NaN for [a = 0]. *)
Definition signed_inf (positive : bool) (a : R) : xreal :=
  if Req_dec_T a 0 then NaN
  else if Rlt_dec 0 a then (if positive then PInf else NInf)
  else (if positive then NInf else PInf).

Definition xmul (x y : xreal) : xreal :=
  match x, y with
  | NaN, _ | _, NaN => NaN
  | Fin a, Fin b => Fin (a * b)
  | Fin a, PInf | PInf, Fin a => signed_inf true a
  | Fin a, NInf | NInf, Fin a => signed_inf false a
  | PInf, PInf | NInf, NInf => PInf
  | PInf, NInf | NInf, PInf => NInf
  end.

Definition xdiv (x y : xreal) : xreal :=
  match x, y with
  | NaN, _ | _, NaN => NaN
  | Fin a, Fin b =>
      if Req_dec_T b 0 then signed_inf true a else Fin (a / b)
  | Fin _, (PInf | NInf) => Fin 0
  | (PInf | NInf), (PInf | NInf) => NaN
  | PInf, Fin b => if Rlt_dec b 0 then NInf else PInf
  | NInf, Fin b => if Rlt_dec b 0 then PInf else NInf
  end.

Definition xabs (x : xreal) : xreal :=
  match x with
  | Fin r => Fin (Rabs r)
  | PInf | NInf => PInf
  | NaN => NaN
  end.

Definition xsqrt (x : xreal) : xreal :=
  match x with
  | Fin r => if Rlt_dec r 0 then NaN else Fin (sqrt r)
  | PInf => PInf
  | NInf | NaN => NaN
  end.

Definition xrsqrt (x : xreal) : xreal :=
  match x with
  | Fin r =>
      if Rlt_dec r 0 then NaN
      else if Req_dec_T r 0 then PInf
      else Fin (/ sqrt r)
  | PInf => Fin 0
  | NInf | NaN => NaN
  end.

Definition xexp (x : xreal) : xreal :=
  match x with
  | Fin r => Fin (exp r)
  | PInf => PInf
  | NInf => Fin 0
  | NaN => NaN
  end.

Definition xlog (x : xreal) : xreal :=
  match x with
  | Fin r =>
      if Rlt_dec r 0 then NaN
      else if Req_dec_T r 0 then NInf
      else Fin (ln r)
  | PInf => PInf
  | NInf | NaN => NaN
  end.

Definition xmax (x y : xreal) : xreal :=
  match x, y with
  | NaN, _ | _, NaN => NaN
  | PInf, _ | _, PInf => PInf
  | NInf, z | z, NInf => z
  | Fin a, Fin b => Fin (Rmax a b)
  end.

Definition xltb (x y : xreal) : bool :=
  match x, y with
  | NaN, _ | _, NaN => false
  | Fin a, Fin b => Rltb a b
  | NInf, (Fin _ | PInf) => true
  | Fin _, PInf => true
  | _, _ => false
  end.

Definition xleb (x y : xreal) : bool :=
  match x, y with
  | NaN, _ | _, NaN => false
  | Fin a, Fin b => Rleb a b
  | NInf, _ => true
  | _, PInf => true
  | _, _ => false
  end.

Definition xeqb (x y : xreal) : bool :=
  match x, y with
  | Fin a, Fin b => Reqb a b
  | PInf, PInf | NInf, NInf => true
  | _, _ => false
  end.

Definition xfinite (x : xreal) : bool :=
  match x with
  | Fin _ => true
  | _ => false
  end.

(** The kernels at the special values: both scaled Bessel functions
    vanish at the infinities, [lgamma] is infinite there. *)
Definition xlift (f : R -> R) (at_inf : xreal) (x : xreal) : xreal :=
  match x with
  | Fin r => Fin (f r)
  | PInf | NInf => at_inf
  | NaN => NaN
  end.

Definition X_scalar : Scalar xreal := {|
  of_Q := fun q => Fin (Q2R q);
  pi := Fin PI;
  add := xadd;
  sub := xsub;
  mul := xmul;
  div := xdiv;
  neg := xneg;
  absf := xabs;
  sqrtf := xsqrt;
  rsqrt := xrsqrt;
  expf := xexp;
  logf := xlog;
  log1p := fun x => xlog (xadd (Fin 1) x);
  maximum := xmax;
  ltb := xltb;
  leb := xleb;
  eqb := xeqb;
  is_finite := xfinite;
  bessel_i0e := xlift i0e (Fin 0);
  bessel_i1e := xlift i1e (Fin 0);
  lgamma := xlift lgam PInf;
  near_tol := Fin tol
|}.
End ExtendedScalar.

(** ** Definitions the statements below are written with *)

(** The entry at index [i] of a tensor once it is broadcast along its
    axis: the only entry of a tensor of size 1 stands at every index. *)
Definition bcast_nth {A : Type} (l : list A) (i : nat) : option A :=
  match l with
  | [a] => Some a
  | _ => nth_error l i
  end.

Section Statements.
Context {F : Type} {S : Scalar F}.
Open Scope scalar_scope.

(** The factor the half-integer orders multiply by: the reciprocal
    square root of [z] where [z > 0], and 1 elsewhere. *)
Definition rsqrt_or_one (x : F) : F := if gt0 x then rsqrt x else one.

(** The safe form of the 3-D inversion, for one draw [z] at concentration
    [k]: [1 + logsumexp(log z, log1p(-z) - 2 k) / k] on the guarded
    values. *)
Definition safe_u_elem (k z : F) : F :=
  let sz := if gt0 z then z else one in
  let sc := if gt0 k then k else one in
  one +. logsumexp2 (logf sz) (log1p (neg sz) -. two *. sc) /. sc.
End Statements.

(** *** The scaled Bessel function of half-integer order, in closed form

    The spec's base cases, [sinh(z) e^{-|z|}] and [cosh(z) e^{-|z|}]
    divided by [sqrt(z)] and scaled by [sqrt(2/pi)], and its recurrence
    [I_v(z) = I_{v-2}(z) - 2(v-1)/z * I_{v-1}(z)] at [v = 3/2]. *)

Section ClosedForms.
Open Scope R_scope.

Definition Ive_half (x : R) : R :=
  sqrt (2 / PI) * (sinh x * exp (- Rabs x)) / sqrt x.

Definition Ive_minus_half (x : R) : R :=
  sqrt (2 / PI) * (cosh x * exp (- Rabs x)) / sqrt x.

Definition Ive_3half (x : R) : R :=
  Ive_minus_half x - 2 * (3 / 2 - 1) / x * Ive_half x.

(** The distribution of the scenarios below: a batch of [k] with mean
    directions [m], read at the given event size, in [tf.float32] (the
    type of Python floats) and with the event size known statically. *)
Definition vmf (D : nat) (m : list (list R)) (k : list R)
    (validate nan_ok : bool) : VonMisesFisher R :=
  {| dtype := float32;
     event_dim := D;
     static_shape := true;
     mean_direction := m;
     concentration := k;
     validate_args := validate;
     allow_nan_stats := nan_ok |}.
End ClosedForms.

(** The scenario of C2's refutation: one four-dimensional distribution. *)
Definition vmf_4d : VonMisesFisher R :=
  vmf 4 [[1; 0; 0; 0]%R] [1%R] false true.

(** The scenario of C3's refutation: three dimensions, an infinite
    concentration (the documented limit of a point mass), and
    [allow_nan_stats] left at its default, [True]. *)
Definition vmf_inf : VonMisesFisher xreal :=
  {| dtype := float32;
     event_dim := 3;
     static_shape := true;
     mean_direction := [[Fin 0; Fin 1; Fin 0]];
     concentration := [PInf];
     validate_args := false;
     allow_nan_stats := true |}.

(** The scenario of C6's refutation: a batch of a zero and an infinite
    concentration. *)
Definition vmf_zero_inf : VonMisesFisher xreal :=
  {| dtype := float32;
     event_dim := 3;
     static_shape := true;
     mean_direction := [[Fin 0; Fin 1; Fin 0]; [Fin 0; Fin 1; Fin 0]];
     concentration := [Fin 0; PInf];
     validate_args := false;
     allow_nan_stats := true |}.

(** The scenario of C1: [D = 3], [mu = [0, 1, 0]], [kappa = 1], evaluated
    at [x = [1, 0, 0]]; the value of [I_{1/2}(1)] in closed form, and the
    bracket of the spec's sentence. *)
Definition vmf_example : VonMisesFisher R :=
  vmf 3 [[0; 1; 0]%R] [1%R] false true.

Definition I_half_1 : R := (sqrt (2 / (PI * 1)) * sinh 1)%R.

Definition scenario_bracket : R :=
  (1 / 2 * ln 1 - 3 / 2 * ln (2 * PI) - ln (I_half_1 * exp (- 1)) - 1)%R.

(** The scenario of C7 and C8: two dimensions and a unit mean direction
    [(a, b)] at angle about [2e-7] from the basis vector [(1, 0)], so that
    [0 < |e1 - mu|^2 < 1e-12].  (In float32 the direction [(1, 2e-7)] is
    such a vector of norm 1.) *)
Definition near_basis_mean : list R :=
  [99999999999999 / 100000000000001; 20000000 / 100000000000001]%R.

Definition vmf_near_basis : VonMisesFisher R :=
  vmf 2 [near_basis_mean] [0%R] false true.

(** ** What a run shows, and the draws of a seeded run *)

Section Observation.
Variable G : Type.

(** The same outcome, with the generator state replaced. *)
Definition with_ambient {A : Type} (g : G) (o : outcome G A) : outcome G A :=
  match o with
  | Done a r => Done a {| ambient := g; drawn := drawn r |}
  | Raised _ _ e => Raised _ _ e
  | Running _ _ => Running _ _
  end.

(** A computation that neither reads nor advances the generator state:
    started from another state it does the same, and leaves that state
    as it was. *)
Definition ambient_free {A : Type} (m : Rand G A) : Prop :=
  forall (g g' : G) (t : list (draw_kind * option Z)),
    m {| ambient := g'; drawn := t |}
    = with_ambient g' (m {| ambient := g; drawn := t |}).

(** A stream of [_sample_n] made from the seed [s]. *)
Definition seeded (s : Z) (stream : SeedStream) : Prop :=
  original_seed stream = Some s /\ salt stream = "vom_mises_fisher"%string.

Variable hash : Z -> nat -> string -> Z.

(** The draws of one call with seed [s]: in three dimensions one uniform
    draw from the sampler's own stream and the normal draw, with the first
    sub-seed of the stream of [_sample_n]; otherwise a beta and a uniform
    draw per iteration of the loop ([k] iterations), from the two ops of
    the loop, which have the first and the second sub-seed, then the
    normal draw, with the third. *)
Definition draws_3d (s : Z) : list (draw_kind * option Z) :=
  [(Uniform, Some (hash s 1 "von_mises_fisher_3d"));
   (Normal, Some (hash s 1 "vom_mises_fisher"))].

Definition loop_draws (s : Z) (k : nat) : list (draw_kind * option Z) :=
  flat_map
    (fun _ =>
       [(Beta, Some (hash s 1 "vom_mises_fisher"));
        (Uniform, Some (hash s 2 "vom_mises_fisher"))])
    (seq 0 k).

Definition draws_rejection (s : Z) (k : nat) : list (draw_kind * option Z) :=
  loop_draws s k ++ [(Normal, Some (hash s 3 "vom_mises_fisher"))].
End Observation.

(** ** [_covariance] *)

Section Covariance.
Context {F : Type} {S : Scalar F}.
Open Scope scalar_scope.

(** [tf.matmul(m[..., :, tf.newaxis], m[..., tf.newaxis, :])] for one
    vector: its outer product with itself (the contracted dimension has
    size 1, so each entry is one product). *)
Definition outer (m : list F) : list (list F) :=
  map (fun a => map (fun b => a *. b) m) m.

(** [tf.matrix_diag_part(t)] on one square matrix. *)
Definition matrix_diag_part (t : list (list F)) : list F :=
  zip_with (fun i row => nth i row zero) (seq 0 (List.length t)) t.

(** [tf.matrix_set_diag(t, diag)] on one square matrix. *)
Definition matrix_set_diag (t : list (list F)) (diag : list F)
  : list (list F) :=
  zip_with
    (fun i rd =>
       zip_with (fun j x => if (i =? j)%nat then snd rd else x)
         (seq 0 (List.length (fst rd))) (fst rd))
    (seq 0 (List.length t)) (combine t diag).

(** [tf.linalg.eye(D)] *)
Definition eye (D : nat) : list (list F) :=
  map (fun i => map (fun j => if (i =? j)%nat then one else zero) (seq 0 D))
    (seq 0 D).

Variable self : VonMisesFisher F.

(** [_covariance]: one [D x D] matrix per batch member.  The tensors of
    shape [[Bc, 1]] ([concentration], [safe_conc], [h]) are lists of [Bc]
    scalars, each broadcast over its matrix; the products of shape
    [[Bm, D, D]] broadcast against them along the batch.
    [tf.linalg.eye] is called without a dtype and gives a [tf.float32]
    tensor, which the last [tf.where] takes only beside a [cov] of that
    type. *)
Definition _covariance : result (list (list (list F))) :=
  match event_shape_value self with
  | None =>
      Err (ValueError "event shape must be statically known for _bessel_ive")
  | Some D =>
      if (2 <? D)%nat then
        Err (ValueError "vMF covariance is numerically unstable for dim>2")
      else
        let event_dim := of_Q (inject_Z (Z.of_nat D)) in
        let concentration := concentration self in
        let safe_conc := safe concentration in
        num <- _bessel_ive (half D) safe_conc ;;
        den <- _bessel_ive (half D - 1) safe_conc ;;
        let h := zip_with div num den in
        let factor :=
          zip_with (fun hk sc => one -. event_dim *. hk /. sc -. square hk)
            h safe_conc in
        intermediate <-
          broadcast_with (fun m f => map (map (fun x => x *. f)) (outer m))
            (mean_direction self) factor ;;
        let shift := zip_with div h safe_conc in
        diag <-
          broadcast_with
            (fun t s => map (fun x => x +. s) (matrix_diag_part t))
            intermediate shift ;;
        let cov := zip_with matrix_set_diag intermediate diag in
        cond <-
          broadcast_with
            (fun k c => map (fun crow => map (fun z0 => z0 <?. k)
                                           (zeros_like crow)) c)
            concentration cov ;;
        batch_shape <- _batch_shape_tensor self ;;
        let isotropic :=
          repeat (map (map (fun x => x /. event_dim)) (eye D)) batch_shape in
        if is_float32 (dtype self) then
          Ok (zip_with
                (fun cc e =>
                   zip_with (fun cx erow => where_ (fst cx) (snd cx) erow)
                     (combine (fst cc) (snd cc)) e)
                (combine cond cov) isotropic)
        else
          Err (TypeError
                 "Input 'e' of 'Select' Op has type float32 that does not match the type of argument 't'")
  end.
End Covariance.

(** ** Entries of a tensor of rank 2 or more *)

Definition entry {A : Type} (t : list (list A)) (i b : nat) : option A :=
  match nth_error t i with
  | Some row => nth_error row b
  | None => None
  end.

(** * Properties *)

(** ** Lists *)

Section ListFacts.
Variables A B C D : Type.

Lemma zip_with_map (f : B -> C -> D) (g : A -> B) (h : A -> C) (l : list A) :
  zip_with f (map g l) (map h l) = map (fun x => f (g x) (h x)) l.
Proof. induction l as [|a l IH]; simpl; [reflexivity | now rewrite IH]. Qed.

Lemma zip_with_map_l (f : B -> C -> D) (g : A -> B) (l : list A) (l' : list C) :
  zip_with f (map g l) l' = zip_with (fun a c => f (g a) c) l l'.
Proof.
  revert l'; induction l as [|a l IH]; intros [|c l']; simpl; try reflexivity.
  now rewrite IH.
Qed.

Lemma zip_with_map_r (f : B -> C -> D) (g : A -> C) (l : list B) (l' : list A) :
  zip_with f l (map g l') = zip_with (fun b a => f b (g a)) l l'.
Proof.
  revert l'; induction l as [|b l IH]; intros [|a l']; simpl; try reflexivity.
  now rewrite IH.
Qed.

Lemma zip_with_same (f : A -> A -> B) (l : list A) :
  zip_with f l l = map (fun x => f x x) l.
Proof. induction l as [|a l IH]; simpl; [reflexivity | now rewrite IH]. Qed.

Lemma zip_with_ext (f g : A -> B -> C) (l : list A) (l' : list B) :
  (forall a b, f a b = g a b) -> zip_with f l l' = zip_with g l l'.
Proof.
  intros H; revert l'; induction l as [|a l IH]; intros [|b l']; simpl;
    try reflexivity.
  now rewrite H, IH.
Qed.

Lemma zip_with_length (f : A -> B -> C) (l : list A) (l' : list B) :
  List.length (zip_with f l l') = Nat.min (List.length l) (List.length l').
Proof.
  revert l'; induction l as [|a l IH]; intros [|b l']; simpl; try reflexivity.
  now rewrite IH.
Qed.

Lemma zip_with_nth_error (f : A -> B -> C) (l : list A) (l' : list B) i a b :
  nth_error l i = Some a -> nth_error l' i = Some b ->
  nth_error (zip_with f l l') i = Some (f a b).
Proof.
  revert l l'; induction i as [|i IH]; intros [|x l] [|y l']; simpl;
    try discriminate.
  - now intros [= ->] [= ->].
  - apply IH.
Qed.

Lemma where_map (c : A -> bool) (f g : A -> B) (l : list A) :
  where_ (map c l) (map f l) (map g l)
  = map (fun x => if c x then f x else g x) l.
Proof. induction l as [|a l IH]; simpl; [reflexivity | now rewrite IH]. Qed.

Lemma where_const (c : bool) (l : list A) (f g : A -> B) :
  where_ (map (fun _ => c) l) (map f l) (map g l)
  = if c then map f l else map g l.
Proof.
  rewrite where_map. destruct c; reflexivity.
Qed.

Lemma zip_with_zip_map {E : Type} (f : A -> D -> E) (g : B -> C -> D)
    (h : A -> C) (l : list A) (l' : list B) :
  zip_with f l (zip_with g l' (map h l))
  = zip_with (fun a b => f a (g b (h a))) l l'.
Proof.
  revert l'; induction l as [|a l IH]; intros [|b l']; simpl; try reflexivity.
  now rewrite IH.
Qed.
End ListFacts.

(** ** Broadcasting *)

Section BroadcastFacts.

(** Tensors of one size pair up. *)
Lemma broadcast_with_same {A B C : Type} (f : A -> B -> C) (l1 : list A) (l2 : list B) :
  List.length l1 = List.length l2 ->
  broadcast_with f l1 l2 = Ok (zip_with f l1 l2).
Proof.
  intros H. unfold broadcast_with. now rewrite H, Nat.eqb_refl.
Qed.

Lemma broadcast_with_ext {A B C : Type} (f g : A -> B -> C)
    (l1 : list A) (l2 : list B) :
  (forall a b, f a b = g a b) ->
  broadcast_with f l1 l2 = broadcast_with g l1 l2.
Proof.
  intros H. unfold broadcast_with.
  rewrite (zip_with_ext f g l1 l2 H).
  destruct (List.length l1 =? List.length l2)%nat; [reflexivity|].
  destruct l1 as [|a [|a' l1]]; destruct l2 as [|b [|b' l2]];
    try reflexivity; f_equal; cbn [map]; rewrite ?H; try reflexivity;
    f_equal; rewrite ?H; try reflexivity; f_equal;
    apply map_ext; intros; apply H.
Qed.

(** What broadcasts has the broadcast size. *)
Lemma broadcast_with_length {A B C : Type} (f : A -> B -> C) (l1 : list A) (l2 : list B)
    (l : list C) :
  broadcast_with f l1 l2 = Ok l ->
  broadcast_shape (List.length l1) (List.length l2) = Ok (List.length l).
Proof.
  unfold broadcast_with, broadcast_shape.
  destruct (List.length l1 =? List.length l2)%nat eqn:Hl.
  - intros [= <-]. rewrite zip_with_length.
    apply Nat.eqb_eq in Hl. rewrite <- Hl, Nat.min_id. reflexivity.
  - destruct l1 as [|a [|a' l1]]; destruct l2 as [|b [|b' l2]];
      cbn in Hl |- *; try discriminate;
      intros [= <-]; cbn; now rewrite ?length_map.
Qed.

(** A product scaled twice along the batch, as [_mean] does: the factor
    [r] of the second operand broadcasts against the first, and the
    second operand against the result. *)
Lemma broadcast_with_twice {A B C D E : Type} (f : A -> C -> D) (g : B -> D -> E) (r : B -> C)
    (l1 : list A) (l2 : list B) :
  bind (broadcast_with f l1 (map r l2)) (fun x => broadcast_with g l2 x)
  = broadcast_with (fun b a => g b (f a (r b))) l2 l1.
Proof.
  destruct (List.length l1 =? List.length l2)%nat eqn:Hl.
  - apply Nat.eqb_eq in Hl.
    rewrite (broadcast_with_same f l1 (map r l2))
      by (now rewrite length_map).
    cbn [bind].
    rewrite broadcast_with_same
      by (rewrite zip_with_length, length_map, Hl; now rewrite Nat.min_id).
    rewrite (broadcast_with_same _ l2 l1) by now symmetry.
    f_equal. rewrite zip_with_map_r.
    rewrite <- (map_id l2) at 2. rewrite zip_with_zip_map.
    apply zip_with_ext. reflexivity.
  - destruct l1 as [|a [|a' l1]]; destruct l2 as [|b [|b' l2]];
      cbn in Hl; try discriminate; unfold broadcast_with;
      cbn [List.length map Nat.eqb bind]; rewrite ?Hl;
      cbn [List.length map Nat.eqb bind];
      rewrite ?length_map, ?Nat.eqb_refl, ?Hl,
        ?(Nat.eqb_sym (List.length l2) (List.length l1)), ?Hl;
      cbn [bind]; try reflexivity.
    + f_equal. cbn [zip_with map]. f_equal. f_equal.
      rewrite map_map, zip_with_map_r, zip_with_same. reflexivity.
    + rewrite map_map. reflexivity.
Qed.

Lemma all_ok_map_Ok {A : Type} (l : list A) : all_ok (map (@Ok A) l) = Ok l.
Proof.
  induction l as [|a l IH]; cbn [map all_ok bind]; [reflexivity|].
  now rewrite IH.
Qed.

Lemma all_ok_inv {A : Type} (rows : list (result A)) (l : list A) :
  all_ok rows = Ok l -> rows = map (@Ok A) l.
Proof.
  revert l. induction rows as [|m rows IH]; intros l; cbn [all_ok].
  - now intros [= <-].
  - destruct m as [a|e]; [|discriminate]. cbn [bind].
    destruct (all_ok rows) as [t|e]; [|discriminate]. cbn [bind].
    intros [= <-]. cbn [map]. now rewrite (IH t eq_refl).
Qed.

(** *** Entries of a broadcast tensor *)

Lemma nth_error_bcast_nth {A : Type} (l : list A) (i : nat) (a : A) :
  nth_error l i = Some a -> bcast_nth l i = Some a.
Proof.
  destruct l as [|x [|y l]]; cbn [bcast_nth]; try easy.
  destruct i as [|i]; cbn [nth_error]; [easy|]. now destruct i.
Qed.

Lemma bcast_nth_In {A : Type} (l : list A) (i : nat) (a : A) :
  bcast_nth l i = Some a -> In a l.
Proof.
  destruct l as [|x [|y l]]; cbn [bcast_nth].
  - now destruct i.
  - intros [= ->]. now left.
  - apply nth_error_In.
Qed.

Lemma bcast_nth_map {A B : Type} (f : A -> B) (l : list A) (i : nat) :
  bcast_nth (map f l) i = option_map f (bcast_nth l i).
Proof.
  destruct l as [|x [|y l]]; cbn [bcast_nth map]; try reflexivity.
  - now destruct i.
  - change (f x :: f y :: map f l) with (map f (x :: y :: l)).
    apply nth_error_map.
Qed.

Lemma zip_with_nth_error_inv {A B C : Type} (f : A -> B -> C)
    (l : list A) (l' : list B) (i : nat) (c : C) :
  nth_error (zip_with f l l') i = Some c ->
  exists a b, nth_error l i = Some a /\ nth_error l' i = Some b /\ c = f a b.
Proof.
  revert l l'; induction i as [|i IH]; intros [|x l] [|y l']; cbn;
    try discriminate.
  - intros [= <-]. now exists x, y.
  - apply IH.
Qed.

Lemma map_nth_error_inv {A B : Type} (f : A -> B) (l : list A) (i : nat)
    (b : B) :
  nth_error (map f l) i = Some b ->
  exists a, nth_error l i = Some a /\ b = f a.
Proof.
  rewrite nth_error_map. destruct (nth_error l i) as [a|]; [|discriminate].
  intros [= <-]. now exists a.
Qed.

(** The entry of a broadcast result comes from the entries of the
    operands at the same index, each broadcast. *)
Lemma broadcast_with_bcast_nth {A B C : Type} (f : A -> B -> C)
    (l1 : list A) (l2 : list B) (l : list C) (i : nat) (c : C) :
  broadcast_with f l1 l2 = Ok l ->
  bcast_nth l i = Some c ->
  exists a b,
    bcast_nth l1 i = Some a /\ bcast_nth l2 i = Some b /\ c = f a b.
Proof.
  unfold broadcast_with.
  destruct (List.length l1 =? List.length l2)%nat eqn:Hl.
  - apply Nat.eqb_eq in Hl. intros [= <-].
    destruct l1 as [|x [|y l1]]; destruct l2 as [|x' [|y' l2]];
      try discriminate; cbn [zip_with bcast_nth].
    + now destruct i.
    + intros [= <-]. now exists x, x'.
    + intros H.
      change (f x x' :: f y y' :: zip_with f l1 l2)
        with (zip_with f (x :: y :: l1) (x' :: y' :: l2)) in H.
      now apply zip_with_nth_error_inv in H.
  - destruct l1 as [|x [|y l1]]; destruct l2 as [|x' [|y' l2]];
      cbn in Hl; try discriminate; intros [= <-]; cbn [map bcast_nth].
    + now destruct i.
    + now destruct i.
    + intros H.
      change (f x x' :: f x y' :: map (f x) l2)
        with (map (f x) (x' :: y' :: l2)) in H.
      apply map_nth_error_inv in H as (b & Hb & ->). now exists x, b.
    + intros H.
      change (f x x' :: f y x' :: map (fun a => f a x') l1)
        with (map (fun a => f a x') (x :: y :: l1)) in H.
      apply map_nth_error_inv in H as (a & Ha & ->). now exists a, x'.
Qed.
End BroadcastFacts.

(** ** The Bessel evaluator, at any scalar type *)

Section BesselFacts.
Context {F : Type} {S : Scalar F}.
Open Scope scalar_scope.

Lemma safe_map (z : list F) :
  safe z = map (fun x => if gt0 x then x else one) z.
Proof.
  unfold safe, ones_like.
  rewrite <- (map_id z) at 2. apply where_map.
Qed.

Lemma guarded_rsqrt (z : list F) :
  where_ (map gt0 z) (map rsqrt (safe z)) (ones_like (safe z))
  = map rsqrt_or_one z.
Proof.
  rewrite safe_map. unfold ones_like. rewrite !map_map, where_map.
  apply map_ext; intros x. unfold rsqrt_or_one. now destruct (gt0 x).
Qed.

(** The tests on the order, from what is known of it. *)
Lemma Qle_bool_false (a b : Q) : (b < a)%Q -> Qle_bool a b = false.
Proof.
  intros H. apply not_true_is_false. rewrite Qle_bool_iff. lra.
Qed.

Lemma Qeq_bool_true (a b : Q) : (a == b)%Q -> Qeq_bool a b = true.
Proof. apply Qeq_bool_iff. Qed.

Lemma Qeq_bool_false (a b : Q) : ~ (a == b)%Q -> Qeq_bool a b = false.
Proof.
  intros H. apply not_true_is_false. now rewrite Qeq_bool_iff.
Qed.

Lemma Qle_bool_true (a b : Q) : (a <= b)%Q -> Qle_bool a b = true.
Proof. apply Qle_bool_iff. Qed.

Ltac order_tests :=
  repeat first
    [ rewrite Qeq_bool_true by lra
    | rewrite Qeq_bool_false by lra
    | rewrite Qle_bool_true by lra
    | rewrite Qle_bool_false by lra ].

Lemma cache_item_set (v : Q) (t : list F) :
  cache_item (cache_set [] v t) v = Ok t.
Proof. unfold cache_item; simpl. now rewrite Qeq_bool_refl. Qed.

(** A call at an order up to 1, without a cache: no recursion. *)
Lemma bessel_ive_rec_base (fuel : nat) (v : Q) (z : list F) :
  (v <= 1)%Q ->
  bessel_ive_rec (Datatypes.S fuel) v z []
  = (t <- cache_item (bessel_base v z []) v ;;
     r <- wrap v t ;; Ok (r, [])).
Proof.
  intros H. cbn [bessel_ive_rec cache_get]. order_tests. reflexivity.
Qed.

Lemma bessel_rec_order_0 (fuel : nat) (v : Q) (z : list F) :
  (v == 0)%Q ->
  bessel_ive_rec (Datatypes.S fuel) v z []
  = (r <- wrap v (map bessel_i0e z) ;; Ok (r, [])).
Proof.
  intros H. rewrite bessel_ive_rec_base by lra.
  unfold bessel_base. order_tests. now rewrite cache_item_set.
Qed.

Lemma bessel_rec_order_1 (fuel : nat) (v : Q) (z : list F) :
  (v == 1)%Q ->
  bessel_ive_rec (Datatypes.S fuel) v z []
  = (r <- wrap v (map bessel_i1e z) ;; Ok (r, [])).
Proof.
  intros H. rewrite bessel_ive_rec_base by lra.
  unfold bessel_base. order_tests. now rewrite cache_item_set.
Qed.

Lemma bessel_rec_order_half (fuel : nat) (v : Q) (z : list F) :
  (v == 1 # 2)%Q ->
  bessel_ive_rec (Datatypes.S fuel) v z []
  = (r <- wrap v
            (map (fun x => sqrt_2_over_pi *. sinhe x *. rsqrt_or_one x) z) ;;
     Ok (r, [])).
Proof.
  intros H. rewrite bessel_ive_rec_base by lra.
  unfold bessel_base. order_tests.
  now rewrite cache_item_set, guarded_rsqrt, zip_with_map.
Qed.

Lemma bessel_rec_order_minus_half (fuel : nat) (v : Q) (z : list F) :
  (v == - (1 # 2))%Q ->
  bessel_ive_rec (Datatypes.S fuel) v z []
  = (r <- wrap v
            (map (fun x => sqrt_2_over_pi *. coshe x *. rsqrt_or_one x) z) ;;
     Ok (r, [])).
Proof.
  intros H. rewrite bessel_ive_rec_base by lra.
  unfold bessel_base. order_tests.
  now rewrite cache_item_set, guarded_rsqrt, zip_with_map.
Qed.

Lemma bind_wrap_fst (v : Q) (t : list F) :
  ('(r, _) <- (r <- wrap v t ;; Ok (r, @nil (Q * list F))) ;; Ok r) = wrap v t.
Proof. destruct (wrap v t); reflexivity. Qed.

Lemma bessel_ive_order_0 (v : Q) (z : list F) :
  (v == 0)%Q -> _bessel_ive v z = wrap v (map bessel_i0e z).
Proof.
  intros H. unfold _bessel_ive. rewrite bessel_rec_order_0 by assumption.
  apply bind_wrap_fst.
Qed.

Lemma bessel_ive_order_1 (v : Q) (z : list F) :
  (v == 1)%Q -> _bessel_ive v z = wrap v (map bessel_i1e z).
Proof.
  intros H. unfold _bessel_ive. rewrite bessel_rec_order_1 by assumption.
  apply bind_wrap_fst.
Qed.

Lemma bessel_ive_order_half (v : Q) (z : list F) :
  (v == 1 # 2)%Q ->
  _bessel_ive v z
  = wrap v (map (fun x => sqrt_2_over_pi *. sinhe x *. rsqrt_or_one x) z).
Proof.
  intros H. unfold _bessel_ive. rewrite bessel_rec_order_half by assumption.
  apply bind_wrap_fst.
Qed.

Lemma bessel_ive_order_minus_half (v : Q) (z : list F) :
  (v == - (1 # 2))%Q ->
  _bessel_ive v z
  = wrap v (map (fun x => sqrt_2_over_pi *. coshe x *. rsqrt_or_one x) z).
Proof.
  intros H. unfold _bessel_ive.
  rewrite bessel_rec_order_minus_half by assumption.
  apply bind_wrap_fst.
Qed.

Lemma bessel_ive_large_order (v : Q) (z : list F) :
  (2 <= v)%Q ->
  _bessel_ive v z
  = Err (ValueError
           "Evaluating bessel_i by recurrence becomes imprecise for large v").
Proof.
  intros H. unfold _bessel_ive; cbn [bessel_ive_rec]. now order_tests.
Qed.

(** Below order 1 a call makes no recursive call: one unit of fuel is
    as good as any. *)
Lemma bessel_ive_rec_low (fuel : nat) (v : Q) (z : list F) (c : cache_t) :
  Qle_bool v 1 = true ->
  bessel_ive_rec (Datatypes.S fuel) v z c = bessel_ive_rec 1 v z c.
Proof.
  intros H. simpl. rewrite H. reflexivity.
Qed.

Lemma bessel_ive_rec_low_total (v : Q) (z : list F) (c : cache_t) :
  Qle_bool v 1 = true -> bessel_ive_rec 1 v z c <> Err RecursionError.
Proof.
  intros H. cbn [bessel_ive_rec]. rewrite H.
  destruct (Qle_bool 2 v); [discriminate|].
  unfold cache_item, wrap, check_numerics.
  destruct (cache_get c v) as [t|].
  { destruct (all_finite t); discriminate. }
  destruct (cache_get _ v) as [t|]; simpl; [|discriminate].
  destruct (all_finite t); discriminate.
Qed.

(** The recurrence, at an order between 1 and 2 that is not cached. *)
Lemma bessel_ive_rec_step (fuel : nat) (v : Q) (z : list F) (c : cache_t) :
  Qle_bool 2 v = false -> cache_get c v = None -> Qle_bool v 1 = false ->
  bessel_ive_rec (Datatypes.S fuel) v z c
  = ('(a, local1) <- bessel_ive_rec fuel (v - 2) z (bessel_base v z c) ;;
     '(b, local2) <- bessel_ive_rec fuel (v - 1) z local1 ;;
     let t :=
       zip_with sub a
         (zip_with div (map (fun x => of_Q (2 * (v - 1)) *. x) b) z) in
     r <- wrap v t ;;
     Ok (r, match c with [] => c | _ => cache_set local2 v t end)).
Proof.
  intros H2 Hc H1. cbn [bessel_ive_rec]. rewrite H2, Hc, H1.
  destruct (bessel_ive_rec fuel (v - 2) z _) as [[a l1]|]; [|reflexivity].
  cbn [bind].
  destruct (bessel_ive_rec fuel (v - 1) z l1) as [[b l2]|]; [|reflexivity].
  cbn [bind]. destruct (wrap v _); [|reflexivity].
  cbn [bind]. now destruct c.
Qed.

(** Order 3/2: the recurrence over the orders -1/2 and 1/2. *)
Lemma bessel_ive_order_3half (v : Q) (z : list F) :
  (v == 3 # 2)%Q ->
  _bessel_ive v z
  = (a <- wrap (v - 2)
            (map (fun x => sqrt_2_over_pi *. coshe x *. rsqrt_or_one x) z) ;;
     b <- wrap (v - 1)
            (map (fun x => sqrt_2_over_pi *. sinhe x *. rsqrt_or_one x) z) ;;
     wrap v
       (zip_with sub a
          (zip_with div (map (fun x => of_Q (2 * (v - 1)) *. x) b) z))).
Proof.
  intros H. unfold _bessel_ive.
  rewrite bessel_ive_rec_step;
    [| apply Qle_bool_false; lra | reflexivity | apply Qle_bool_false; lra].
  assert (Hb : bessel_base v z [] = []).
  { unfold bessel_base. now order_tests. }
  rewrite Hb, bessel_rec_order_minus_half by lra.
  destruct (wrap (v - 2) _) as [a|e]; cbn [bind]; [|reflexivity].
  rewrite bessel_rec_order_half by lra.
  destruct (wrap (v - 1) _) as [b|e]; cbn [bind]; [|reflexivity].
  destruct (wrap v _); reflexivity.
Qed.

(** Two levels of recursion are enough at every order, and a call never
    runs out of them. *)
Lemma bessel_ive_fuel (fuel : nat) (v : Q) (z : list F) (c : cache_t) :
  bessel_ive_rec (2 + fuel) v z c = bessel_ive_rec 2 v z c.
Proof.
  change (2 + fuel)%nat with (Datatypes.S (Datatypes.S fuel)).
  cbn [bessel_ive_rec].
  destruct (Qle_bool 2 v) eqn:H2; [reflexivity|].
  destruct (cache_get c v); [reflexivity|].
  destruct (Qle_bool v 1) eqn:H1; [reflexivity|].
  assert (Hv : (v - 2 <= 1)%Q /\ (v - 1 <= 1)%Q).
  { assert (~ (2 <= v)%Q) by (rewrite <- Qle_bool_iff; congruence).
    split; lra. }
  destruct Hv as [Ha Hb].
  apply Qle_bool_iff in Ha, Hb. rewrite Ha, Hb. reflexivity.
Qed.

Lemma bessel_ive_total (v : Q) (z : list F) (c : cache_t) :
  bessel_ive_rec 2 v z c <> Err RecursionError.
Proof.
  destruct (Qle_bool 2 v) eqn:H2.
  { cbn [bessel_ive_rec]. rewrite H2. discriminate. }
  destruct (cache_get c v) as [t|] eqn:Hc.
  { cbn [bessel_ive_rec]. rewrite H2, Hc. unfold wrap, check_numerics.
    destruct (all_finite t); discriminate. }
  destruct (Qle_bool v 1) eqn:H1.
  { rewrite bessel_ive_rec_low by assumption.
    now apply bessel_ive_rec_low_total. }
  rewrite bessel_ive_rec_step by assumption.
  assert (Hv : (v - 2 <= 1)%Q /\ (v - 1 <= 1)%Q).
  { assert (~ (2 <= v)%Q) by (rewrite <- Qle_bool_iff; congruence).
    split; lra. }
  destruct Hv as [Ha Hb]. apply Qle_bool_iff in Ha, Hb.
  destruct (bessel_ive_rec 1 (v - 2) z _) as [[a l1]|e] eqn:Ea.
  2:{ cbn [bind]. intros [= ->].
      now apply (bessel_ive_rec_low_total (v - 2) z (bessel_base v z c)). }
  cbn [bind].
  destruct (bessel_ive_rec 1 (v - 1) z l1) as [[b l2]|e] eqn:Eb.
  2:{ cbn [bind]. intros [= ->].
      now apply (bessel_ive_rec_low_total (v - 1) z l1). }
  cbn [bind]. unfold wrap, check_numerics.
  destruct (all_finite _); discriminate.
Qed.
End BesselFacts.

Section BesselFinite.
Context {F : Type} {S : Scalar F}.
Open Scope scalar_scope.

Lemma check_numerics_ok (t r : list F) (tag : numerics_tag) :
  check_numerics t tag = Ok r -> r = t /\ all_finite t = true.
Proof.
  unfold check_numerics. destruct (all_finite t); [|discriminate].
  now intros [= <-].
Qed.

Lemma check_numerics_finite (t : list F) (tag : numerics_tag) :
  all_finite t = true -> check_numerics t tag = Ok t.
Proof. unfold check_numerics. now intros ->. Qed.

Lemma check_numerics_not_finite (t : list F) (tag : numerics_tag) :
  all_finite t = false -> check_numerics t tag = Err (CheckNumericsError tag).
Proof. unfold check_numerics. now intros ->. Qed.

(** Whatever a call returns went through [wrap]: it is finite. *)
Lemma bessel_ive_rec_finite (fuel : nat) (v : Q) (z : list F) (c c' : cache_t)
    (r : list F) :
  bessel_ive_rec fuel v z c = Ok (r, c') -> all_finite r = true.
Proof.
  destruct fuel as [|fuel]; [discriminate|].
  cbn [bessel_ive_rec].
  destruct (Qle_bool 2 v); [discriminate|].
  destruct (cache_get c v) as [t|].
  { destruct (wrap v t) as [r'|] eqn:E; [|discriminate].
    cbn [bind]. intros [= <- _]. now apply check_numerics_ok in E as [-> ?]. }
  destruct (Qle_bool v 1).
  { destruct (cache_item _ v) as [t|]; [|discriminate]. cbn [bind].
    destruct (wrap v t) as [r'|] eqn:E; [|discriminate].
    cbn [bind]. intros [= <- _]. now apply check_numerics_ok in E as [-> ?]. }
  destruct (bessel_ive_rec fuel (v - 2) z _) as [[a l1]|]; [|discriminate].
  cbn [bind].
  destruct (bessel_ive_rec fuel (v - 1) z l1) as [[b l2]|]; [|discriminate].
  cbn [bind].
  destruct (wrap v _) as [r'|] eqn:E; [|discriminate].
  cbn [bind]. intros [= <- _]. now apply check_numerics_ok in E as [-> ?].
Qed.

Lemma bessel_ive_finite (v : Q) (z r : list F) :
  _bessel_ive v z = Ok r -> all_finite r = true.
Proof.
  unfold _bessel_ive.
  destruct (bessel_ive_rec 2 v z []) as [[r' c']|] eqn:E; [|discriminate].
  cbn [bind]. intros [= <-]. eapply bessel_ive_rec_finite, E.
Qed.
End BesselFinite.

(** ** The evaluator over the reals *)

Ltac real_ops :=
  cbn [add sub mul div neg absf sqrtf rsqrt expf logf log1p maximum ltb leb
       eqb is_finite bessel_i0e bessel_i1e lgamma near_tol of_Q pi R_scalar].

Section RealFacts.
Open Scope R_scope.
Variables (i0e i1e lgam : R -> R) (tol : R).

Local Hint Extern 0 (Scalar R) =>
  exact (R_scalar i0e i1e lgam tol) : typeclass_instances.

Lemma real_zero : (zero : R) = 0.
Proof. unfold zero; simpl; unfold Q2R; simpl; lra. Qed.

Lemma real_one : (one : R) = 1.
Proof. unfold one; simpl; unfold Q2R; simpl; lra. Qed.

Lemma real_two : (two : R) = 2.
Proof. unfold two; simpl; unfold Q2R; simpl; lra. Qed.

Lemma real_gt0 (x : R) : gt0 x = if Rlt_dec 0 x then true else false.
Proof.
  unfold gt0. change (zero <?. x)%sc with (Rltb zero x).
  rewrite real_zero. reflexivity.
Qed.

Lemma real_all_finite (t : list R) : all_finite t = true.
Proof. induction t; simpl; auto. Qed.

Lemma real_check_numerics (t : list R) (tag : numerics_tag) :
  check_numerics t tag = Ok t.
Proof. apply check_numerics_finite, real_all_finite. Qed.

Lemma real_sinhe (x : R) : sinhe x = sinh x * exp (- Rabs x).
Proof.
  unfold sinhe; real_ops. rewrite real_two. unfold sinh.
  replace (x - Rabs x) with (x + - Rabs x) by lra.
  replace (- x - Rabs x) with (- x + - Rabs x) by lra.
  rewrite !exp_plus. lra.
Qed.

Lemma real_coshe (x : R) : coshe x = cosh x * exp (- Rabs x).
Proof.
  unfold coshe; real_ops. rewrite real_two. unfold cosh.
  replace (x - Rabs x) with (x + - Rabs x) by lra.
  replace (- x - Rabs x) with (- x + - Rabs x) by lra.
  rewrite !exp_plus. lra.
Qed.

Lemma real_sqrt_2_over_pi : (sqrt_2_over_pi : R) = sqrt (2 / PI).
Proof. unfold sqrt_2_over_pi; real_ops. now rewrite real_two. Qed.

Lemma real_rsqrt_or_one (x : R) :
  rsqrt_or_one x = if Rlt_dec 0 x then / sqrt x else 1.
Proof.
  unfold rsqrt_or_one. rewrite real_gt0, real_one.
  now destruct (Rlt_dec 0 x).
Qed.

Lemma real_bessel_0 (v : Q) (z : list R) :
  (v == 0)%Q -> _bessel_ive v z = Ok (map i0e z).
Proof.
  intros H. rewrite bessel_ive_order_0 by assumption.
  apply real_check_numerics.
Qed.

Lemma real_bessel_1 (v : Q) (z : list R) :
  (v == 1)%Q -> _bessel_ive v z = Ok (map i1e z).
Proof.
  intros H. rewrite bessel_ive_order_1 by assumption.
  apply real_check_numerics.
Qed.

Lemma real_bessel_half (v : Q) (z : list R) :
  (v == 1 # 2)%Q ->
  _bessel_ive v z
  = Ok (map (fun x => sqrt (2 / PI) * (sinh x * exp (- Rabs x))
                      * (if Rlt_dec 0 x then / sqrt x else 1)) z).
Proof.
  intros H. rewrite bessel_ive_order_half by assumption.
  unfold wrap. rewrite real_check_numerics.
  f_equal. apply map_ext; intros x.
  rewrite real_sqrt_2_over_pi, real_sinhe, real_rsqrt_or_one. reflexivity.
Qed.

Lemma real_bessel_minus_half (v : Q) (z : list R) :
  (v == - (1 # 2))%Q ->
  _bessel_ive v z
  = Ok (map (fun x => sqrt (2 / PI) * (cosh x * exp (- Rabs x))
                      * (if Rlt_dec 0 x then / sqrt x else 1)) z).
Proof.
  intros H. rewrite bessel_ive_order_minus_half by assumption.
  unfold wrap. rewrite real_check_numerics.
  f_equal. apply map_ext; intros x.
  rewrite real_sqrt_2_over_pi, real_coshe, real_rsqrt_or_one. reflexivity.
Qed.

(** C5, as amended.  At an entry [z <= 0] only the reciprocal square
    root of the half-integer orders is guarded (it is replaced by 1);
    the scaled hyperbolic functions and the kernels of orders 0 and 1 are
    evaluated at [z] itself.  So the evaluator returns
    [sqrt(2/pi) * sinh(z) * exp(-|z|)] (or the same with [cosh]),
    [i0e(z)] and [i1e(z)] there, and not its value at [z = 1]. *)
Theorem bessel_ive_nonpositive_entries (z : list R) :
  _bessel_ive 0 z = Ok (map i0e z) /\
  _bessel_ive 1 z = Ok (map i1e z) /\
  _bessel_ive (1 # 2) z
  = Ok (map (fun x => sqrt (2 / PI) * (sinh x * exp (- Rabs x))
                      * (if Rlt_dec 0 x then / sqrt x else 1)) z) /\
  _bessel_ive (- (1 # 2)) z
  = Ok (map (fun x => sqrt (2 / PI) * (cosh x * exp (- Rabs x))
                      * (if Rlt_dec 0 x then / sqrt x else 1)) z).
Proof.
  repeat split;
    [ apply real_bessel_0 | apply real_bessel_1
    | apply real_bessel_half | apply real_bessel_minus_half ]; reflexivity.
Qed.
End RealFacts.

Lemma sqrt_2_over_PI_pos : (0 < sqrt (2 / PI))%R.
Proof.
  apply sqrt_lt_R0. apply Rdiv_lt_0_compat; [lra | apply PI_RGT_0].
Qed.

Lemma sinh_1_pos : (0 < sinh 1)%R.
Proof. rewrite <- sinh_0. apply sinh_lt. lra. Qed.

(** C5, refuted as stated: at order 1/2 the entry [z = 0] gives 0, which
    is not the value at [z = 1]. *)
Lemma bessel_ive_nonpositive_counterexample :
  exists a b : R,
    (forall (i0e i1e lgam : R -> R) (tol : R),
        @_bessel_ive R (R_scalar i0e i1e lgam tol) (1 # 2) [0%R] = Ok [a] /\
        @_bessel_ive R (R_scalar i0e i1e lgam tol) (1 # 2) [1%R] = Ok [b]) /\
    (a < b)%R.
Proof.
  exists (sqrt (2 / PI) * (sinh 0 * exp (- Rabs 0)) * 1)%R,
         (sqrt (2 / PI) * (sinh 1 * exp (- Rabs 1)) * / sqrt 1)%R.
  split.
  - intros. rewrite !real_bessel_half by reflexivity. simpl.
    destruct (Rlt_dec 0 0) as [H|_]; [lra|].
    destruct (Rlt_dec 0 1) as [_|H]; [|lra].
    split; reflexivity.
  - rewrite sinh_0, sqrt_1.
    assert (H1 := sqrt_2_over_PI_pos). assert (H2 := sinh_1_pos).
    assert (H3 := exp_pos (- Rabs 1)).
    assert (0 < sqrt (2 / PI) * (sinh 1 * exp (- Rabs 1)))%R.
    { apply Rmult_lt_0_compat; [assumption|].
      now apply Rmult_lt_0_compat. }
    lra.
Qed.

(** ** The mean *)

Section MeanFacts.
Context {F : Type} {S : Scalar F}.
Open Scope scalar_scope.

Lemma where_all (k : F) (m : list F) :
  where_ (map (fun z0 => z0 <?. k) (zeros_like m)) m (zeros_like m)
  = if gt0 k then m else zeros_like m.
Proof.
  unfold zeros_like. rewrite map_map.
  rewrite <- (map_id m) at 2.
  rewrite (where_const (zero <?. k) m (fun x => x) (fun _ => zero)).
  now rewrite map_id.
Qed.

(** [_mean] once the two Bessel values are known as functions of the
    entries of [safe_conc]. *)
Lemma mean_from_values (d : VonMisesFisher F) (D : nat) (f1 f2 : F -> F) :
  event_shape_value d = Some D ->
  _bessel_ive (half D) (safe (concentration d))
  = Ok (map f1 (safe (concentration d))) ->
  _bessel_ive (half D - 1) (safe (concentration d))
  = Ok (map f2 (safe (concentration d))) ->
  _mean d
  = broadcast_with
      (fun k m =>
         if gt0 k then map (fun a => a *. (f1 k /. f2 k)) m
         else map (fun _ => zero) m)
      (concentration d) (mean_direction d).
Proof.
  intros HD H1 H2. unfold _mean. rewrite HD, H1, H2. cbn [bind].
  rewrite zip_with_map, safe_map, map_map, broadcast_with_twice.
  unfold broadcast_with.
  destruct (List.length (concentration d) =? List.length (mean_direction d))%nat.
  - f_equal. apply zip_with_ext; intros k m.
    rewrite where_all. unfold zeros_like. rewrite map_map.
    now destruct (gt0 k).
  - assert (Hf : forall k m,
               where_ (map (fun z0 => z0 <?. k)
                         (zeros_like (map (fun a => a *. (f1 (if gt0 k then k else one) /. f2 (if gt0 k then k else one))) m)))
                 (map (fun a => a *. (f1 (if gt0 k then k else one) /. f2 (if gt0 k then k else one))) m)
                 (zeros_like (map (fun a => a *. (f1 (if gt0 k then k else one) /. f2 (if gt0 k then k else one))) m))
               = (if gt0 k then map (fun a => a *. (f1 k /. f2 k)) m
                  else map (fun _ => zero) m)).
    { intros k m. rewrite where_all. unfold zeros_like. rewrite map_map.
      now destruct (gt0 k). }
    destruct (concentration d) as [|k [|k' ks]];
      destruct (mean_direction d) as [|m [|m' ms]]; try reflexivity;
      f_equal; apply map_ext; intros; apply Hf.
Qed.

Lemma mean_large_dimension (d : VonMisesFisher F) (D : nat) :
  event_shape_value d = Some D -> (4 <= D)%nat ->
  _mean d
  = Err (ValueError
           "Evaluating bessel_i by recurrence becomes imprecise for large v").
Proof.
  intros HD H. unfold _mean. rewrite HD.
  rewrite bessel_ive_large_order; [reflexivity|].
  unfold half. unfold Qle, Qdiv, Qmult, Qinv, inject_Z; simpl. lia.
Qed.
End MeanFacts.

Section RealMean.
Open Scope R_scope.
Variables (i0e i1e lgam : R -> R) (tol : R).

Local Hint Extern 0 (Scalar R) =>
  exact (R_scalar i0e i1e lgam tol) : typeclass_instances.

Lemma real_bessel_3half (v : Q) (z : list R) :
  (v == 3 # 2)%Q ->
  _bessel_ive v z
  = Ok (map (fun x =>
               sqrt (2 / PI) * (cosh x * exp (- Rabs x))
               * (if Rlt_dec 0 x then / sqrt x else 1)
               - 1 * (sqrt (2 / PI) * (sinh x * exp (- Rabs x))
                      * (if Rlt_dec 0 x then / sqrt x else 1)) / x) z).
Proof.
  intros H. rewrite bessel_ive_order_3half by assumption.
  unfold wrap. rewrite !real_check_numerics. cbn [bind].
  rewrite real_check_numerics. f_equal.
  rewrite map_map, (zip_with_map_l div), zip_with_same, zip_with_map.
  apply map_ext; intros x. real_ops.
  rewrite real_sqrt_2_over_pi, real_sinhe, real_coshe, real_rsqrt_or_one.
  replace (Q2R (2 * (v - 1))) with 1; [reflexivity|].
  rewrite <- RMicromega.Q2R_1. apply Qeq_eqR. lra.
Qed.

Lemma half_2 : (half 2 == 1)%Q.
Proof. reflexivity. Qed.

Lemma half_3 : (half 3 == 3 # 2)%Q.
Proof. reflexivity. Qed.

(** C2, as amended.  With the event size known statically, [mean()]
    returns [mu * (I_{D/2}(kappa) / I_{D/2-1}(kappa))] where [kappa > 0]
    and the zero vector elsewhere for [D = 2] and [D = 3], one row per
    member of the batch, [concentration] and [mean_direction] being
    broadcast against each other (sizes that do not broadcast raise);
    for [D = 4] and [D = 5] the order [D/2] is at least 2, the Bessel
    evaluator refuses it, and [mean()] raises the evaluator's
    [ValueError]. *)
Theorem mean_by_dimension (d : VonMisesFisher R) :
  static_shape d = true ->
  (event_dim d = 2%nat ->
   _mean d
   = broadcast_with
       (fun k m =>
          if Rlt_dec 0 k then map (fun a => a * (i1e k / i0e k)) m
          else map (fun _ => 0) m)
       (concentration d) (mean_direction d)) /\
  (event_dim d = 3%nat ->
   _mean d
   = broadcast_with
       (fun k m =>
          if Rlt_dec 0 k
          then map (fun a => a * (Ive_3half k / Ive_half k)) m
          else map (fun _ => 0) m)
       (concentration d) (mean_direction d)) /\
  (event_dim d = 4%nat \/ event_dim d = 5%nat ->
   _mean d
   = Err (ValueError
            "Evaluating bessel_i by recurrence becomes imprecise for large v")).
Proof.
  intros Hs.
  assert (HD : event_shape_value d = Some (event_dim d)).
  { unfold event_shape_value, static_event_dim. now rewrite Hs. }
  repeat split.
  - intros H2. rewrite H2 in HD.
    rewrite (mean_from_values d i1e i0e HD).
    + apply broadcast_with_ext; intros k m.
      rewrite real_gt0, real_zero. now destruct (Rlt_dec 0 k).
    + apply real_bessel_1. reflexivity.
    + apply real_bessel_0. reflexivity.
  - intros H3. rewrite H3 in HD.
    erewrite (mean_from_values d _ _ HD).
    2:{ apply real_bessel_3half. reflexivity. }
    2:{ apply real_bessel_half. reflexivity. }
    apply broadcast_with_ext; intros k m.
    rewrite real_gt0, real_zero. destruct (Rlt_dec 0 k) as [Hk|Hk]; [|reflexivity].
    apply map_ext; intros a. real_ops.
    unfold Ive_3half, Ive_minus_half, Ive_half.
    apply f_equal, f_equal2; [|reflexivity].
    assert (0 < sqrt k) by now apply sqrt_lt_R0.
    field. lra.
  - intros H. apply (mean_large_dimension d HD). lia.
Qed.
End RealMean.

(** C2, refuted as stated: in four dimensions [mean()] raises. *)
Lemma mean_4d_counterexample :
  exists e : error,
    event_dim vmf_4d = 4%nat /\
    forall (i0e i1e lgam : R -> R) (tol : R),
      @_mean R (R_scalar i0e i1e lgam tol) vmf_4d = Err e.
Proof.
  eexists; split; [reflexivity|]. intros.
  apply (mean_large_dimension (S := R_scalar i0e i1e lgam tol) vmf_4d
           (D := 4)); [reflexivity | lia].
Qed.

Lemma mean_by_dimension_witness :
  static_shape vmf_4d = true /\
  @_mean R (R_scalar (fun _ => 0%R) (fun _ => 0%R) (fun _ => 0%R) 0%R) vmf_4d
  = Err (ValueError
           "Evaluating bessel_i by recurrence becomes imprecise for large v").
Proof.
  split; [reflexivity|].
  apply (mean_by_dimension (fun _ => 0%R) (fun _ => 0%R) (fun _ => 0%R) 0%R
           vmf_4d); [reflexivity|].
  left; reflexivity.
Defined.

(** ** Construction *)

Section InitFacts.
Context {F : Type} {S : Scalar F}.

Lemma run_assertions_fails (l : list (bool * string)) (msg : string) :
  In (false, msg) l -> exists e, run_assertions l = Err e.
Proof.
  intros H. unfold run_assertions.
  destruct (find (fun a => negb (fst a)) l) as [[b m]|] eqn:E.
  - eexists; reflexivity.
  - apply (find_none _ _ E) in H. discriminate.
Qed.

(** C4, as amended.  An event size above 5 is refused whenever it is
    known statically, with validation on or off, and otherwise only by the
    assertion that validation adds; an event size below 2 is refused only
    when validation is on. *)
Theorem init_unsupported_event_size (t : float_dtype) (D : nat)
    (static : bool) (m : list (list F)) (k : list F)
    (validate nan_ok : bool) :
  ((5 < D)%nat /\ (static = true \/ validate = true)) \/
  ((D < 2)%nat /\ validate = true) ->
  exists e,
    VonMisesFisher_init t D static m k validate nan_ok = Err e /\
    ((5 < D)%nat -> static = true ->
     e = ValueError "vMF ndims > 5 is not currently supported").
Proof.
  intros H. unfold VonMisesFisher_init, static_event_dim.
  destruct H as [[H5 Hsv] | [H2 Hv]].
  - destruct static.
    + apply Nat.ltb_lt in H5. rewrite H5. cbn [bind].
      eexists; split; [reflexivity | reflexivity].
    + destruct Hsv as [Hs|Hv]; [discriminate|]. subst validate. cbn [bind].
      destruct (run_assertions_fails
                  ([(forallb (fun k0 => leb zero k0) k,
                     "`concentration` must be non-negative"%string);
                    ((1 <? D)%nat,
                     "`mean_direction` may not have scalar event shape"%string);
                    (forallb (fun m0 => near near_tol near_tol one (norm m0)) m,
                     "`mean_direction` must be unit-length"%string)] ++
                   [((D <=? 5)%nat,
                     "vMF ndims > 5 is not currently supported"%string)])
                  "vMF ndims > 5 is not currently supported") as [e He].
      { apply in_or_app; right; left.
        f_equal. apply Nat.leb_gt. exact H5. }
      rewrite He. cbn [bind]. eexists; split; [reflexivity|].
      intros _ [=].
  - subst validate.
    assert (H1 : (1 <? D)%nat = false) by (apply Nat.ltb_ge; lia).
    assert (H5 : (5 <? D)%nat = false) by (apply Nat.ltb_ge; lia).
    destruct static; rewrite ?H5; cbn [bind].
    + destruct (run_assertions_fails
                  [(forallb (fun k0 => leb zero k0) k,
                     "`concentration` must be non-negative"%string);
                    ((1 <? D)%nat,
                     "`mean_direction` may not have scalar event shape"%string);
                    (forallb (fun m0 => near near_tol near_tol one (norm m0)) m,
                     "`mean_direction` must be unit-length"%string)]
                  "`mean_direction` may not have scalar event shape")
        as [e He].
      { right; left. now rewrite H1. }
      rewrite He. cbn [bind]. eexists; split; [reflexivity|]. lia.
    + destruct (run_assertions_fails
                  ([(forallb (fun k0 => leb zero k0) k,
                     "`concentration` must be non-negative"%string);
                    ((1 <? D)%nat,
                     "`mean_direction` may not have scalar event shape"%string);
                    (forallb (fun m0 => near near_tol near_tol one (norm m0)) m,
                     "`mean_direction` must be unit-length"%string)] ++
                   [((D <=? 5)%nat,
                     "vMF ndims > 5 is not currently supported"%string)])
                  "`mean_direction` may not have scalar event shape")
        as [e He].
      { apply in_or_app; left; right; left. now rewrite H1. }
      rewrite He. cbn [bind]. eexists; split; [reflexivity|]. lia.
Qed.
End InitFacts.

(** C4, refuted as stated: with validation off, a one-dimensional mean
    direction is accepted. *)
Lemma init_1d_counterexample :
  exists d : VonMisesFisher R,
    event_dim d = 1%nat /\
    forall (i0e i1e lgam : R -> R) (tol : R),
      @VonMisesFisher_init R (R_scalar i0e i1e lgam tol)
        float32 1 true [[1%R]] [1%R] false true = Ok d.
Proof.
  eexists; split; [|intros; reflexivity]. reflexivity.
Qed.

Lemma init_unsupported_event_size_witness :
  exists e,
    @VonMisesFisher_init R
      (R_scalar (fun _ => 0%R) (fun _ => 0%R) (fun _ => 0%R) 0%R)
      float32 6 true [[1; 0; 0; 0; 0; 0]%R] [1%R] false true = Err e /\
    ((5 < 6)%nat -> true = true ->
     e = ValueError "vMF ndims > 5 is not currently supported").
Proof.
  apply (init_unsupported_event_size
           (S := R_scalar (fun _ => 0%R) (fun _ => 0%R) (fun _ => 0%R) 0%R)).
  left; split; [lia | left; reflexivity].
Defined.

(** ** Values that are not finite *)

Section ExtendedFacts.
Variables (i0e i1e lgam : R -> R) (tol : R).

Local Hint Extern 0 (Scalar xreal) =>
  exact (X_scalar i0e i1e lgam tol) : typeclass_instances.

Lemma xmul_nan_r (x : xreal) : xmul x NaN = NaN.
Proof. now destruct x. Qed.

Lemma x_gt0_inf : gt0 PInf = true.
Proof. reflexivity. Qed.

Lemma x_safe_inf (l : list xreal) :
  safe (l ++ [PInf]) = safe l ++ [PInf].
Proof.
  rewrite !safe_map, map_app. reflexivity.
Qed.

Lemma x_coshe_inf : coshe PInf = NaN.
Proof. reflexivity. Qed.

Lemma x_sinhe_inf : sinhe PInf = NaN.
Proof. reflexivity. Qed.

Lemma x_all_finite_app (l l' : list xreal) :
  all_finite (l ++ l') = all_finite l && all_finite l'.
Proof. apply forallb_app. Qed.

(** At an infinite argument both half-integer base cases are NaN, and
    the evaluator raises. *)
Lemma x_bessel_half_inf (v : Q) (l : list xreal) :
  (v == 1 # 2)%Q ->
  _bessel_ive v (l ++ [PInf]) = Err (CheckNumericsError (besseli v)).
Proof.
  intros H. rewrite bessel_ive_order_half by assumption.
  apply check_numerics_not_finite.
  rewrite map_app, x_all_finite_app. cbn [map].
  change (sinhe PInf) with NaN.
  change (sqrt_2_over_pi *. NaN)%sc with (xmul sqrt_2_over_pi NaN).
  rewrite xmul_nan_r. apply andb_false_r.
Qed.

Lemma x_bessel_3half_inf (v : Q) (l : list xreal) :
  (v == 3 # 2)%Q ->
  _bessel_ive v (l ++ [PInf]) = Err (CheckNumericsError (besseli (v - 2))).
Proof.
  intros H. rewrite bessel_ive_order_3half by assumption.
  unfold wrap at 1. rewrite check_numerics_not_finite; [reflexivity|].
  rewrite map_app, x_all_finite_app. cbn [map].
  change (coshe PInf) with NaN.
  change (sqrt_2_over_pi *. NaN)%sc with (xmul sqrt_2_over_pi NaN).
  rewrite xmul_nan_r. apply andb_false_r.
Qed.
End ExtendedFacts.


(** ** The numerics checks of the samplers *)

Section SamplerChecks.
Context {F : Type} {S : Scalar F}.
Variable G : Type.
Variable hash : Z -> nat -> string -> Z.
Variable next_state : G -> G.
Variable uniform_at : source G -> nat -> nat -> F.
Variable normal_at : source G -> nat -> nat -> nat -> F.
Variable beta_at : F -> F -> source G -> nat -> nat -> F.

Lemma random_op_done (k : draw_kind) (seed : option Z) (run : nat)
    (r : rng G) :
  exists src r', random_op next_state k seed run r = Done src r'.
Proof.
  unfold random_op. destruct seed; eexists; eexists; reflexivity.
Qed.

(** The loop body keeps a candidate [w] only after [tf.check_numerics]:
    no flag is consulted. *)
Lemma body_fn_finite (d : VonMisesFisher F) (D n : nat) (s1 s2 : option Z)
    (st : loop_state) (r r' : rng G) (w : list (list F))
    (sc : list (list bool)) (run : nat) :
  body_fn next_state uniform_at beta_at d D n s1 s2 st r
  = Done (w, sc, run) r' ->
  forallb all_finite w = true.
Proof.
  unfold body_fn. destruct st as [[w0 sc0] run0].
  unfold beta_sample, bindR at 1 2.
  destruct (random_op_done Beta s1 run0 r) as (src & r1 & ->).
  unfold ret at 1.
  unfold bindR at 1. unfold lift, check_numerics2.
  match goal with |- context [forallb all_finite ?t] =>
    destruct (forallb all_finite t) eqn:E end; [|discriminate].
  unfold random_uniform, bindR.
  destruct (random_op_done Uniform s2 run0 r1) as (src2 & r2 & ->).
  unfold ret. intros [= <- _ _ _]. exact E.
Qed.

(** With [allow_nan_stats] true the 3-D sampler makes no check. *)
Lemma sample_3d_never_raises (d : VonMisesFisher F) (n : nat)
    (seed : option Z) (r : rng G) :
  allow_nan_stats d = true ->
  exists u r', _sample_3d hash next_state uniform_at d n seed r = Done u r'.
Proof.
  intros H. unfold _sample_3d. rewrite H.
  destruct seed; eexists; eexists; reflexivity.
Qed.

End SamplerChecks.

(** ** The log-density *)

Section LogProbFacts.
Context {F : Type} {S : Scalar F}.
Open Scope scalar_scope.

(** Validation returns the samples it was given. *)
Lemma maybe_assert_valid_sample_ok (d : VonMisesFisher F)
    (x x' : list (list F)) :
  _maybe_assert_valid_sample d x = Ok x' -> x' = x.
Proof.
  unfold _maybe_assert_valid_sample.
  destruct (negb (validate_args d)); [now intros [= <-]|].
  destruct (run_assertions _); [|discriminate]. now intros [= <-].
Qed.

Lemma zip_with_const_r {A B C : Type} (g : A -> C) (l : list A)
    (l' : list B) :
  List.length l = List.length l' ->
  zip_with (fun a _ => g a) l l' = map g l.
Proof.
  revert l'; induction l as [|a l IH]; intros [|b l']; cbn; try easy.
  intros [= H]. now rewrite IH.
Qed.

(** Parameters at one batch size: the mode is the mean direction, one
    row per batch member. *)
Lemma bcast_mean_dir_same (d : VonMisesFisher F) :
  List.length (mean_direction d) = List.length (concentration d) ->
  bcast_mean_dir d
  = Ok (map (map (fun a => a +. zero)) (mean_direction d)).
Proof.
  intros H. unfold bcast_mean_dir, zeros_like.
  rewrite broadcast_with_same by now rewrite length_map.
  f_equal. rewrite zip_with_map_r. now apply zip_with_const_r.
Qed.

(** Two tensors of one shape multiply entry by entry. *)
Lemma mul2_same (x y : list (list F)) :
  Forall2 (fun a b => List.length a = List.length b) x y ->
  mul2 x y = Ok (zip_with (zip_with mul) x y).
Proof.
  intros H. unfold mul2.
  rewrite broadcast_with_same by exact (Forall2_length H). cbn [bind].
  induction H as [|a b x y Hab _ IH]; [reflexivity|].
  cbn [zip_with all_ok]. rewrite broadcast_with_same by exact Hab.
  cbn [bind]. now rewrite IH.
Qed.

Lemma Forall2_same_length (D : nat) (x y : list (list F)) :
  List.length x = List.length y ->
  Forall (fun a => List.length a = D) x ->
  Forall (fun b => List.length b = D) y ->
  Forall2 (fun a b => List.length a = List.length b) x y.
Proof.
  revert y. induction x as [|a x IH]; intros [|b y]; try discriminate.
  - constructor.
  - intros [= Hl] Hx Hy. inversion Hx; inversion Hy; subst.
    constructor; [congruence | now apply IH].
Qed.

(** The unnormalized log-density with the samples and the parameters at
    one batch size, every row with the event size. *)
Lemma log_unnormalized_same (d : VonMisesFisher F) (x : list (list F)) :
  _maybe_assert_valid_sample d x = Ok x ->
  List.length (mean_direction d) = List.length (concentration d) ->
  List.length x = List.length (concentration d) ->
  Forall (fun m => List.length m = event_dim d) (mean_direction d) ->
  Forall (fun xi => List.length xi = event_dim d) x ->
  _log_unnormalized_prob d x
  = Ok (zip_with mul (concentration d)
          (zip_with dot x
             (map (map (fun a => a +. zero)) (mean_direction d)))).
Proof.
  intros Hx Hm Hl Hmr Hxr. unfold _log_unnormalized_prob.
  rewrite Hx. cbn [bind]. rewrite bcast_mean_dir_same by exact Hm.
  cbn [bind]. rewrite mul2_same.
  2:{ apply Forall2_same_length with (D := event_dim d).
      - rewrite length_map. congruence.
      - exact Hxr.
      - apply Forall_map. revert Hmr. apply Forall_impl. intros m Hm'.
        now rewrite length_map. }
  cbn [bind].
  rewrite broadcast_with_same.
  2:{ rewrite length_map, zip_with_length, length_map. lia. }
  f_equal. f_equal.
  generalize (map (map (fun a => a +. zero)) (mean_direction d)).
  clear. induction x as [|a x IH]; intros [|b y]; cbn; try reflexivity.
  now rewrite IH.
Qed.

Lemma log_normalization_from_values (d : VonMisesFisher F) (D : nat)
    (f : F -> F) :
  event_shape_value d = Some D ->
  _bessel_ive (half D - 1) (safe (concentration d))
  = Ok (map f (safe (concentration d))) ->
  _log_normalization d
  = Ok (map (fun k =>
               if gt0 k
               then neg (of_Q (half D - 1) *. logf k
                         -. of_Q (half D) *. logf (two *. pi)
                         -. logf (f k) -. absf k)
               else (logf two +. of_Q (half D) *. logf pi
                     -. lgamma (of_Q (half D))) *. one)
          (concentration d)).
Proof.
  intros HD H. unfold _log_normalization. rewrite HD, H. cbn [bind]. f_equal.
  rewrite map_map, !zip_with_map. unfold ones_like. rewrite !map_map.
  rewrite safe_map, !map_map, where_map.
  apply map_ext; intros k. destruct (gt0 k); reflexivity.
Qed.

Lemma log_prob_from_parts (d : VonMisesFisher F) (x : list (list F))
    (norms : list F) :
  _maybe_assert_valid_sample d x = Ok x ->
  List.length (mean_direction d) = List.length (concentration d) ->
  List.length x = List.length (concentration d) ->
  Forall (fun m => List.length m = event_dim d) (mean_direction d) ->
  Forall (fun xi => List.length xi = event_dim d) x ->
  _log_normalization d = Ok norms ->
  List.length norms = List.length (concentration d) ->
  _log_prob d x
  = Ok (zip_with sub
          (zip_with mul (concentration d)
             (zip_with dot x
                (map (map (fun a => a +. zero)) (mean_direction d))))
          norms).
Proof.
  intros Hx Hm Hl Hmr Hxr Hn Hnl. unfold _log_prob. rewrite Hx. cbn [bind].
  rewrite log_unnormalized_same by assumption. cbn [bind].
  rewrite Hn. cbn [bind]. apply broadcast_with_same.
  rewrite !zip_with_length, length_map. lia.
Qed.

(** One entry of [_log_prob], at one batch size. *)
Lemma log_prob_nth (d : VonMisesFisher F) (x : list (list F)) (norms : list F)
    (i : nat) (k nrm : F) (m xi : list F) :
  _maybe_assert_valid_sample d x = Ok x ->
  List.length (mean_direction d) = List.length (concentration d) ->
  List.length x = List.length (concentration d) ->
  Forall (fun m => List.length m = event_dim d) (mean_direction d) ->
  Forall (fun xi => List.length xi = event_dim d) x ->
  _log_normalization d = Ok norms ->
  List.length norms = List.length (concentration d) ->
  nth_error (concentration d) i = Some k ->
  nth_error (mean_direction d) i = Some m ->
  nth_error x i = Some xi ->
  nth_error norms i = Some nrm ->
  exists lp,
    _log_prob d x = Ok lp /\
    nth_error lp i
    = Some (k *. dot xi (map (fun a => a +. zero) m) -. nrm).
Proof.
  intros Hx Hml Hl Hmr Hxr Hn Hnl Hk Hm Hxi Hnrm.
  eexists; split;
    [exact (@log_prob_from_parts d x norms Hx Hml Hl Hmr Hxr Hn Hnl)|].
  apply zip_with_nth_error; [|assumption].
  apply zip_with_nth_error; [assumption|].
  apply zip_with_nth_error; [assumption|].
  now apply map_nth_error.
Qed.

(** One entry of [_log_prob], whatever broadcasts: the concentration,
    the sample, the mean direction and the normalization of the batch
    member, and their row product. *)
Lemma log_prob_entry (d : VonMisesFisher F) (x : list (list F))
    (lp : list F) (i : nat) (a : F) :
  _log_prob d x = Ok lp ->
  nth_error lp i = Some a ->
  exists k xi m nrm norms p,
    bcast_nth (concentration d) i = Some k /\
    bcast_nth x i = Some xi /\
    bcast_nth (mean_direction d) i = Some m /\
    _log_normalization d = Ok norms /\
    bcast_nth norms i = Some nrm /\
    broadcast_with mul xi (map (fun c => c +. zero) m) = Ok p /\
    a = k *. reduce_sum p -. nrm.
Proof.
  unfold _log_prob. intros H Hi.
  destruct (_maybe_assert_valid_sample d x) as [x'|] eqn:E; [|discriminate].
  pose proof (maybe_assert_valid_sample_ok _ _ E) as ->.
  cbn [bind] in H. unfold _log_unnormalized_prob in H.
  rewrite E in H. cbn [bind] in H.
  destruct (bcast_mean_dir d) as [bmd|] eqn:Eb; [|discriminate].
  cbn [bind] in H.
  destruct (mul2 x bmd) as [prod|] eqn:Ep; [|discriminate].
  cbn [bind] in H.
  destruct (broadcast_with mul (concentration d) (map reduce_sum prod))
    as [un|] eqn:Eu; [|discriminate].
  cbn [bind] in H.
  destruct (_log_normalization d) as [norms|] eqn:En; [|discriminate].
  cbn [bind] in H.
  apply nth_error_bcast_nth in Hi.
  destruct (broadcast_with_bcast_nth _ _ _ _ H Hi) as (u & nrm & Hu & Hn & ->).
  destruct (broadcast_with_bcast_nth _ _ _ _ Eu Hu) as (k & s & Hk & Hs & ->).
  rewrite bcast_nth_map in Hs.
  destruct (bcast_nth prod i) as [p|] eqn:Hp; [|discriminate].
  injection Hs as <-.
  unfold mul2 in Ep.
  destruct (broadcast_with (broadcast_with mul) x bmd) as [rows|] eqn:Er;
    [|discriminate].
  cbn [bind] in Ep. apply all_ok_inv in Ep. subst rows.
  assert (Hr : bcast_nth (map (@Ok (list F)) prod) i = Some (Ok p))
    by (now rewrite bcast_nth_map, Hp).
  destruct (broadcast_with_bcast_nth _ _ _ _ Er Hr)
    as (xi & mb & Hxi & Hmb & Hprod).
  unfold bcast_mean_dir in Eb.
  destruct (broadcast_with_bcast_nth _ _ _ _ Eb Hmb)
    as (m & z0 & Hm & Hz & ->).
  unfold zeros_like in Hz. rewrite bcast_nth_map in Hz.
  destruct (bcast_nth (concentration d) i); [|discriminate].
  injection Hz as <-.
  exists k, xi, m, nrm, norms, p. repeat split; auto.
Qed.
End LogProbFacts.

Section RealLogProb.
Open Scope R_scope.
Variables (i0e i1e lgam : R -> R) (tol : R).

Local Hint Extern 0 (Scalar R) =>
  exact (R_scalar i0e i1e lgam tol) : typeclass_instances.

Lemma Q2R_half (D : nat) : Q2R (half D) = INR D / 2.
Proof.
  unfold half. rewrite Q2R_div by (intros H; discriminate H).
  rewrite INR_IZR_INZ. unfold Q2R; simpl. field.
Qed.

(** Over the reals the evaluator succeeds at every order [D/2 - 1] the
    supported dimensions need. *)
Lemma real_bessel_supported (D : nat) :
  (2 <= D <= 5)%nat ->
  exists f : R -> R,
    forall z : list R, _bessel_ive (half D - 1) z = Ok (map f z).
Proof.
  intros H.
  assert (HD : D = 2%nat \/ D = 3%nat \/ D = 4%nat \/ D = 5%nat) by lia.
  destruct HD as [-> | [-> | [-> | ->]]]; eexists; intros z.
  - apply real_bessel_0. reflexivity.
  - apply real_bessel_half. reflexivity.
  - apply real_bessel_1. reflexivity.
  - apply real_bessel_3half. reflexivity.
Qed.

(** At a zero concentration the log-density is the negated log-area of
    the sphere, written with the log-gamma kernel. *)
Lemma log_prob_zero_concentration_lgamma (d : VonMisesFisher R)
    (x : list (list R)) (i : nat) (m xi : list R) :
  static_shape d = true ->
  (2 <= event_dim d <= 5)%nat ->
  _maybe_assert_valid_sample d x = Ok x ->
  List.length (mean_direction d) = List.length (concentration d) ->
  List.length x = List.length (concentration d) ->
  Forall (fun m => List.length m = event_dim d) (mean_direction d) ->
  Forall (fun xi => List.length xi = event_dim d) x ->
  nth_error (concentration d) i = Some 0 ->
  nth_error (mean_direction d) i = Some m ->
  nth_error x i = Some xi ->
  exists lp,
    _log_prob d x = Ok lp /\
    nth_error lp i
    = Some (- (ln 2 + INR (event_dim d) / 2 * ln PI
               - lgam (INR (event_dim d) / 2))).
Proof.
  intros Hs HD Hx Hml Hxl Hmr Hxr Hk Hm Hxi.
  assert (HE : event_shape_value d = Some (event_dim d)).
  { unfold event_shape_value, static_event_dim. now rewrite Hs. }
  destruct (real_bessel_supported HD) as [f Hf].
  pose proof (log_normalization_from_values d f HE (Hf _)) as Hn.
  destruct (@log_prob_nth R _ d x _ i 0 _ m xi Hx Hml Hxl Hmr Hxr Hn
              (length_map _ _) Hk Hm Hxi
              (map_nth_error _ _ _ Hk)) as (lp & Hlp & Hi).
  exists lp; split; [exact Hlp|]. rewrite Hi. f_equal.
  rewrite real_gt0. destruct (Rlt_dec 0 0) as [H0|_]; [lra|].
  real_ops. rewrite real_two, real_one, Q2R_half. lra.
Qed.
End RealLogProb.

Section UniformLimit.
Open Scope R_scope.
Variables (i0e i1e lgam : R -> R) (tol : R).

(** The gamma function, of which [tf.lgamma] is the logarithm. *)
Variable Gamma : R -> R.
Hypothesis Gamma_pos : forall y, 0 < y -> 0 < Gamma y.
Hypothesis lgam_Gamma : forall y, 0 < y -> lgam y = ln (Gamma y).

Local Hint Extern 0 (Scalar R) =>
  exact (R_scalar i0e i1e lgam tol) : typeclass_instances.

Lemma ln_sphere_area (y : R) :
  0 < y ->
  ln (2 * Rpower PI y / Gamma y) = ln 2 + y * ln PI - lgam y.
Proof.
  intros Hy. pose proof (Gamma_pos Hy) as HG.
  assert (0 < Rpower PI y) by apply exp_pos.
  assert (H2P : 0 < 2 * Rpower PI y) by (apply Rmult_lt_0_compat; lra).
  assert (HiG : 0 < / Gamma y) by now apply Rinv_0_lt_compat.
  unfold Rdiv. rewrite (ln_mult _ _ H2P HiG).
  rewrite (ln_mult 2 _ ltac:(lra) H), (ln_Rinv _ HG).
  unfold Rpower. rewrite ln_exp, lgam_Gamma by assumption. lra.
Qed.

(** C6, as amended.  For [2 <= D <= 5], at every batch element where
    [kappa = 0], [logProb(x)] is the same for every [x] that passes
    validation and equals [-log(2 pi^{D/2} / Gamma(D/2))], computed with
    the log-gamma kernel.  The Bessel evaluator is invoked all the same,
    on the batch with the entries [kappa <= 0] replaced by 1, and its
    value is dropped where [kappa = 0]; over the reals that call always
    passes its finiteness check.  The samples and the parameters are at
    one batch size, and every sample and every mean direction has [D]
    coordinates (other shapes broadcast or raise). *)
Theorem log_prob_zero_concentration (d : VonMisesFisher R)
    (x : list (list R)) (i : nat) (m xi : list R) :
  static_shape d = true ->
  (2 <= event_dim d <= 5)%nat ->
  _maybe_assert_valid_sample d x = Ok x ->
  List.length (mean_direction d) = List.length (concentration d) ->
  List.length x = List.length (concentration d) ->
  Forall (fun m => List.length m = event_dim d) (mean_direction d) ->
  Forall (fun xi => List.length xi = event_dim d) x ->
  nth_error (concentration d) i = Some 0 ->
  nth_error (mean_direction d) i = Some m ->
  nth_error x i = Some xi ->
  exists lp,
    _log_prob d x = Ok lp /\
    nth_error lp i
    = Some (- ln (2 * Rpower PI (INR (event_dim d) / 2)
                  / Gamma (INR (event_dim d) / 2))).
Proof.
  intros Hs HD Hx Hml Hxl Hmr Hxr Hk Hm Hxi.
  destruct (@log_prob_zero_concentration_lgamma i0e i1e lgam tol d x i m xi
              Hs HD Hx Hml Hxl Hmr Hxr Hk Hm Hxi) as (lp & Hlp & Hi).
  exists lp; split; [exact Hlp|]. rewrite Hi. f_equal. f_equal.
  symmetry. apply ln_sphere_area.
  assert (2 <= INR (event_dim d)).
  { change 2 with (INR 2). apply le_INR. lia. }
  lra.
Qed.
End UniformLimit.

Lemma log_prob_zero_concentration_witness :
  exists lp,
    @_log_prob R (R_scalar (fun _ => 0%R) (fun _ => 0%R) (fun _ => ln 1) 0%R)
      (vmf 3 [[0; 1; 0]%R] [0%R] false true) [[1; 0; 0]%R] = Ok lp /\
    nth_error lp 0
    = Some (- ln (2 * Rpower PI (INR 3 / 2) / 1))%R.
Proof.
  apply (@log_prob_zero_concentration
           (fun _ => 0%R) (fun _ => 0%R) (fun _ => ln 1) 0%R
           (fun _ => 1%R)
           (fun _ _ => Rlt_0_1) (fun _ _ => eq_refl)
           (vmf 3 [[0; 1; 0]%R] [0%R] false true) [[1; 0; 0]%R] 0%nat
           [0; 1; 0]%R [1; 0; 0]%R);
    try reflexivity; repeat constructor.
Defined.

(** C6, refuted as stated: the Bessel evaluator is called on the whole
    batch, so beside an infinite concentration the entry with
    [kappa = 0] gets no log-density: the call raises. *)
Lemma log_prob_zero_concentration_counterexample :
  nth_error (concentration vmf_zero_inf) 0 = Some (Fin 0) /\
  forall (i0e i1e lgam : R -> R) (tol : R),
    @_log_prob xreal (X_scalar i0e i1e lgam tol) vmf_zero_inf
      [[Fin 1; Fin 0; Fin 0]; [Fin 1; Fin 0; Fin 0]]
    = Err (CheckNumericsError (besseli (1 # 2))).
Proof.
  split; [reflexivity|]. intros. unfold _log_prob.
  change (_maybe_assert_valid_sample vmf_zero_inf ?x) with (Ok x).
  cbn [bind]. unfold _log_unnormalized_prob.
  change (_maybe_assert_valid_sample vmf_zero_inf ?x) with (Ok x).
  cbn [bind]. unfold _log_normalization.
  change (event_shape_value vmf_zero_inf) with (Some 3%nat). cbv iota beta.
  change (concentration vmf_zero_inf) with ([Fin 0] ++ [PInf]).
  rewrite x_safe_inf, x_bessel_half_inf by reflexivity. reflexivity.
Qed.

(** ** The scenario of the class docstring *)

Section Scenario.
Open Scope R_scope.
Variables (i0e i1e lgam : R -> R) (tol : R).

Local Hint Extern 0 (Scalar R) =>
  exact (R_scalar i0e i1e lgam tol) : typeclass_instances.

Lemma scenario_unnormalized :
  _log_unnormalized_prob vmf_example [[1; 0; 0]] = Ok [0].
Proof.
  rewrite log_unnormalized_same
    by (try reflexivity; repeat constructor).
  cbn [vmf_example vmf concentration mean_direction zeros_like
       zip_with map dot reduce_sum fold_right].
  do 2 f_equal. real_ops. rewrite real_zero. lra.
Qed.

Lemma scenario_bessel_value :
  sqrt (2 / PI) * (sinh 1 * exp (- Rabs 1)) * / sqrt 1
  = I_half_1 * exp (- 1).
Proof.
  rewrite sqrt_1, Rabs_R1. unfold I_half_1. rewrite Rmult_1_r.
  replace (exp (-1)) with (exp (- (1))) by (f_equal; lra).
  rewrite Rinv_1. ring.
Qed.

Lemma scenario_normalization :
  _log_normalization vmf_example = Ok [- scenario_bracket].
Proof.
  erewrite (@log_normalization_from_values R _ vmf_example 3).
  2: reflexivity.
  2: apply real_bessel_half; reflexivity.
  cbn [vmf_example vmf concentration map].
  rewrite real_gt0. destruct (Rlt_dec 0 1) as [_|H]; [|lra].
  do 3 f_equal. real_ops.
  rewrite scenario_bessel_value, real_two, Rabs_R1, Q2R_half.
  replace (Q2R (half 3 - 1)) with (1 / 2).
  2:{ unfold Q2R; simpl. lra. }
  unfold scenario_bracket. simpl INR. lra.
Qed.

(** C1, as amended.  The unnormalized term is 0 and [_log_normalization]
    returns the negated bracket, so [logProb([1,0,0])] is the bracket
    [(0.5) log 1 - 1.5 log(2 pi) - log(I_{1/2}(1) e^{-1}) - 1] itself,
    about [-2.69], with [I_{1/2}(1) = sqrt(2/pi) sinh 1] (real
    arithmetic; the rounding of the dtype is not modelled). *)
Theorem scenario_log_prob :
  _log_unnormalized_prob vmf_example [[1; 0; 0]] = Ok [0] /\
  _log_normalization vmf_example = Ok [- scenario_bracket] /\
  _log_prob vmf_example [[1; 0; 0]] = Ok [scenario_bracket].
Proof.
  split; [apply scenario_unnormalized|].
  split; [apply scenario_normalization|].
  unfold _log_prob.
  change (_maybe_assert_valid_sample vmf_example ?x) with (Ok x).
  cbn [bind]. rewrite scenario_unnormalized, scenario_normalization.
  cbn [bind]. unfold broadcast_with. cbn [List.length Nat.eqb zip_with].
  do 2 f_equal. real_ops. lra.
Qed.
End Scenario.

Lemma exp_1_gt_2 : (2 < exp 1)%R.
Proof. pose proof (exp_ineq1 1 ltac:(lra)). lra. Qed.

Lemma I_half_1_lower : (/ 4 < I_half_1)%R.
Proof.
  unfold I_half_1. rewrite Rmult_1_r.
  assert (H1 : (/ 2 <= sqrt (2 / PI))%R).
  { replace (/ 2)%R with (sqrt (/ 4)).
    - apply sqrt_le_1_alt.
      pose proof PI_4. pose proof PI_RGT_0.
      apply Rmult_le_reg_r with (r := (4 * PI)%R); [lra|].
      field_simplify; lra.
    - replace (/ 4)%R with (/ 2 * / 2)%R by lra.
      apply sqrt_square. lra. }
  assert (H2 : (3 / 4 < sinh 1)%R).
  { unfold sinh. pose proof exp_1_gt_2.
    assert (exp (- (1)) < / 2)%R.
    { rewrite exp_Ropp. apply Rinv_lt_contravar; lra. }
    lra. }
  nra.
Qed.

Lemma scenario_bracket_negative : (scenario_bracket < 0)%R.
Proof.
  unfold scenario_bracket.
  pose proof I_half_1_lower as HI.
  assert (HI0 : (0 < I_half_1)%R) by lra.
  rewrite (ln_mult _ _ HI0 (exp_pos _)).
  replace (exp (-1)) with (exp (- (1))) by (f_equal; lra).
  rewrite ln_exp, ln_1.
  assert (Hln4 : (0 < ln 4)%R).
  { rewrite <- ln_1. apply ln_increasing; lra. }
  assert (H1 : (- ln 4 < ln I_half_1)%R).
  { rewrite <- ln_Rinv by lra. apply ln_increasing; lra. }
  assert (H2 : (ln 4 < ln (2 * PI))%R).
  { apply ln_increasing; [lra|]. pose proof PI2_1. lra. }
  lra.
Qed.

(** C1, refuted as stated: the value is the bracket, which is negative,
    and not its negation. *)
Lemma scenario_log_prob_counterexample :
  exists y : R,
    (forall (i0e i1e lgam : R -> R) (tol : R),
        @_log_prob R (R_scalar i0e i1e lgam tol) vmf_example
          [[1; 0; 0]%R] = Ok [y]) /\
    y = scenario_bracket /\
    (y < - scenario_bracket)%R.
Proof.
  exists scenario_bracket. split; [|split; [reflexivity|]].
  - intros. apply scenario_log_prob.
  - pose proof scenario_bracket_negative. lra.
Qed.

(** ** The 3-D inversion sampler *)

Section Sample3dFacts.
Context {F : Type} {S : Scalar F}.
Open Scope scalar_scope.

Lemma where_nth_error {A : Type} (c : list bool) (x y : list A) i b a a' :
  nth_error c i = Some b -> nth_error x i = Some a ->
  nth_error y i = Some a' ->
  nth_error (where_ c x y) i = Some (if b then a else a').
Proof.
  revert c x y; induction i as [|i IH]; intros [|c0 c] [|x0 x] [|y0 y];
    simpl; try discriminate.
  - now intros [= ->] [= ->] [= ->].
  - apply IH.
Qed.

Lemma seq_nth_error (n i : nat) :
  (i < n)%nat -> nth_error (seq 0 n) i = Some i.
Proof.
  intros H. rewrite nth_error_nth' with (d := 0%nat) by now rewrite length_seq.
  now rewrite seq_nth.
Qed.

Lemma tabulate2_nth_error (n B : nat) (f : nat -> nat -> F) (i b : nat) :
  (i < n)%nat -> (b < B)%nat ->
  exists row,
    nth_error (tabulate2 n B f) i = Some row /\
    nth_error row b = Some (f i b).
Proof.
  intros Hi Hb. unfold tabulate2. eexists; split.
  - apply map_nth_error, seq_nth_error, Hi.
  - apply map_nth_error, seq_nth_error, Hb.
Qed.

(** One entry of a row of [u]: the rule for [z = 0] is applied last. *)
Lemma u_row_3d_nth (d : VonMisesFisher F) (z : list F) (b : nat) (k zi : F) :
  nth_error (concentration d) b = Some k ->
  nth_error z b = Some zi ->
  nth_error (u_row_3d d z) b
  = Some (if eqb zi zero then neg one
          else if zero <?. k then safe_u_elem k zi
               else two *. zi -. one).
Proof.
  intros Hk Hz. unfold u_row_3d.
  assert (Hsu : nth_error
                  (zip_with
                     (fun sz sc =>
                        one +. logsumexp2 (logf sz)
                                 (log1p (neg sz) -. two *. sc) /. sc)
                     (safe z) (safe (concentration d))) b
                = Some (safe_u_elem k zi)).
  { erewrite zip_with_nth_error; [reflexivity | |];
      rewrite safe_map.
    - now apply map_nth_error with (f := fun x => if gt0 x then x else one).
    - now apply map_nth_error with (f := fun x => if gt0 x then x else one). }
  match goal with
  | |- nth_error (where_ _ _ ?u) _ = _ =>
      assert (Hu : nth_error u b
                   = Some (if zero <?. k then safe_u_elem k zi
                           else two *. zi -. one))
  end.
  { apply where_nth_error with (b := zero <?. k).
    - apply (zip_with_nth_error (fun k0 z0 : F => z0 <?. k0)); [assumption|].
      unfold zeros_like.
      apply map_nth_error with (f := fun _ : F => zero) (d := safe_u_elem k zi).
      exact Hsu.
    - exact Hsu.
    - apply map_nth_error with (f := fun zi => two *. zi -. one). exact Hz. }
  apply where_nth_error.
  - apply map_nth_error with (f := fun zi => eqb zi zero). exact Hz.
  - apply map_nth_error with (f := neg). unfold ones_like.
    apply map_nth_error with (f := fun _ : F => one) (1 := Hu).
  - assumption.
Qed.
End Sample3dFacts.

Section Sample3dReal.
Open Scope R_scope.
Variables (i0e i1e lgam : R -> R) (tol : R).
Variable G : Type.
Variable hash : Z -> nat -> string -> Z.
Variable next_state : G -> G.
Variable uniform_at : source G -> nat -> nat -> R.

Local Hint Extern 0 (Scalar R) =>
  exact (R_scalar i0e i1e lgam tol) : typeclass_instances.

Lemma real_check_numerics2 (t : list (list R)) (tag : numerics_tag) :
  check_numerics2 t tag = Ok t.
Proof.
  unfold check_numerics2.
  replace (forallb all_finite t) with true; [reflexivity|].
  symmetry. apply forallb_forall. intros x _. apply real_all_finite.
Qed.

(** What [_sample_3d] returns, given its one uniform draw. *)
Lemma sample_3d_value (d : VonMisesFisher R) (n : nat) (seed : option Z)
    (r r' : rng G) (src : source G) :
  random_op next_state Uniform
    (option_map (fun sd => hash sd 1 "von_mises_fisher_3d") seed) 0 r
  = Done src r' ->
  _sample_3d hash next_state uniform_at d n seed r
  = Done (map (map (fun ui => [ui]))
            (map (u_row_3d d) (tabulate2 n (batch_size d) (uniform_at src))))
         r'.
Proof.
  intros H. unfold _sample_3d.
  cbn [SeedStream_call SeedStream_new original_seed salt counter].
  unfold random_uniform. unfold bindR at 1 2. rewrite H. unfold ret at 1.
  unfold bindR. rewrite real_check_numerics2.
  now destruct (negb (allow_nan_stats d)).
Qed.

End Sample3dReal.


(** ** The reflection *)

Section ReflectReal.
Open Scope R_scope.
Variables (i0e i1e lgam : R -> R) (tol : R).

Local Hint Extern 0 (Scalar R) =>
  exact (R_scalar i0e i1e lgam tol) : typeclass_instances.

Lemma real_dot_nil_l (y : list R) : dot [] y = 0.
Proof. unfold dot, reduce_sum; cbn [zip_with fold_right]. apply real_zero. Qed.

Lemma real_dot_nil_r (x : list R) : dot x [] = 0.
Proof.
  unfold dot, reduce_sum. destruct x; cbn [zip_with fold_right];
    apply real_zero.
Qed.

Lemma real_dot_cons (a b : R) (x y : list R) :
  dot (a :: x) (b :: y) = a * b + dot x y.
Proof. reflexivity. Qed.

Lemma real_reflect_cons (u0 v0 : R) (u v : list R) (s : R) :
  zip_with sub (v0 :: v) (map (fun ui => s * ui) (u0 :: u))
  = (v0 - s * u0) :: zip_with sub v (map (fun ui => s * ui) u).
Proof. reflexivity. Qed.

(** The inner product is linear in [v - s u]. *)
Lemma real_dot_axpy (s : R) (u v w : list R) :
  List.length u = List.length v ->
  dot (zip_with sub v (map (fun ui => s * ui) u)) w
  = dot v w - s * dot u w.
Proof.
  revert v w; induction u as [|u0 u IH]; intros [|v0 v] w; simpl;
    try discriminate.
  - intros _. rewrite real_dot_nil_l. lra.
  - intros [= Hl]. destruct w as [|w0 w].
    + rewrite !real_dot_nil_r. lra.
    + change (zip_with sub (v0 :: v) (map (fun ui => s * ui) (u0 :: u)))
        with ((v0 - s * u0) :: zip_with sub v (map (fun ui => s * ui) u)).
      rewrite !real_dot_cons, IH by assumption. lra.
Qed.

Lemma real_reflect (u v : list R) :
  reflect u v = zip_with sub v (map (fun ui => 2 * dot v u * ui) u).
Proof.
  unfold reflect. f_equal. apply map_ext; intros a. real_ops.
  now rewrite real_two.
Qed.

Lemma real_axpy_axpy (s t : R) (u v : list R) :
  List.length u = List.length v ->
  zip_with sub (zip_with sub v (map (fun ui => s * ui) u))
    (map (fun ui => t * ui) u)
  = zip_with sub v (map (fun ui => (s + t) * ui) u).
Proof.
  revert v; induction u as [|u0 u IH]; intros [|v0 v]; simpl;
    try discriminate; try reflexivity.
  intros [= Hl]. rewrite IH by assumption. f_equal. real_ops. lra.
Qed.

(** Reflecting twice moves [v] along [u] by a multiple of
    [1 - u . u]: the reflection is its own inverse exactly when the
    normal is a unit vector or the vector is orthogonal to it. *)
Lemma reflect_twice (u v : list R) :
  List.length u = List.length v ->
  reflect u (reflect u v)
  = zip_with sub v
      (map (fun ui => 4 * dot v u * (1 - dot u u) * ui) u).
Proof.
  intros Hl. rewrite !real_reflect.
  rewrite real_dot_axpy by assumption.
  rewrite real_axpy_axpy by assumption.
  f_equal. apply map_ext; intros a. lra.
Qed.

Lemma real_axpy_zero (u v : list R) :
  List.length u = List.length v ->
  zip_with sub v (map (fun ui => 0 * ui) u) = v.
Proof.
  revert v; induction u as [|u0 u IH]; intros [|v0 v]; simpl;
    try discriminate; try reflexivity.
  intros [= Hl]. rewrite IH by assumption. f_equal. real_ops. lra.
Qed.

Lemma reflect_involution (u v : list R) :
  List.length u = List.length v ->
  dot u u = 1 \/ dot v u = 0 ->
  reflect u (reflect u v) = v.
Proof.
  intros Hl H. rewrite reflect_twice by assumption.
  rewrite <- (real_axpy_zero u v Hl) at 2.
  f_equal. apply map_ext; intros a.
  destruct H as [-> | ->]; lra.
Qed.
End ReflectReal.

Section NormalizeReal.
Open Scope R_scope.
Variables (i0e i1e lgam : R -> R) (tol : R).

Local Hint Extern 0 (Scalar R) =>
  exact (R_scalar i0e i1e lgam tol) : typeclass_instances.

Lemma real_l2_epsilon : (l2_epsilon : R) = / 1000000000000.
Proof. unfold l2_epsilon; real_ops. unfold Q2R; simpl. lra. Qed.

Lemma real_sum_squares (x : list R) : reduce_sum (map square x) = dot x x.
Proof. unfold dot. now rewrite zip_with_same. Qed.

Lemma real_l2_normalize (x : list R) :
  l2_normalize x
  = map (fun a => a * / sqrt (Rmax (dot x x) (/ 1000000000000))) x.
Proof.
  unfold l2_normalize. rewrite real_sum_squares, real_l2_epsilon.
  reflexivity.
Qed.

Lemma real_dot_nonneg (x : list R) : 0 <= dot x x.
Proof.
  induction x as [|a x IH].
  - rewrite !real_dot_nil_l. lra.
  - rewrite real_dot_cons. nra.
Qed.

Lemma real_dot_scale (c : R) (x y : list R) :
  dot (map (fun a => a * c) x) (map (fun a => a * c) y) = c * c * dot x y.
Proof.
  revert y; induction x as [|a x IH]; intros [|b y]; cbn [map].
  - rewrite !real_dot_nil_l. lra.
  - rewrite !real_dot_nil_l. lra.
  - rewrite !real_dot_nil_r. lra.
  - rewrite !real_dot_cons, IH. lra.
Qed.

Lemma real_dot_scale_r (c : R) (v x : list R) :
  dot v (map (fun a => a * c) x) = c * dot v x.
Proof.
  revert x; induction v as [|b v IH]; intros [|a x]; cbn [map].
  - rewrite !real_dot_nil_l. lra.
  - rewrite !real_dot_nil_l. lra.
  - rewrite !real_dot_nil_r. lra.
  - rewrite !real_dot_cons, IH. lra.
Qed.

Lemma real_dot_zero (v x : list R) : dot x x = 0 -> dot v x = 0.
Proof.
  revert v; induction x as [|a x IH]; intros v H.
  - apply real_dot_nil_r.
  - destruct v as [|b v]; [apply real_dot_nil_l|].
    rewrite real_dot_cons in H. rewrite real_dot_cons.
    pose proof (real_dot_nonneg x) as Hx.
    assert (Ha : a = 0) by nra.
    assert (Hx0 : dot x x = 0) by nra.
    rewrite (IH v Hx0), Ha. lra.
Qed.

(** The normal of the reflection is a unit vector when the difference
    [x = e1 - mu] is at least [epsilon] long (squared). *)
Lemma normalize_unit (x : list R) :
  / 1000000000000 <= dot x x ->
  dot (l2_normalize x) (l2_normalize x) = 1.
Proof.
  intros H. rewrite real_l2_normalize, real_dot_scale.
  rewrite Rmax_left by lra.
  assert (Hp : 0 < dot x x) by lra.
  assert (Hs : 0 < sqrt (dot x x)) by now apply sqrt_lt_R0.
  rewrite <- (sqrt_sqrt (dot x x)) at 3 by lra.
  field. lra.
Qed.

(** Below [epsilon] the difference is scaled by the constant [1e6]. *)
Lemma normalize_short (x : list R) :
  dot x x <= / 1000000000000 ->
  l2_normalize x = map (fun a => a * 1000000) x.
Proof.
  intros H. rewrite real_l2_normalize, Rmax_right by lra.
  apply map_ext; intros a. f_equal.
  replace (/ 1000000000000) with (/ 1000000 * / 1000000) by lra.
  rewrite sqrt_square by lra. field.
Qed.

Lemma normalize_zero (v x : list R) :
  dot x x = 0 -> dot v (l2_normalize x) = 0.
Proof.
  intros H. rewrite real_l2_normalize, real_dot_scale_r.
  rewrite (real_dot_zero v x H). lra.
Qed.

Lemma l2_normalize_length (x : list R) :
  List.length (l2_normalize x) = List.length x.
Proof. unfold l2_normalize. apply length_map. Qed.

(** The reflection of [_rotate] is its own inverse when the mean
    direction is the basis vector itself or at least [1e-6] away from
    it. *)
Lemma reflect_normalized_involution (x v : list R) :
  List.length x = List.length v ->
  dot x x = 0 \/ / 1000000000000 <= dot x x ->
  reflect (l2_normalize x) (reflect (l2_normalize x) v) = v.
Proof.
  intros Hl H. apply reflect_involution.
  - now rewrite l2_normalize_length.
  - destruct H as [H|H]; [right; now apply normalize_zero
                         | left; now apply normalize_unit].
Qed.
End NormalizeReal.

Section RotateReal.
Open Scope R_scope.
Variables (i0e i1e lgam : R -> R) (tol : R).

Local Hint Extern 0 (Scalar R) =>
  exact (R_scalar i0e i1e lgam tol) : typeclass_instances.

Lemma rotate_value (d : VonMisesFisher R) (e1 : list R)
    (samples : list (list (list R))) :
  basis (event_dim d) = Ok e1 ->
  _rotate d samples
  = Ok (map (fun row =>
               zip_with (fun m v => reflect (l2_normalize (zip_with sub e1 m)) v)
                 (mean_direction d) row) samples).
Proof.
  intros H. unfold _rotate, rotate_normals. rewrite H. cbn [bind].
  f_equal. apply map_ext; intros row. apply zip_with_map_l.
Qed.

Lemma basis_length (D : nat) (e1 : list R) :
  basis D = Ok e1 -> List.length e1 = D.
Proof.
  destruct D as [|k]; [discriminate|]. intros [= <-].
  cbn [List.length]. now rewrite repeat_length.
Qed.

Lemma zip_with_twice {A B : Type} (f : A -> B -> B) (l : list A) (l' : list B) :
  Forall2 (fun a b => f a (f a b) = b) l l' ->
  zip_with f l (zip_with f l l') = l'.
Proof.
  induction 1 as [|a b l l' H _ IH]; simpl; [reflexivity|].
  now rewrite H, IH.
Qed.

Lemma reflect_rows_involution (e1 : list R) (ms row : list (list R)) :
  Forall (fun m =>
            List.length m = List.length e1 /\
            (dot (zip_with sub e1 m) (zip_with sub e1 m) = 0 \/
             / 1000000000000 <= dot (zip_with sub e1 m) (zip_with sub e1 m)))
    ms ->
  Forall2 (fun m v => List.length v = List.length m) ms row ->
  Forall2
    (fun m v =>
       reflect (l2_normalize (zip_with sub e1 m))
         (reflect (l2_normalize (zip_with sub e1 m)) v) = v) ms row.
Proof.
  intros Hm Hs. induction Hs as [|m v ms row Hv Hs IH]; constructor.
  - inversion Hm as [|? ? [Hlm Hd] _]; subst.
    apply reflect_normalized_involution; [|exact Hd].
    rewrite zip_with_length, Hv, Hlm. apply Nat.min_id.
  - apply IH. now inversion Hm.
Qed.

(** X1.  [_rotate] is its own inverse when every mean direction is the
    basis vector or at least [1e-6] away from it (and the shapes
    agree). *)
Lemma rotate_involution (d : VonMisesFisher R) (e1 : list R)
    (samples : list (list (list R))) :
  basis (event_dim d) = Ok e1 ->
  Forall (fun m =>
            List.length m = event_dim d /\
            (dot (zip_with sub e1 m) (zip_with sub e1 m) = 0 \/
             / 1000000000000 <= dot (zip_with sub e1 m) (zip_with sub e1 m)))
    (mean_direction d) ->
  Forall (fun row =>
            Forall2 (fun m v => List.length v = List.length m)
              (mean_direction d) row) samples ->
  exists rotated,
    _rotate d samples = Ok rotated /\ _rotate d rotated = Ok samples.
Proof.
  intros He Hm Hs. pose proof (basis_length _ He) as Hl.
  eexists; split; [apply rotate_value, He|].
  rewrite (rotate_value d _ He). f_equal.
  rewrite map_map. rewrite <- (map_id samples) at 2.
  apply map_ext_in; intros row Hrow.
  rewrite Forall_forall in Hs. specialize (Hs row Hrow).
  apply zip_with_twice, reflect_rows_involution; [|exact Hs].
  now rewrite Hl.
Qed.
End RotateReal.

Section NearBasis.
Open Scope R_scope.
Variables (i0e i1e lgam : R -> R) (tol : R).

Local Hint Extern 0 (Scalar R) =>
  exact (R_scalar i0e i1e lgam tol) : typeclass_instances.

Lemma near_basis_mean_unit : dot near_basis_mean near_basis_mean = 1.
Proof.
  unfold near_basis_mean. rewrite !real_dot_cons, real_dot_nil_l. lra.
Qed.

Lemma near_basis_difference :
  zip_with sub [one; zero] near_basis_mean
  = [2 / 100000000000001; - 20000000 / 100000000000001].
Proof.
  unfold near_basis_mean. cbn [zip_with]. real_ops.
  rewrite real_one, real_zero. f_equal; [lra | f_equal; lra].
Qed.

(** The normal [_rotate] reflects across for this mean direction: not a
    unit vector, its length is about [0.2]. *)
Lemma near_basis_normal :
  l2_normalize (zip_with sub [one; zero] near_basis_mean)
  = [2000000 / 100000000000001; - 20000000000000 / 100000000000001].
Proof.
  rewrite near_basis_difference, normalize_short.
  - cbn [map]. f_equal; [lra | f_equal; lra].
  - rewrite !real_dot_cons, real_dot_nil_l. lra.
Qed.

Lemma rotate_near_basis (samples : list (list (list R))) :
  _rotate vmf_near_basis samples
  = Ok (map (fun row =>
               zip_with
                 (fun (_ : list R) v =>
                    reflect [2000000 / 100000000000001;
                             - 20000000000000 / 100000000000001] v)
                 [near_basis_mean] row) samples).
Proof.
  rewrite (@rotate_value i0e i1e lgam tol vmf_near_basis [one; zero]
             samples eq_refl).
  f_equal. apply map_ext; intros row.
  cbn [vmf_near_basis vmf mean_direction].
  rewrite <- near_basis_normal.
  destruct row as [|v [|v' row]]; reflexivity.
Qed.

(** C7 at the failing input: for the unit mean direction
    [near_basis_mean], rotating [v = (0, 1)] twice does not return [v]:
    its second coordinate comes back below [0.9]. *)
Theorem rotate_twice_near_basis :
  dot near_basis_mean near_basis_mean = 1 /\
  exists v1 v2 : list R,
    _rotate vmf_near_basis [[[0; 1]]] = Ok [[v1]] /\
    _rotate vmf_near_basis [[v1]] = Ok [[v2]] /\
    nth 1 v2 0 < 9 / 10.
Proof.
  split; [apply near_basis_mean_unit|].
  eexists; eexists. rewrite !rotate_near_basis. cbn [map zip_with].
  split; [reflexivity|]. split; [reflexivity|].
  rewrite reflect_twice by reflexivity.
  rewrite !real_dot_cons, !real_dot_nil_l.
  cbn [map zip_with nth]. real_ops. lra.
Qed.
End NearBasis.

(** ** Runs of the sampler *)

Section Runs.
Context {F : Type} {S : Scalar F}.
Variable G : Type.
Variable hash : Z -> nat -> string -> Z.
Variable next_state : G -> G.
Variable uniform_at : source G -> nat -> nat -> F.
Variable normal_at : source G -> nat -> nat -> nat -> F.
Variable beta_at : F -> F -> source G -> nat -> nat -> F.

Lemma bindR_done {A B : Type} (m : Rand G A) (k : A -> Rand G B)
    (r r'' : rng G) (b : B) :
  bindR m k r = Done b r'' ->
  exists a r', m r = Done a r' /\ k a r' = Done b r''.
Proof.
  unfold bindR. destruct (m r) as [a r'| |]; try discriminate.
  intros H. now exists a, r'.
Qed.

Lemma lift_done {A : Type} (m : result A) (r r' : rng G) (a : A) :
  lift m r = Done a r' -> m = Ok a /\ r' = r.
Proof.
  unfold lift. destruct m; [|discriminate]. now intros [= -> ->].
Qed.

Lemma ret_done {A : Type} (a a' : A) (r r' : rng G) :
  ret a r = Done a' r' -> a' = a /\ r' = r.
Proof. unfold ret. now intros [= -> ->]. Qed.

(** *** Computations that leave the generator alone *)

Lemma ambient_free_ret {A : Type} (a : A) : ambient_free (ret (G := G) a).
Proof. intros g g' t. reflexivity. Qed.

Lemma ambient_free_lift {A : Type} (m : result A) :
  ambient_free (lift (G := G) m).
Proof. intros g g' t. unfold lift. now destruct m. Qed.

Lemma ambient_free_bind {A B : Type} (m : Rand G A) (k : A -> Rand G B) :
  ambient_free m ->
  (forall a r r', m r = Done a r' -> ambient_free (k a)) ->
  ambient_free (bindR m k).
Proof.
  intros Hm Hk g g' t. unfold bindR. rewrite (Hm g g' t).
  destruct (m {| ambient := g; drawn := t |}) as [a [ga ta]| |] eqn:E;
    cbn [with_ambient drawn]; try reflexivity.
  apply (Hk a _ _ E).
Qed.

Lemma ambient_free_random_op (k : draw_kind) (s : Z) (run : nat) :
  ambient_free (random_op next_state k (Some s) run).
Proof. intros g g' t. reflexivity. Qed.

Lemma ambient_free_if {A : Type} (b : bool) (m m' : Rand G A) :
  ambient_free m -> ambient_free m' -> ambient_free (if b then m else m').
Proof. now destruct b. Qed.

Lemma SeedStream_call_seeded (s : Z) (stream : SeedStream) :
  seeded s stream ->
  SeedStream_call hash stream
  = (Some (hash s (Datatypes.S (counter stream)) "vom_mises_fisher"),
     {| original_seed := Some s; salt := "vom_mises_fisher";
        counter := Datatypes.S (counter stream) |}).
Proof.
  intros [H1 H2]. unfold SeedStream_call. now rewrite H1, H2.
Qed.

(** *** The loop *)

(** One pass of the loop body with seeded ops: a beta draw and a uniform
    draw, in this order, each op at its next run. *)
Lemma body_fn_seeded (d : VonMisesFisher F) (D n : nat) (h1 h2 : Z)
    (w : list (list F)) (sc : list (list bool)) (run : nat) (r : rng G) :
  let z := tabulate2 n (batch_size d)
             (beta_at (div (dim_of D) two) (div (dim_of D) two)
                (Seeded G h1 run)) in
  let unif := tabulate2 n (batch_size d) (uniform_at (Seeded G h2 run)) in
  body_fn next_state uniform_at beta_at d D n (Some h1) (Some h2)
    (w, sc, run) r
  = match check_numerics2 (next_w d D z w sc) tag_w with
    | Ok w' =>
        Done (w', next_should_continue d D w' unif sc, Datatypes.S run)
             {| ambient := ambient r;
                drawn := drawn r ++ [(Beta, Some h1); (Uniform, Some h2)] |}
    | Err e => Raised _ _ e
    end.
Proof.
  intros z unif. unfold body_fn.
  unfold beta_sample, random_uniform, bindR, ret, lift, random_op.
  cbn [ambient drawn]. fold z.
  destruct (check_numerics2 (next_w d D z w sc) tag_w) as [w'|e];
    [|reflexivity].
  cbn [ambient drawn]. fold unif. now rewrite <- app_assoc.
Qed.

Lemma ambient_free_body_fn (d : VonMisesFisher F) (D n : nat) (h1 h2 : Z)
    (st : loop_state) :
  ambient_free (body_fn next_state uniform_at beta_at d D n
                  (Some h1) (Some h2) st).
Proof.
  destruct st as [[w sc] run]. intros g g' t.
  rewrite !(body_fn_seeded d D n h1 h2 w sc run).
  cbn [ambient drawn].
  now destruct (check_numerics2 _ tag_w).
Qed.

Lemma body_fn_draws (d : VonMisesFisher F) (D n : nat) (h1 h2 : Z)
    (st st' : loop_state) (r r' : rng G) :
  body_fn next_state uniform_at beta_at d D n (Some h1) (Some h2) st r
  = Done st' r' ->
  snd st' = Datatypes.S (snd st) /\
  ambient r' = ambient r /\
  drawn r' = drawn r ++ [(Beta, Some h1); (Uniform, Some h2)].
Proof.
  destruct st as [[w sc] run]. cbn [snd].
  rewrite (body_fn_seeded d D n h1 h2 w sc run r).
  destruct (check_numerics2 _ tag_w); [|discriminate].
  intros [= <- <-]. cbn [snd ambient drawn]. repeat split.
Qed.

Lemma flat_map_const_seq {A : Type} (l : list A) (a b k : nat) :
  flat_map (fun _ => l) (seq a k) = flat_map (fun _ => l) (seq b k).
Proof.
  revert a b. induction k as [|k IH]; intros a b; cbn [seq flat_map];
    [reflexivity|].
  now rewrite (IH (Datatypes.S a) (Datatypes.S b)).
Qed.

Lemma loop_draws_cons (s : Z) (k : nat) :
  [(Beta, Some (hash s 1 "vom_mises_fisher"));
   (Uniform, Some (hash s 2 "vom_mises_fisher"))] ++ loop_draws hash s k
  = loop_draws hash s (Datatypes.S k).
Proof.
  unfold loop_draws. cbn [flat_map seq app]. do 2 f_equal.
  apply flat_map_const_seq.
Qed.

(** The loop draws a beta and a uniform value per iteration, from its two
    ops, which have the first two sub-seeds, and nothing else. *)
Lemma while_loop_draws (d : VonMisesFisher F) (D n : nat) (s : Z)
    (fuel : nat) (st st' : loop_state) (r r' : rng G) :
  while_loop fuel cond_fn
    (body_fn next_state uniform_at beta_at d D n
       (Some (hash s 1 "vom_mises_fisher"))
       (Some (hash s 2 "vom_mises_fisher"))) st r = Done st' r' ->
  exists k,
    snd st' = (snd st + k)%nat /\
    ambient r' = ambient r /\
    drawn r' = drawn r ++ loop_draws hash s k.
Proof.
  revert st r. induction fuel as [|fuel IH]; intros st r; [discriminate|].
  cbn [while_loop]. destruct (cond_fn st).
  - intros H. apply bindR_done in H as (st1 & r1 & Hb & Hw).
    destruct (body_fn_draws d D n _ _ st r Hb) as (Hc1 & Ha1 & Hd1).
    destruct (IH st1 r1 Hw) as (k & Hc' & Ha' & Hd').
    exists (Datatypes.S k). repeat split.
    + rewrite Hc', Hc1. lia.
    + congruence.
    + rewrite Hd', Hd1, <- app_assoc. f_equal. apply loop_draws_cons.
  - intros H. apply ret_done in H as [-> ->]. exists 0%nat.
    repeat split.
    + lia.
    + unfold loop_draws. cbn [seq flat_map]. now rewrite app_nil_r.
Qed.

Lemma ambient_free_while_loop (d : VonMisesFisher F) (D n : nat) (h1 h2 : Z)
    (fuel : nat) (st : loop_state) :
  ambient_free (while_loop fuel cond_fn
                  (body_fn next_state uniform_at beta_at d D n
                     (Some h1) (Some h2)) st).
Proof.
  revert st. induction fuel as [|fuel IH]; intros st.
  - intros g g' t. reflexivity.
  - cbn [while_loop]. destruct (cond_fn st); [|apply ambient_free_ret].
    apply ambient_free_bind.
    + apply ambient_free_body_fn.
    + intros st1 r r' Hb. apply IH.
Qed.
End Runs.

Section SeededSample.
Context {F : Type} {S : Scalar F}.
Variable G : Type.
Variable hash : Z -> nat -> string -> Z.
Variable next_state : G -> G.
Variable uniform_at : source G -> nat -> nat -> F.
Variable normal_at : source G -> nat -> nat -> nat -> F.
Variable beta_at : F -> F -> source G -> nat -> nat -> F.

(** The 3-D sampler with a seed: one uniform draw, with the first
    sub-seed of its own stream. *)
Lemma sample_3d_seeded (d : VonMisesFisher F) (n : nat) (s : Z) (r : rng G) :
  let h := hash s 1 "von_mises_fisher_3d" in
  let u := map (u_row_3d d)
             (tabulate2 n (batch_size d) (uniform_at (Seeded G h 0))) in
  _sample_3d hash next_state uniform_at d n (Some s) r
  = match (if negb (allow_nan_stats d)
           then check_numerics2 u tag_u_3d else Ok u) with
    | Ok u' =>
        Done (map (map (fun ui => [ui])) u')
             {| ambient := ambient r;
                drawn := drawn r ++ [(Uniform, Some h)] |}
    | Err e => Raised _ _ e
    end.
Proof.
  intros h u. unfold _sample_3d.
  cbn [SeedStream_call SeedStream_new original_seed salt counter option_map].
  unfold random_uniform, bindR, ret, lift, random_op. fold h. fold u.
  destruct (negb (allow_nan_stats d)); [|reflexivity].
  now destruct (check_numerics2 u tag_u_3d).
Qed.

(** The stream of [_sample_n] once the loop is built: two sub-seeds are
    taken. *)
Lemma wood_dim0_seeded (d : VonMisesFisher F) (fuel D n : nat) (s : Z) :
  wood_dim0 hash next_state uniform_at beta_at d fuel D n
    (SeedStream_new (Some s) "vom_mises_fisher")
  = bindR
      (while_loop fuel cond_fn
         (body_fn next_state uniform_at beta_at d D n
            (Some (hash s 1 "vom_mises_fisher"))
            (Some (hash s 2 "vom_mises_fisher")))
         (tabulate2 n (batch_size d) (fun _ _ => zero),
          map (fun _ => map (fun _ => true) (seq 0 (batch_size d))) (seq 0 n),
          0%nat))
      (fun st : loop_state =>
         let '(w, _, _) := st in
         ret (map (map (fun wi => [wi])) w,
              {| original_seed := Some s; salt := "vom_mises_fisher";
                 counter := 2 |})).
Proof. reflexivity. Qed.

Lemma first_coordinate_draws (d : VonMisesFisher F) (fuel n : nat) (s : Z)
    (stream' : SeedStream) (r r' : rng G) (x : list (list (list F))) :
  first_coordinate hash next_state uniform_at beta_at d fuel n (Some s)
    (SeedStream_new (Some s) "vom_mises_fisher") r = Done (x, stream') r' ->
  ambient r' = ambient r /\
  ((event_shape_value d = Some 3%nat /\
    stream' = SeedStream_new (Some s) "vom_mises_fisher" /\
    drawn r' = drawn r ++ [(Uniform, Some (hash s 1 "von_mises_fisher_3d"))])
   \/
   (event_shape_value d <> Some 3%nat /\
    stream' = {| original_seed := Some s; salt := "vom_mises_fisher";
                 counter := 2 |} /\
    exists k, drawn r' = drawn r ++ loop_draws hash s k)).
Proof.
  unfold first_coordinate.
  assert (Hwood :
    event_shape_value d <> Some 3%nat ->
    wood_dim0 hash next_state uniform_at beta_at d fuel (event_dim d) n
      (SeedStream_new (Some s) "vom_mises_fisher") r = Done (x, stream') r' ->
    ambient r' = ambient r /\
    ((event_shape_value d = Some 3%nat /\
      stream' = SeedStream_new (Some s) "vom_mises_fisher" /\
      drawn r' = drawn r ++ [(Uniform, Some (hash s 1 "von_mises_fisher_3d"))])
     \/
     (event_shape_value d <> Some 3%nat /\
      stream' = {| original_seed := Some s; salt := "vom_mises_fisher";
                   counter := 2 |} /\
      exists k, drawn r' = drawn r ++ loop_draws hash s k))).
  { intros Hne H. rewrite wood_dim0_seeded in H.
    apply bindR_done in H as ([[w1 sc1] run1] & r1 & Hw & Hr).
    apply ret_done in Hr as [[= -> ->] ->].
    apply while_loop_draws in Hw.
    destruct Hw as (k & _ & Ha & Hd).
    split; [assumption|].
    right. split; [assumption|]. split; [reflexivity|]. now exists k. }
  destruct (event_shape_value d) as [[|[|[|[|D]]]]|] eqn:E;
    try (apply Hwood; discriminate).
  unfold bindR. rewrite sample_3d_seeded.
  destruct (if negb (allow_nan_stats d) then _ else _) as [u'|e];
    [|discriminate].
  intros H. apply ret_done in H as [[= -> ->] ->]. cbn [ambient drawn].
  split; [reflexivity|]. left. repeat split.
Qed.

Lemma ambient_free_first_coordinate (d : VonMisesFisher F) (fuel n : nat)
    (s : Z) :
  ambient_free (first_coordinate hash next_state uniform_at beta_at d fuel n
                  (Some s) (SeedStream_new (Some s) "vom_mises_fisher")).
Proof.
  unfold first_coordinate.
  assert (Hwood :
    ambient_free (wood_dim0 hash next_state uniform_at beta_at d fuel
                    (event_dim d) n
                    (SeedStream_new (Some s) "vom_mises_fisher"))).
  { rewrite wood_dim0_seeded. apply ambient_free_bind.
    - apply ambient_free_while_loop.
    - intros [[w sc] run] r r' _. apply ambient_free_ret. }
  destruct (event_shape_value d) as [[|[|[|[|D]]]]|]; try exact Hwood.
  apply ambient_free_bind; [|intros; apply ambient_free_ret].
  intros g g' t. rewrite !sample_3d_seeded. cbn [ambient drawn].
  now destruct (if negb (allow_nan_stats d) then _ else _).
Qed.

Lemma ambient_free_random_normal (n B D : nat) (h : Z) (run : nat) :
  ambient_free (random_normal next_state normal_at n B D (Some h) run).
Proof.
  unfold random_normal. apply ambient_free_bind.
  - apply ambient_free_random_op.
  - intros; apply ambient_free_ret.
Qed.

Lemma random_normal_done (n B D : nat) (h : Z) (run : nat) (r r' : rng G)
    (x : list (list (list F))) :
  random_normal next_state normal_at n B D (Some h) run r = Done x r' ->
  ambient r' = ambient r /\ drawn r' = drawn r ++ [(Normal, Some h)].
Proof.
  unfold random_normal, bindR, random_op, ret. now intros [= _ <-].
Qed.

Lemma if_lift_done {A : Type} (b : bool) (m : result A) (a a' : A)
    (r r' : rng G) :
  (if b then lift m else ret a) r = Done a' r' -> r' = r.
Proof.
  destruct b; intros H.
  - now apply lift_done in H.
  - now apply ret_done in H.
Qed.

Lemma seeded_streams (s : Z) (stream : SeedStream) :
  stream = SeedStream_new (Some s) "vom_mises_fisher" \/
  stream = {| original_seed := Some s; salt := "vom_mises_fisher";
              counter := 2 |} ->
  seeded s stream.
Proof. intros [-> | ->]; split; reflexivity. Qed.

Lemma ambient_free_sample_n (d : VonMisesFisher F) (fuel n : nat) (s : Z) :
  ambient_free (_sample_n hash next_state uniform_at normal_at beta_at d
                  fuel n (Some s)).
Proof.
  unfold _sample_n.
  apply ambient_free_bind.
  { apply ambient_free_first_coordinate. }
  intros [x stream] r r' H1.
  assert (Hs : seeded s stream).
  { destruct (@first_coordinate_draws d fuel n s _ r r' x H1)
      as (_ & [(_ & -> & _) | (_ & -> & _)]); split; reflexivity. }
  apply ambient_free_bind.
  { apply ambient_free_if; [apply ambient_free_lift | apply ambient_free_ret]. }
  intros _ _ _ _. rewrite (SeedStream_call_seeded hash Hs).
  apply ambient_free_bind; [apply ambient_free_random_normal|].
  intros normal _ _ _.
  apply ambient_free_bind.
  { apply ambient_free_if; [apply ambient_free_lift | apply ambient_free_ret]. }
  intros samples _ _ _.
  apply ambient_free_bind.
  { apply ambient_free_if; [apply ambient_free_lift | apply ambient_free_ret]. }
  intros _ _ _ _.
  apply ambient_free_bind.
  { apply ambient_free_if; [apply ambient_free_lift | apply ambient_free_ret]. }
  intros _ _ _ _. apply ambient_free_lift.
Qed.

Lemma sample_n_draws (d : VonMisesFisher F) (fuel n : nat) (s : Z)
    (r r' : rng G) (x : list (list (list F))) :
  _sample_n hash next_state uniform_at normal_at beta_at d fuel n (Some s) r
  = Done x r' ->
  ambient r' = ambient r /\
  ((event_shape_value d = Some 3%nat /\
    drawn r' = drawn r ++ draws_3d hash s) \/
   (event_shape_value d <> Some 3%nat /\
    exists k, drawn r' = drawn r ++ draws_rejection hash s k)).
Proof.
  unfold _sample_n. intros H.
  apply bindR_done in H as ([x0 stream] & r1 & H1 & H).
  destruct (@first_coordinate_draws d fuel n s _ r r1 x0 H1)
    as (Ha1 & Hd1).
  apply bindR_done in H as (? & r2 & H2 & H).
  apply if_lift_done in H2. subst r2.
  assert (Hs : seeded s stream).
  { destruct Hd1 as [(_ & -> & _) | (_ & -> & _)]; split; reflexivity. }
  rewrite (SeedStream_call_seeded hash Hs) in H.
  apply bindR_done in H as (normal & r3 & H3 & H).
  apply random_normal_done in H3 as [Ha3 Hd3].
  apply bindR_done in H as (samples & r4 & H4 & H).
  apply if_lift_done in H4. subst r4.
  apply bindR_done in H as (? & r5 & H5 & H).
  apply if_lift_done in H5. subst r5.
  apply bindR_done in H as (? & r6 & H6 & H).
  apply if_lift_done in H6. subst r6.
  apply lift_done in H as [_ ->].
  split; [congruence|].
  destruct Hd1 as [(HD & -> & Hd1) | (HD & -> & k & Hd1)].
  - left. split; [assumption|]. rewrite Hd3, Hd1, <- app_assoc. reflexivity.
  - right. split; [assumption|]. exists k.
    rewrite Hd3, Hd1, <- app_assoc. reflexivity.
Qed.

(** C10.  [sample(n, seed)] is determined by its seed: a call with seed
    [s] does the same from any state of the generator behind unseeded
    ops, which it leaves untouched, so two calls with the same seed end
    alike, with the same output and the same draws; and the draws come in
    a fixed order: in three dimensions one uniform draw, then the normal
    one with the first sub-seed of the stream; otherwise a beta and a
    uniform draw per iteration of the loop, from the two ops of the loop
    (sub-seeds 1 and 2, taken once, when the loop is built), then the
    normal one (sub-seed 3). *)
Theorem sample_n_seed_determined (d : VonMisesFisher F) (fuel n : nat)
    (s : Z) (g g' : G) (t : list (draw_kind * option Z)) :
  _sample_n hash next_state uniform_at normal_at beta_at d fuel n (Some s)
    {| ambient := g'; drawn := t |}
  = with_ambient g'
      (_sample_n hash next_state uniform_at normal_at beta_at d fuel n
         (Some s) {| ambient := g; drawn := t |}) /\
  forall (x : list (list (list F))) (r' : rng G),
    _sample_n hash next_state uniform_at normal_at beta_at d fuel n (Some s)
      {| ambient := g; drawn := t |} = Done x r' ->
    ambient r' = g /\
    ((event_shape_value d = Some 3%nat /\
      drawn r' = t ++ draws_3d hash s) \/
     (event_shape_value d <> Some 3%nat /\
      exists k, drawn r' = t ++ draws_rejection hash s k)).
Proof.
  split.
  - apply ambient_free_sample_n.
  - intros x r' H. exact (@sample_n_draws d fuel n s _ r' x H).
Qed.
End SeededSample.

(** ** A sample at zero concentration in two dimensions *)

Section ZeroConcentrationSample.
Open Scope R_scope.
Variables (i0e i1e lgam : R -> R) (tol : R).
Variable G : Type.
Variable hash : Z -> nat -> string -> Z.
Variable next_state : G -> G.

Local Hint Extern 0 (Scalar R) =>
  exact (R_scalar i0e i1e lgam tol) : typeclass_instances.

Lemma real_dim_of_2 : dim_of 2 = 1.
Proof. unfold dim_of; real_ops. unfold Q2R; simpl. lra. Qed.

Lemma real_wood_b_2_0 : wood_b 2 0 = 1.
Proof.
  unfold wood_b, square. rewrite real_dim_of_2, real_two. real_ops.
  replace (2 * 0 + sqrt (Q2R 4 * (0 * 0) + 1 * 1)) with 1.
  - lra.
  - replace (Q2R 4 * (0 * 0) + 1 * 1) with 1 by lra. rewrite sqrt_1. lra.
Qed.

Lemma real_wood_x_2_0 : wood_x 2 0 = 0.
Proof. unfold wood_x. rewrite real_wood_b_2_0, real_one. real_ops. lra. Qed.

Lemma real_wood_c_2_0 : wood_c 2 0 = 0.
Proof.
  unfold wood_c, square. rewrite real_wood_x_2_0, real_dim_of_2. real_ops.
  replace (1 + - (0 * 0)) with 1 by lra. rewrite ln_1. lra.
Qed.

Lemma zero_conc_next_w (m : list R) (w0 : R) :
  next_w (vmf 2 [m] [0] false true) 2 [[1 / 2]] [[w0]] [[true]] = [[0]].
Proof.
  unfold next_w.
  cbn [vmf concentration map zip_with combine where_ fst snd].
  rewrite real_wood_b_2_0, real_one. real_ops. do 2 f_equal. lra.
Qed.

Lemma zero_conc_next_should_continue (m : list R) :
  next_should_continue (vmf 2 [m] [0] false true) 2 [[0]] [[1 / 2]] [[true]]
  = [[false]].
Proof.
  unfold next_should_continue.
  cbn [vmf concentration map zip_with combine].
  rewrite real_wood_x_2_0, real_wood_c_2_0, real_dim_of_2. real_ops.
  replace (0 * 0 + 1 * ln (1 + - 0 * 0) - 0) with 0.
  2:{ replace (1 + - 0 * 0) with 1 by lra. rewrite ln_1. lra. }
  unfold Rltb. destruct (Rlt_dec 0 (ln (1 / 2))) as [H|_]; [|reflexivity].
  exfalso. assert (Hl : ln (1 / 2) < ln 1) by (apply ln_increasing; lra).
  rewrite ln_1 in Hl. lra.
Qed.

(** The loop accepts in its first pass: [kappa = 0] makes the test
    [0 < log u] fail for the draw [u = 1/2]. *)
Lemma zero_conc_first_coordinate (m : list R) (s : Z) (r : rng G) :
  first_coordinate hash next_state (fun _ _ _ => 1 / 2)
    (fun _ _ _ _ _ => 1 / 2) (vmf 2 [m] [0] false true) 2 1 (Some s)
    (SeedStream_new (Some s) "vom_mises_fisher") r
  = Done ([[[0]]],
          {| original_seed := Some s; salt := "vom_mises_fisher";
             counter := 2 |})
         {| ambient := ambient r;
            drawn := drawn r
                     ++ [(Beta, Some (hash s 1 "vom_mises_fisher"));
                         (Uniform, Some (hash s 2 "vom_mises_fisher"))] |}.
Proof.
  unfold first_coordinate.
  change (event_shape_value (vmf 2 [m] [0] false true)) with (Some 2%nat).
  cbv iota.
  rewrite wood_dim0_seeded.
  change (batch_size (vmf 2 [m] [0] false true)) with 1%nat.
  cbn [tabulate2 seq map]. unfold bindR at 1.
  cbn [while_loop cond_fn existsb orb]. unfold bindR at 1.
  rewrite body_fn_seeded.
  change (batch_size (vmf 2 [m] [0] false true)) with 1%nat.
  cbn [tabulate2 seq map].
  change (event_dim (vmf 2 [m] [0] false true)) with 2%nat.
  rewrite zero_conc_next_w, real_check_numerics2.
  rewrite zero_conc_next_should_continue.
  cbn [cond_fn existsb orb]. reflexivity.
Qed.

Lemma normalize_long (x : list R) :
  / 1000000000000 <= dot x x ->
  l2_normalize x = map (fun a => a * / sqrt (dot x x)) x.
Proof.
  intros H. rewrite real_l2_normalize, Rmax_left by lra. reflexivity.
Qed.

Lemma zero_conc_assemble : assemble [[[0]]] [[[1]]] = [[[0; 1]]].
Proof.
  unfold assemble. cbn [map zip_with bcast_mul app].
  assert (H1 : l2_normalize [1] = [1]).
  { rewrite normalize_long; rewrite !real_dot_cons, real_dot_nil_l.
    - cbn [map]. replace (1 * 1 + 0) with 1 by lra. rewrite sqrt_1.
      f_equal. lra.
    - lra. }
  rewrite H1. cbn [map]. unfold square. real_ops.
  rewrite real_one, real_zero.
  replace (sqrt (Rmax (1 - 0 * 0) 0) * 1) with 1.
  2:{ rewrite Rmax_left by lra. replace (1 - 0 * 0) with 1 by lra.
      rewrite sqrt_1. lra. }
  rewrite normalize_long; rewrite !real_dot_cons, real_dot_nil_l.
  - cbn [map]. replace (0 * 0 + (1 * 1 + 0)) with 1 by lra. rewrite sqrt_1.
    replace (0 * / 1) with 0 by lra. replace (1 * / 1) with 1 by lra.
    reflexivity.
  - lra.
Qed.

(** The run of [sample(1, seed)] at zero concentration, for the draws
    [1/2] (beta), [1/2] (uniform) and [1] (normal): the loop accepts at
    once, the sample about the basis vector is [(0, 1)], and the value
    is its rotation. *)
Lemma zero_conc_sample_n (m : list R) (s : Z) (r : rng G) :
  _sample_n hash next_state (fun _ _ _ => 1 / 2) (fun _ _ _ _ => 1)
    (fun _ _ _ _ _ => 1 / 2) (vmf 2 [m] [0] false true) 2 1 (Some s) r
  = lift (_rotate (vmf 2 [m] [0] false true) [[[0; 1]]])
      {| ambient := ambient r;
         drawn := (drawn r
                   ++ [(Beta, Some (hash s 1 "vom_mises_fisher"));
                       (Uniform, Some (hash s 2 "vom_mises_fisher"))])
                  ++ [(Normal, Some (hash s 3 "vom_mises_fisher"))] |}.
Proof.
  unfold _sample_n. unfold bindR at 1.
  rewrite zero_conc_first_coordinate.
  change (allow_nan_stats (vmf 2 [m] [0] false true)) with true. cbn [negb].
  unfold bindR at 1. unfold ret at 1.
  cbn [SeedStream_call original_seed salt counter option_map].
  unfold random_normal, random_op, bindR at 1 2, ret at 1.
  change (batch_size (vmf 2 [m] [0] false true)) with 1%nat.
  change (event_dim (vmf 2 [m] [0] false true)) with 2%nat.
  cbn [tabulate3 seq map Nat.sub ambient drawn].
  rewrite zero_conc_assemble.
  reflexivity.
Qed.

(** C8 at the failing input: for the unit mean direction
    [near_basis_mean], zero concentration and the draws [1/2] (beta),
    [1/2] (uniform) and [1] (normal), the one sample [sample(1, seed)]
    returns has norm below [0.99]. *)
Theorem sample_near_basis_not_unit (s : Z) (r : rng G) :
  dot near_basis_mean near_basis_mean = 1 /\
  exists (x : list R) (r' : rng G),
    _sample_n hash next_state (fun _ _ _ => 1 / 2) (fun _ _ _ _ => 1)
      (fun _ _ _ _ _ => 1 / 2) vmf_near_basis 2 1 (Some s) r
    = Done [[x]] r' /\
    norm x < 99 / 100.
Proof.
  split; [apply near_basis_mean_unit|].
  unfold vmf_near_basis at 1. rewrite zero_conc_sample_n.
  fold vmf_near_basis. rewrite rotate_near_basis.
  cbn [map zip_with lift].
  eexists; eexists; split; [reflexivity|].
  unfold norm. rewrite real_sum_squares, real_reflect.
  rewrite !real_dot_cons, !real_dot_nil_l. cbn [map zip_with].
  rewrite !real_dot_cons, !real_dot_nil_l. real_ops.
  rewrite <- (sqrt_square (99 / 100)) by lra.
  apply sqrt_lt_1_alt. split; [nra | lra].
Qed.
End ZeroConcentrationSample.

(** ** Samples of unit norm *)

Section ForallFacts.
Variables A B C : Type.

Lemma Forall_zip_with (P : C -> Prop) (Qa : A -> Prop) (Qb : B -> Prop)
    (f : A -> B -> C) (l : list A) (l' : list B) :
  (forall a b, Qa a -> Qb b -> P (f a b)) ->
  Forall Qa l -> Forall Qb l' -> Forall P (zip_with f l l').
Proof.
  intros Hf Hl. revert l'. induction Hl as [|a l Ha _ IH]; intros l' Hl'.
  - constructor.
  - destruct Hl' as [|b l' Hb Hl']; cbn [zip_with]; constructor.
    + now apply Hf.
    + now apply IH.
Qed.
End ForallFacts.

Section UnitSamples.
Open Scope R_scope.
Variables (i0e i1e lgam : R -> R) (tol : R).
Variable G : Type.
Variable hash : Z -> nat -> string -> Z.
Variable next_state : G -> G.
Variable uniform_at : source G -> nat -> nat -> R.
Variable normal_at : source G -> nat -> nat -> nat -> R.
Variable beta_at : R -> R -> source G -> nat -> nat -> R.

Local Hint Extern 0 (Scalar R) =>
  exact (R_scalar i0e i1e lgam tol) : typeclass_instances.

Lemma real_dot_comm (x y : list R) : dot x y = dot y x.
Proof.
  revert y; induction x as [|a x IH]; intros [|b y].
  - reflexivity.
  - now rewrite real_dot_nil_l, real_dot_nil_r.
  - now rewrite real_dot_nil_l, real_dot_nil_r.
  - rewrite !real_dot_cons, IH. lra.
Qed.

(** The reflection keeps the length of [v] when the normal is a unit
    vector, or orthogonal to [v]. *)
Lemma reflect_norm (u v : list R) :
  List.length u = List.length v ->
  dot u u = 1 \/ dot v u = 0 ->
  dot (reflect u v) (reflect u v) = dot v v.
Proof.
  intros Hl H. rewrite real_reflect.
  set (s := 2 * dot v u).
  rewrite real_dot_axpy by assumption.
  rewrite (real_dot_comm v), (real_dot_comm u).
  rewrite !real_dot_axpy by assumption.
  rewrite (real_dot_comm u v). unfold s.
  destruct H as [-> | ->]; lra.
Qed.

Lemma reflect_length (u v : list R) :
  List.length u = List.length v ->
  List.length (reflect u v) = List.length v.
Proof.
  intros Hl. unfold reflect. rewrite zip_with_length, length_map, Hl.
  apply Nat.min_id.
Qed.

Lemma real_dot_scale_l (c : R) (x y : list R) :
  dot (map (fun a => c * a) x) (map (fun a => c * a) y) = c * c * dot x y.
Proof.
  rewrite <- real_dot_scale. f_equal; apply map_ext; intros a; lra.
Qed.

(** One sample about the basis vector: the first coordinate [w] and the
    normalised draw [o], normalised again. *)
Lemma assemble_vector_unit (w : R) (o : list R) :
  / 1000000000000 <= dot o o ->
  let v := l2_normalize
             ([w] ++ bcast_mul
                       (map (fun x => sqrtf (maximum (sub one (square x)) zero))
                          [w])
                       (l2_normalize o)) in
  List.length v = Datatypes.S (List.length o) /\ dot v v = 1.
Proof.
  intros Ho v. subst v. cbn [map bcast_mul app]. unfold square. real_ops.
  rewrite real_one, real_zero.
  split.
  - rewrite l2_normalize_length. cbn [List.length].
    now rewrite length_map, l2_normalize_length.
  - apply normalize_unit.
    rewrite real_dot_cons, real_dot_scale_l, normalize_unit by exact Ho.
    rewrite sqrt_sqrt by apply Rmax_r.
    pose proof (Rmax_l (1 - w * w) 0). nra.
Qed.

Lemma assemble_unit (k : nat) (w : list (list R))
    (normal : list (list (list R))) :
  Forall (Forall (fun o => List.length o = k /\
                           / 1000000000000 <= dot o o)) normal ->
  Forall (Forall (fun v => List.length v = Datatypes.S k /\ dot v v = 1))
    (assemble (map (map (fun wi => [wi])) w) normal).
Proof.
  intros H. unfold assemble. apply Forall_map.
  apply Forall_zip_with
    with (Qa := Forall (fun d0 : list R => exists wi, d0 = [wi]))
         (Qb := Forall (fun o' : list R =>
                          exists o, o' = l2_normalize o /\
                                    List.length o = k /\
                                    / 1000000000000 <= dot o o)).
  - intros wrow orow Hw Ho. apply Forall_map.
    apply Forall_zip_with with (2 := Hw) (3 := Ho).
    intros d0 o' [wi ->] (o & -> & Hk & He).
    rewrite <- Hk. exact (assemble_vector_unit wi o He).
  - apply Forall_map. apply Forall_forall. intros wrow _.
    apply Forall_map. apply Forall_forall. intros wi _. now exists wi.
  - apply Forall_map. revert H. apply Forall_impl. intros row Hrow.
    apply Forall_map. revert Hrow. apply Forall_impl. intros o [Hk He].
    now exists o.
Qed.

(** The rotation keeps unit vectors unit when every mean direction is
    the basis vector or at least [1e-6] away from it. *)
Lemma rotate_unit (d : VonMisesFisher R) (e1 : list R)
    (samples x : list (list (list R))) :
  basis (event_dim d) = Ok e1 ->
  Forall (fun m =>
            List.length m = event_dim d /\
            (dot (zip_with sub e1 m) (zip_with sub e1 m) = 0 \/
             / 1000000000000 <= dot (zip_with sub e1 m) (zip_with sub e1 m)))
    (mean_direction d) ->
  Forall (Forall (fun v => List.length v = event_dim d /\ dot v v = 1))
    samples ->
  _rotate d samples = Ok x ->
  Forall (Forall (fun v => norm v = 1)) x.
Proof.
  intros He Hm Hs. rewrite rotate_value with (1 := He). intros [= <-].
  apply Forall_map. revert Hs. apply Forall_impl. intros row Hrow.
  apply Forall_zip_with with (2 := Hm) (3 := Hrow).
  intros m v [Hlm Hd] [Hlv Hv].
  unfold norm. rewrite real_sum_squares, reflect_norm.
  - rewrite Hv. real_ops. apply sqrt_1.
  - rewrite l2_normalize_length, zip_with_length.
    rewrite basis_length with (1 := He).
    rewrite Hlm, Hlv. apply Nat.min_id.
  - destruct Hd as [Hd|Hd]; [right; now apply normalize_zero
                           | left; now apply normalize_unit].
Qed.

(** The first coordinates come one per sample and batch member. *)
Lemma first_coordinate_shape (d : VonMisesFisher R) (fuel n : nat)
    (seed0 : option Z) (stream stream' : SeedStream) (r r' : rng G)
    (x : list (list (list R))) :
  first_coordinate hash next_state uniform_at beta_at d fuel n seed0
    stream r = Done (x, stream') r' ->
  exists w, x = map (map (fun wi => [wi])) w.
Proof.
  unfold first_coordinate.
  assert (Hwood :
    wood_dim0 hash next_state uniform_at beta_at d fuel (event_dim d) n
      stream r = Done (x, stream') r' ->
    exists w, x = map (map (fun wi => [wi])) w).
  { intros H. unfold wood_dim0 in H.
    apply bindR_done in H as ([[w sc] st1] & r1 & _ & Hr).
    apply ret_done in Hr as [[= -> _] _]. now exists w. }
  destruct (event_shape_value d) as [[|[|[|[|D]]]]|]; try exact Hwood.
  intros H. apply bindR_done in H as (u & r1 & Hu & Hr).
  apply ret_done in Hr as [[= -> _] _].
  unfold _sample_3d in Hu.
  destruct (SeedStream_call hash _) as [s1 st1].
  apply bindR_done in Hu as (z & r2 & _ & Hu).
  apply bindR_done in Hu as (u' & r3 & _ & Hu).
  apply ret_done in Hu as [-> _]. now exists u'.
Qed.

Lemma random_normal_value (n B D : nat) (seed : option Z) (run : nat)
    (r r' : rng G) (x : list (list (list R))) :
  random_normal next_state normal_at n B D seed run r = Done x r' ->
  exists src, x = tabulate3 n B D (normal_at src).
Proof.
  unfold random_normal. intros H.
  apply bindR_done in H as (src & r1 & _ & H).
  apply ret_done in H as [-> _]. now exists src.
Qed.

Lemma if_check_numerics3_done (b : bool) (t t' : list (list (list R)))
    (tag : numerics_tag) (r r' : rng G) :
  (if b then lift (check_numerics3 t tag) else ret t) r = Done t' r' ->
  t' = t.
Proof.
  destruct b; intros H.
  - apply lift_done in H as [H _]. unfold check_numerics3 in H.
    destruct (forallb _ t); [now injection H | discriminate].
  - now apply ret_done in H.
Qed.

(** X2.  Every sample [sample(n, seed)] returns is a unit vector, when
    every mean direction is the basis vector or at least [1e-6] away from
    it, and no vector of the normal draw is shorter than [1e-6]. *)
Theorem samples_unit_norm (d : VonMisesFisher R) (e1 : list R)
    (fuel n : nat) (seed : option Z) (r r' : rng G)
    (x : list (list (list R))) :
  basis (event_dim d) = Ok e1 ->
  Forall (fun m =>
            List.length m = event_dim d /\
            (dot (zip_with sub e1 m) (zip_with sub e1 m) = 0 \/
             / 1000000000000 <= dot (zip_with sub e1 m) (zip_with sub e1 m)))
    (mean_direction d) ->
  (forall src i b,
      let o := map (normal_at src i b) (seq 0 (event_dim d - 1)) in
      / 1000000000000 <= dot o o) ->
  _sample_n hash next_state uniform_at normal_at beta_at d fuel n seed r
  = Done x r' ->
  Forall (Forall (fun v => norm v = 1)) x.
Proof.
  intros He Hm Hn H. unfold _sample_n in H.
  apply bindR_done in H as ([x0 stream] & r1 & H1 & H).
  apply first_coordinate_shape in H1 as [w ->].
  apply bindR_done in H as (? & r2 & _ & H).
  destruct (SeedStream_call hash stream) as [s1 st1].
  apply bindR_done in H as (normal & r3 & H3 & H).
  apply random_normal_value in H3 as [src ->].
  apply bindR_done in H as (samples & r4 & H4 & H).
  apply if_check_numerics3_done in H4. subst samples.
  apply bindR_done in H as (? & r5 & _ & H).
  apply bindR_done in H as (? & r6 & _ & H).
  apply lift_done in H as [H _].
  apply (rotate_unit d He Hm) with (2 := H).
  assert (HD : Datatypes.S (event_dim d - 1) = event_dim d).
  { destruct (event_dim d); [discriminate | lia]. }
  pose proof (@assemble_unit (event_dim d - 1) w
                (tabulate3 n (batch_size d) (event_dim d - 1)
                   (normal_at src))) as HA.
  rewrite HD in HA. apply HA.
  unfold tabulate3. apply Forall_map, Forall_forall. intros i _.
  apply Forall_map, Forall_forall. intros b _. split.
  - now rewrite length_map, length_seq.
  - apply Hn.
Qed.

(** *** The run at the basis vector itself *)

Lemma basis_mean_difference :
  dot (zip_with sub [one; zero] [1; 0]) (zip_with sub [one; zero] [1; 0]) = 0.
Proof.
  cbn [zip_with]. real_ops. rewrite real_one, real_zero.
  rewrite !real_dot_cons, real_dot_nil_l. lra.
Qed.

Lemma rotate_at_basis :
  _rotate (vmf 2 [[1; 0]] [0] false true) [[[0; 1]]] = Ok [[[0; 1]]].
Proof.
  rewrite (@rotate_value i0e i1e lgam tol (vmf 2 [[1; 0]] [0] false true)
             [one; zero] [[[0; 1]]] eq_refl).
  cbn [vmf mean_direction map zip_with]. do 3 f_equal.
  rewrite real_reflect, normalize_zero by apply basis_mean_difference.
  replace (2 * 0) with 0 by lra.
  apply real_axpy_zero. now rewrite l2_normalize_length.
Qed.

Lemma sample_at_basis (s : Z) (r : rng G) :
  _sample_n hash next_state (fun _ _ _ => 1 / 2) (fun _ _ _ _ => 1)
    (fun _ _ _ _ _ => 1 / 2) (vmf 2 [[1; 0]] [0] false true) 2 1 (Some s) r
  = Done [[[0; 1]]]
      {| ambient := ambient r;
         drawn := (drawn r
                   ++ [(Beta, Some (hash s 1 "vom_mises_fisher"));
                       (Uniform, Some (hash s 2 "vom_mises_fisher"))])
                  ++ [(Normal, Some (hash s 3 "vom_mises_fisher"))] |}.
Proof. rewrite zero_conc_sample_n, rotate_at_basis. reflexivity. Qed.

Lemma unit_normal_draw (D : nat) :
  (D = 2)%nat ->
  let o := map (fun _ : nat => 1) (seq 0 (D - 1)) in
  / 1000000000000 <= dot o o.
Proof.
  intros ->. cbn [Nat.sub seq map]. rewrite real_dot_cons, real_dot_nil_l. lra.
Qed.
End UnitSamples.

Lemma samples_unit_norm_witness :
  Forall (Forall (fun v =>
            @norm R (R_scalar (fun _ => 0%R) (fun _ => 0%R) (fun _ => 0%R) 0%R)
              v = 1%R))
    [[[0; 1]%R]].
Proof.
  apply (@samples_unit_norm
           (fun _ => 0%R) (fun _ => 0%R) (fun _ => 0%R) 0%R
           unit (fun _ _ _ => 0%Z) (fun g => g)
           (fun _ _ _ => (1 / 2)%R) (fun _ _ _ _ => 1%R)
           (fun _ _ _ _ _ => (1 / 2)%R)
           (vmf 2 [[1; 0]%R] [0%R] false true)
           [Q2R 1; Q2R 0] 2 1 (Some 0%Z)
           {| ambient := tt; drawn := [] |}
           {| ambient := tt;
              drawn := [(Beta, Some 0%Z); (Uniform, Some 0%Z);
                        (Normal, Some 0%Z)] |}).
  - reflexivity.
  - constructor; [|constructor]. split; [reflexivity|]. left.
    apply basis_mean_difference.
  - intros src i b.
    exact (@unit_normal_draw (fun _ => 0%R) (fun _ => 0%R) (fun _ => 0%R)
             0%R 2 eq_refl).
  - apply sample_at_basis.
Defined.

Lemma rotate_involution_witness :
  exists rotated,
    @_rotate R (R_scalar (fun _ => 0%R) (fun _ => 0%R) (fun _ => 0%R) 0%R)
      (vmf 2 [[1; 0]%R] [0%R] false true) [[[0; 1]%R]] = Ok rotated /\
    @_rotate R (R_scalar (fun _ => 0%R) (fun _ => 0%R) (fun _ => 0%R) 0%R)
      (vmf 2 [[1; 0]%R] [0%R] false true) rotated = Ok [[[0; 1]%R]].
Proof.
  apply (@rotate_involution
           (fun _ => 0%R) (fun _ => 0%R) (fun _ => 0%R) 0%R
           (vmf 2 [[1; 0]%R] [0%R] false true) [Q2R 1; Q2R 0]
           [[[0; 1]%R]]).
  - reflexivity.
  - constructor; [|constructor]. split; [reflexivity|]. left.
    apply basis_mean_difference.
  - repeat constructor.
Defined.

(** ** The orders the evaluator supports, and its cache *)

Section BesselOrders.
Context {F : Type} {S : Scalar F}.
Open Scope scalar_scope.

Ltac order_tests :=
  repeat first
    [ rewrite Qeq_bool_true by lra
    | rewrite Qeq_bool_false by lra
    | rewrite Qle_bool_true by lra
    | rewrite Qle_bool_false by lra ].

(** An order that is none of the four base cases fills no entry. *)
Lemma bessel_base_other (v : Q) (z : list F) (c : cache_t) :
  ~ (v == 0)%Q -> ~ (v == 1)%Q -> ~ (v == 1 # 2)%Q -> ~ (v == - (1 # 2))%Q ->
  bessel_base v z c = c.
Proof.
  intros H0 H1 H2 H3. unfold bessel_base.
  rewrite !Qeq_bool_false by assumption. reflexivity.
Qed.

(** [return wrap(cache[v])] at an order up to 1 that no branch filled. *)
Lemma bessel_ive_missing_low (v : Q) (z : list F) :
  (v <= 1)%Q ->
  ~ (v == 0)%Q -> ~ (v == 1)%Q -> ~ (v == 1 # 2)%Q -> ~ (v == - (1 # 2))%Q ->
  _bessel_ive v z = Err (KeyError v).
Proof.
  intros Hv H0 H1 H2 H3. unfold _bessel_ive.
  rewrite bessel_ive_rec_base by assumption.
  rewrite bessel_base_other by assumption. reflexivity.
Qed.

(** Between 1 and 2 the recurrence asks first for the order [v - 2]. *)
Lemma bessel_ive_missing_mid (v : Q) (z : list F) :
  (1 < v)%Q -> (v < 2)%Q -> ~ (v == 3 # 2)%Q ->
  _bessel_ive v z = Err (KeyError (v - 2)).
Proof.
  intros H1 H2 H3. unfold _bessel_ive.
  rewrite bessel_ive_rec_step;
    [| apply Qle_bool_false; lra | reflexivity | apply Qle_bool_false; lra].
  rewrite bessel_base_other by lra.
  rewrite bessel_ive_rec_base by lra.
  rewrite bessel_base_other by lra. reflexivity.
Qed.

Lemma cache_get_set (c : cache_t) (v : Q) (t : list F) :
  cache_get (cache_set c v t) v = Some t.
Proof.
  induction c as [|[k t'] c IH]; cbn [cache_set cache_get].
  - now rewrite Qeq_bool_refl.
  - destruct (Qeq_bool k v) eqn:E; cbn [cache_get]; rewrite E;
      [reflexivity | exact IH].
Qed.

Lemma cache_set_not_empty (c : cache_t) (v : Q) (t : list F) :
  cache_set c v t <> [].
Proof.
  destruct c as [|[k t'] c]; cbn [cache_set]; [discriminate|].
  destruct (Qeq_bool k v); discriminate.
Qed.

Lemma wrap_ok (v : Q) (t r : list F) :
  wrap v t = Ok r -> r = t /\ wrap v r = Ok r.
Proof.
  unfold wrap. intros H. apply check_numerics_ok in H as [-> H].
  split; [reflexivity|]. now apply check_numerics_finite.
Qed.

Lemma bessel_base_get (v : Q) (z : list F) (c : cache_t) (t : list F) :
  cache_get c v = None ->
  cache_item (bessel_base v z c) v = Ok t ->
  cache_get (bessel_base v z c) v = Some t /\ bessel_base v z c <> [].
Proof.
  intros Hc. unfold cache_item.
  destruct (cache_get (bessel_base v z c) v) as [t'|] eqn:E; [|discriminate].
  intros [= ->]. split; [reflexivity|].
  intros Hn. rewrite Hn in E. discriminate.
Qed.

(** X4.  The cache of [_bessel_ive].  A call that is given an empty dict
    writes to a dict of its own ([cache = cache or {}]): the caller's
    stays empty.  A call that is given a dict that is not empty leaves
    its result stored under the order [v], and from then on every call
    at that order with that dict returns the stored tensor, whatever its
    argument [z'] is. *)
Theorem bessel_ive_cache (fuel : nat) (v : Q) (z : list F) (c c' : cache_t)
    (r : list F) :
  bessel_ive_rec fuel v z c = Ok (r, c') ->
  (c = [] -> c' = []) /\
  (c <> [] ->
   cache_get c' v = Some r /\
   forall (fuel' : nat) (z' : list F),
     bessel_ive_rec (Datatypes.S fuel') v z' c' = Ok (r, c')).
Proof.
  intros H. destruct fuel as [|fuel]; [discriminate|].
  cbn [bessel_ive_rec] in H.
  destruct (Qle_bool 2 v) eqn:H2; [discriminate|].
  assert (Hit : forall c1,
             cache_get c1 v = Some r -> wrap v r = Ok r ->
             forall (fuel' : nat) (z' : list F),
               bessel_ive_rec (Datatypes.S fuel') v z' c1 = Ok (r, c1)).
  { intros c1 Hg Hw fuel' z'. cbn [bessel_ive_rec].
    rewrite H2, Hg, Hw. reflexivity. }
  destruct (cache_get c v) as [t|] eqn:Hc.
  - destruct (wrap v t) as [r0|] eqn:Hw; [|discriminate].
    cbn [bind] in H. injection H as <- <-.
    apply wrap_ok in Hw as [-> Hw]. split.
    + intros ->. discriminate.
    + intros _. split; [assumption|]. now apply Hit.
  - destruct (Qle_bool v 1) eqn:H1.
    + destruct (cache_item (bessel_base v z c) v) as [t|] eqn:Ht;
        [|discriminate].
      cbn [bind] in H. destruct (wrap v t) as [r0|] eqn:Hw; [|discriminate].
      cbn [bind] in H. injection H as <- <-.
      apply wrap_ok in Hw as [-> Hw].
      apply bessel_base_get in Ht as [Hg Hne]; [|assumption].
      split.
      * intros ->. reflexivity.
      * intros Hn. destruct c as [|e c]; [now elim Hn|].
        split; [assumption|]. now apply Hit.
    + destruct (bessel_ive_rec fuel (v - 2) z (bessel_base v z c))
        as [[a l1]|]; [|discriminate].
      cbn [bind] in H.
      destruct (bessel_ive_rec fuel (v - 1) z l1) as [[b l2]|];
        [|discriminate].
      cbn [bind] in H.
      destruct (wrap v _) as [r0|] eqn:Hw; [|discriminate].
      cbn [bind] in H. injection H as <- <-.
      apply wrap_ok in Hw as [-> Hw]. split.
      * intros ->. reflexivity.
      * intros Hn. destruct c as [|e c]; [now elim Hn|].
        split; [apply cache_get_set|].
        apply Hit; [apply cache_get_set | assumption].
Qed.
End BesselOrders.

(** At order 3/2 the recurrence divides by [z]: at [z = 0] the value is
    not finite. *)
Section BesselAtZero.
Open Scope R_scope.
Variables (i0e i1e lgam : R -> R) (tol : R).

Local Hint Extern 0 (Scalar xreal) =>
  exact (X_scalar i0e i1e lgam tol) : typeclass_instances.

Lemma x_sqrt_2_over_pi : (sqrt_2_over_pi : xreal) = Fin (sqrt (Q2R 2 / PI)).
Proof.
  unfold sqrt_2_over_pi, two. cbn [sqrtf div pi of_Q X_scalar xdiv xsqrt].
  destruct (Req_dec_T PI 0) as [H|_]; [pose proof PI_RGT_0; lra|].
  cbn [xsqrt].
  destruct (Rlt_dec (Q2R 2 / PI) 0) as [H|_]; [|reflexivity].
  exfalso. pose proof PI_RGT_0 as Hp.
  assert (0 < Q2R 2 / PI).
  { apply Rdiv_lt_0_compat; [unfold Q2R; simpl; lra | exact Hp]. }
  lra.
Qed.

Lemma x_bessel_3half_zero (v : Q) :
  (v == 3 # 2)%Q ->
  _bessel_ive v [Fin 0] = Err (CheckNumericsError (besseli v)).
Proof.
  intros H. rewrite bessel_ive_order_3half by assumption.
  cbn [map]. rewrite x_sqrt_2_over_pi.
  unfold coshe, sinhe, rsqrt_or_one, gt0, zero, one, two.
  cbn [sub add neg absf expf div mul ltb of_Q X_scalar xsub xadd xneg xabs xexp xdiv xmul xltb].
  destruct (Req_dec_T (Q2R 2) 0) as [H2|_];
    [exfalso; revert H2; unfold Q2R; simpl; lra|].
  unfold Rltb.
  destruct (Rlt_dec (Q2R 0) 0) as [H0|_];
    [exfalso; revert H0; unfold Q2R; simpl; lra|].
  cbn [xmul]. unfold wrap, check_numerics, all_finite.
  cbn [forallb is_finite X_scalar xfinite andb bind map zip_with xdiv].
  destruct (Req_dec_T 0 0) as [_|Hn]; [|now elim Hn].
  unfold signed_inf.
  destruct (Req_dec_T _ 0); [reflexivity|].
  destruct (Rlt_dec 0 _); reflexivity.
Qed.
End BesselAtZero.

Section BesselOrdersReal.
Open Scope R_scope.
Variables (i0e i1e lgam : R -> R) (tol : R).

Local Hint Extern 0 (Scalar R) =>
  exact (R_scalar i0e i1e lgam tol) : typeclass_instances.

(** X3.  The orders [_bessel_ive(v, z)] evaluates.  Over the reals a call
    without a cache returns a tensor of the shape of [z] exactly at the
    orders -1/2, 0, 1/2 and 1, and at the order 3/2 when no entry of [z]
    is 0: there the recurrence divides by [z], and with the IEEE special
    values the call at [z = [0]] raises from its numerics check.  An
    order of 2 or more raises the [ValueError]; every other order up to
    1 raises [KeyError(v)] at [cache[v]]; every other order between 1
    and 2 raises [KeyError(v - 2)] from the first call of the
    recurrence. *)
Theorem bessel_ive_supported_orders (v : Q) (z : list R) :
  ((v == - (1 # 2) \/ v == 0 \/ v == 1 # 2 \/ v == 1)%Q \/
   ((v == 3 # 2)%Q /\ Forall (fun x => x <> 0) z) ->
   exists t, _bessel_ive v z = Ok t /\ List.length t = List.length z) /\
  ((v == 3 # 2)%Q ->
   @_bessel_ive xreal (X_scalar i0e i1e lgam tol) v [Fin 0]
   = Err (CheckNumericsError (besseli v))) /\
  ((2 <= v)%Q ->
   _bessel_ive v z
   = Err (ValueError
            "Evaluating bessel_i by recurrence becomes imprecise for large v"))
  /\
  ((v <= 1)%Q ->
   ~ (v == - (1 # 2) \/ v == 0 \/ v == 1 # 2 \/ v == 1)%Q ->
   _bessel_ive v z = Err (KeyError v)) /\
  ((1 < v)%Q -> (v < 2)%Q -> ~ (v == 3 # 2)%Q ->
   _bessel_ive v z = Err (KeyError (v - 2))).
Proof.
  split; [|split; [|split; [|split]]].
  - intros [[H|[H|[H|H]]]|[H _]]; eexists.
    + rewrite real_bessel_minus_half by assumption.
      split; [reflexivity | apply length_map].
    + rewrite real_bessel_0 by assumption.
      split; [reflexivity | apply length_map].
    + rewrite real_bessel_half by assumption.
      split; [reflexivity | apply length_map].
    + rewrite real_bessel_1 by assumption.
      split; [reflexivity | apply length_map].
    + rewrite real_bessel_3half by assumption.
      split; [reflexivity | apply length_map].
  - apply x_bessel_3half_zero.
  - apply bessel_ive_large_order.
  - intros Hv Hn. apply bessel_ive_missing_low; [assumption|..];
      intros H; apply Hn; tauto.
  - apply bessel_ive_missing_mid.
Qed.
End BesselOrdersReal.

Lemma bessel_ive_cache_witness :
  (([(1%Q, [5%R])] : list (Q * list R)) = [] ->
   [(1%Q, [5%R]); (0%Q, [0%R])] = []) /\
  (([(1%Q, [5%R])] : list (Q * list R)) <> [] ->
   cache_get [(1%Q, [5%R]); (0%Q, [0%R])] 0 = Some [0%R] /\
   forall (fuel' : nat) (z' : list R),
     @bessel_ive_rec R
       (R_scalar (fun _ => 0%R) (fun _ => 0%R) (fun _ => 0%R) 0%R)
       (Datatypes.S fuel') 0 z' [(1%Q, [5%R]); (0%Q, [0%R])]
     = Ok ([0%R], [(1%Q, [5%R]); (0%Q, [0%R])])).
Proof.
  apply (@bessel_ive_cache R
           (R_scalar (fun _ => 0%R) (fun _ => 0%R) (fun _ => 0%R) 0%R)
           1 0 [1%R] [(1%Q, [5%R])] [(1%Q, [5%R]); (0%Q, [0%R])] [0%R]).
  reflexivity.
Defined.

(** ** What construction and validation check *)

Section Validation.
Context {F : Type} {S : Scalar F}.
Open Scope scalar_scope.

Lemma run_assertions_ok (l : list (bool * string)) :
  is_ok (run_assertions l) = forallb fst l.
Proof.
  unfold run_assertions. induction l as [|[b msg] l IH]; [reflexivity|].
  cbn [find forallb fst negb]. destruct b; cbn [negb andb]; [exact IH|].
  reflexivity.
Qed.

Lemma run_assertions_inv (l : list (bool * string)) (u : unit) :
  run_assertions l = Ok u -> forallb fst l = true.
Proof.
  intros H. rewrite <- run_assertions_ok, H. reflexivity.
Qed.

Lemma forallb_fst_app (l l' : list (bool * string)) :
  forallb fst (l ++ l') = forallb fst l && forallb fst l'.
Proof. apply forallb_app. Qed.


(** X6.  Under [validate_args], [_log_prob] returns only for samples it
    has checked: every sample is within tolerance of unit length and has
    the event size of the distribution. *)
Theorem log_prob_validates (d : VonMisesFisher F) (x : list (list F))
    (lp : list F) :
  validate_args d = true ->
  _log_prob d x = Ok lp ->
  Forall (fun xi => near near_tol near_tol one (norm xi) = true /\
                    List.length xi = event_dim d) x.
Proof.
  intros Hv H. unfold _log_prob in H.
  destruct (_maybe_assert_valid_sample d x) as [x'|] eqn:E; [|discriminate].
  clear H. unfold _maybe_assert_valid_sample in E. rewrite Hv in E.
  cbn [negb] in E.
  destruct (run_assertions _) as [u|] eqn:Ea; [|discriminate].
  apply run_assertions_inv in Ea. cbn [forallb fst] in Ea.
  rewrite andb_true_r in Ea. apply andb_prop in Ea as [H1 H2].
  rewrite forallb_forall in H1, H2. apply Forall_forall. intros xi Hi.
  split; [now apply H1|]. apply Nat.eqb_eq. now apply H2.
Qed.
End Validation.

Section ValidatedExample.
Open Scope R_scope.

Local Hint Extern 0 (Scalar R) =>
  exact (R_scalar (fun _ => 0) (fun _ => 0) (fun _ => 0) 0)
  : typeclass_instances.

Lemma norm_basis_3 : norm [1; 0; 0] = 1.
Proof.
  unfold norm. rewrite real_sum_squares, !real_dot_cons, real_dot_nil_l.
  real_ops. replace (1 * 1 + (0 * 0 + (0 * 0 + 0))) with 1 by lra.
  apply sqrt_1.
Qed.

Lemma validated_sample :
  _maybe_assert_valid_sample (vmf 3 [[0; 1; 0]] [1] true true) [[1; 0; 0]]
  = Ok [[1; 0; 0]].
Proof.
  unfold _maybe_assert_valid_sample.
  cbn [vmf validate_args negb forallb event_dim List.length Nat.eqb andb].
  rewrite norm_basis_3. unfold near. real_ops. rewrite real_one.
  replace (Rabs (1 - 1)) with 0 by (rewrite Rminus_diag, Rabs_R0; reflexivity).
  unfold Rleb. destruct (Rle_dec 0 (0 + 0 * Rabs 1)) as [_|H];
    [reflexivity | exfalso; apply H; lra].
Qed.

Lemma validated_log_prob :
  exists lp,
    _log_prob (vmf 3 [[0; 1; 0]] [1] true true) [[1; 0; 0]] = Ok lp.
Proof.
  destruct (@real_bessel_supported (fun _ => 0) (fun _ => 0) (fun _ => 0) 0
              3 ltac:(lia)) as [f Hf].
  eexists.
  apply log_prob_from_parts;
    [apply validated_sample | reflexivity | reflexivity
    | repeat constructor | repeat constructor | | ].
  - apply log_normalization_from_values with (D := 3%nat) (f := f);
      [reflexivity | apply Hf].
  - now rewrite length_map.
Qed.
End ValidatedExample.

Lemma log_prob_validates_witness :
  Forall (fun xi =>
            @near R (R_scalar (fun _ => 0%R) (fun _ => 0%R) (fun _ => 0%R) 0%R)
              0%R 0%R (Q2R 1)
              (@norm R
                 (R_scalar (fun _ => 0%R) (fun _ => 0%R) (fun _ => 0%R) 0%R)
                 xi) = true /\
            List.length xi = 3%nat)
    [[1; 0; 0]%R].
Proof.
  destruct validated_log_prob as [lp H].
  exact (@log_prob_validates R
           (R_scalar (fun _ => 0%R) (fun _ => 0%R) (fun _ => 0%R) 0%R)
           (vmf 3 [[0; 1; 0]%R] [1%R] true true) [[1; 0; 0]%R] lp
           eq_refl H).
Defined.

(** ** Three dimensions in closed form *)

Section ThreeDimensions.
Open Scope R_scope.
Variables (i0e i1e lgam : R -> R) (tol : R).

Local Hint Extern 0 (Scalar R) =>
  exact (R_scalar i0e i1e lgam tol) : typeclass_instances.

Lemma sinh_pos (x : R) : 0 < x -> 0 < sinh x.
Proof.
  intros H. unfold sinh.
  assert (exp (- x) < exp x) by (apply exp_increasing; lra). lra.
Qed.

Lemma Q2R_half_3 : Q2R (half 3) = 3 / 2.
Proof. rewrite Q2R_half. simpl. lra. Qed.

Lemma Q2R_half_3_minus_1 : Q2R (half 3 - 1) = 1 / 2.
Proof.
  unfold Qminus. rewrite Q2R_plus, Q2R_opp, Q2R_half_3.
  unfold Q2R; simpl. lra.
Qed.

Lemma ln_sqrt_half (x : R) : 0 < x -> ln (sqrt x) = / 2 * ln x.
Proof.
  intros H. assert (Hs : 0 < sqrt x) by now apply sqrt_lt_R0.
  rewrite <- (sqrt_sqrt x) at 2 by lra. rewrite ln_mult by assumption. lra.
Qed.

(** The logarithm of the scaled Bessel function of order 1/2. *)
Lemma ln_Ive_half (k : R) :
  0 < k ->
  ln (sqrt (2 / PI) * (sinh k * exp (- Rabs k)) * / sqrt k)
  = / 2 * (ln 2 - ln PI) + ln (sinh k) - k - / 2 * ln k.
Proof.
  intros Hk.
  pose proof PI_RGT_0 as Hpi. pose proof (sinh_pos Hk) as Hs.
  assert (H2pi : 0 < 2 / PI) by (apply Rdiv_lt_0_compat; lra).
  assert (Hq : 0 < sqrt (2 / PI)) by now apply sqrt_lt_R0.
  assert (Hsk : 0 < sqrt k) by now apply sqrt_lt_R0.
  assert (He : 0 < exp (- Rabs k)) by apply exp_pos.
  rewrite ln_mult; [| | now apply Rinv_0_lt_compat].
  2:{ apply Rmult_lt_0_compat; [assumption|].
      now apply Rmult_lt_0_compat. }
  rewrite ln_mult; [|assumption | now apply Rmult_lt_0_compat].
  rewrite ln_mult by assumption.
  rewrite ln_exp, ln_Rinv by assumption.
  rewrite !ln_sqrt_half by assumption.
  unfold Rdiv at 1. rewrite ln_mult; [|lra | now apply Rinv_0_lt_compat].
  rewrite ln_Rinv by assumption.
  rewrite Rabs_right by lra. lra.
Qed.

(** X7.  In three dimensions [_log_normalization] is the logarithm of
    the textbook normaliser: [log(4 pi sinh(kappa) / kappa)] where
    [kappa > 0], and the log-area of the sphere, written with the
    log-gamma kernel, elsewhere. *)
Theorem log_normalization_3d (d : VonMisesFisher R) :
  static_shape d = true ->
  event_dim d = 3%nat ->
  _log_normalization d
  = Ok (map (fun k =>
               if Rlt_dec 0 k then ln (4 * PI * sinh k / k)
               else ln 2 + 3 / 2 * ln PI - lgam (3 / 2))
          (concentration d)).
Proof.
  intros Hs HD.
  assert (HE : event_shape_value d = Some 3%nat).
  { unfold event_shape_value, static_event_dim. now rewrite Hs, HD. }
  rewrite (log_normalization_from_values d _ HE
             (real_bessel_half i0e i1e lgam tol (v := half 3 - 1) _
                ltac:(reflexivity))).
  f_equal. apply map_ext. intros k. rewrite real_gt0.
  real_ops. rewrite real_two, real_one, Q2R_half_3, Q2R_half_3_minus_1.
  destruct (Rlt_dec 0 k) as [Hk|Hk]; [|lra].
  rewrite ln_Ive_half by assumption.
  pose proof PI_RGT_0 as Hpi. pose proof (sinh_pos Hk) as Hsh.
  rewrite (ln_mult 2 PI) by lra.
  unfold Rdiv at 3. rewrite ln_mult;
    [| apply Rmult_lt_0_compat; lra | now apply Rinv_0_lt_compat].
  rewrite ln_Rinv by assumption.
  rewrite ln_mult; [| lra | assumption].
  rewrite ln_mult by lra.
  replace 4 with (2 * 2) by lra. rewrite ln_mult by lra.
  rewrite Rabs_right by lra. lra.
Qed.

(** The ratio of the scaled Bessel functions of orders 3/2 and 1/2 is
    the Langevin function. *)
Lemma Ive_ratio (k : R) :
  0 < k ->
  (sqrt (2 / PI) * (cosh k * exp (- Rabs k)) * / sqrt k
   - 1 * (sqrt (2 / PI) * (sinh k * exp (- Rabs k)) * / sqrt k) / k)
  / (sqrt (2 / PI) * (sinh k * exp (- Rabs k)) * / sqrt k)
  = cosh k / sinh k - 1 / k.
Proof.
  intros Hk.
  pose proof PI_RGT_0 as Hpi. pose proof (sinh_pos Hk) as Hs.
  assert (H2pi : 0 < 2 / PI) by (apply Rdiv_lt_0_compat; lra).
  assert (Hq : 0 < sqrt (2 / PI)) by now apply sqrt_lt_R0.
  assert (Hsk : 0 < sqrt k) by now apply sqrt_lt_R0.
  assert (He : 0 < exp (- Rabs k)) by apply exp_pos.
  field. repeat split; lra.
Qed.

(** X8.  In three dimensions [_mean] is the mean direction scaled by the
    Langevin function, [coth(kappa) - 1/kappa], where [kappa > 0], and
    the zero vector elsewhere, one row per member of the batch:
    [concentration] and [mean_direction] are broadcast against each
    other, and sizes that do not broadcast raise. *)
Theorem mean_3d (d : VonMisesFisher R) :
  static_shape d = true ->
  event_dim d = 3%nat ->
  _mean d
  = broadcast_with
      (fun k m =>
         if Rlt_dec 0 k
         then map (fun a => a * (cosh k / sinh k - 1 / k)) m
         else map (fun _ => 0) m)
      (concentration d) (mean_direction d).
Proof.
  intros Hs HD.
  assert (HE : event_shape_value d = Some 3%nat).
  { unfold event_shape_value, static_event_dim. now rewrite Hs, HD. }
  rewrite (mean_from_values d _ _ HE
             (real_bessel_3half i0e i1e lgam tol (v := half 3) _
                ltac:(reflexivity))
             (real_bessel_half i0e i1e lgam tol (v := half 3 - 1) _
                ltac:(reflexivity))).
  apply broadcast_with_ext. intros k m. rewrite real_gt0.
  destruct (Rlt_dec 0 k) as [Hk|Hk].
  - apply map_ext. intros a. real_ops. f_equal. now apply Ive_ratio.
  - apply map_ext. intros a. apply real_zero.
Qed.
End ThreeDimensions.

Lemma log_normalization_3d_witness :
  @_log_normalization R
    (R_scalar (fun _ => 0%R) (fun _ => 0%R) (fun _ => 0%R) 0%R) vmf_example
  = Ok (map (fun k =>
               if Rlt_dec 0 k then ln (4 * PI * sinh k / k)
               else ln 2 + 3 / 2 * ln PI - 0)%R
          [1%R]).
Proof.
  exact (@log_normalization_3d (fun _ => 0%R) (fun _ => 0%R) (fun _ => 0%R)
           0%R vmf_example eq_refl eq_refl).
Defined.

Lemma mean_3d_witness :
  @_mean R (R_scalar (fun _ => 0%R) (fun _ => 0%R) (fun _ => 0%R) 0%R)
    (vmf 3 [[0; 1; 0]%R] [1; 2]%R false true)
  = broadcast_with
      (fun k m =>
         if Rlt_dec 0 k
         then map (fun a => a * (cosh k / sinh k - 1 / k))%R m
         else map (fun _ => 0%R) m)
      [1; 2]%R [[0; 1; 0]%R].
Proof.
  exact (@mean_3d (fun _ => 0%R) (fun _ => 0%R) (fun _ => 0%R) 0%R
           (vmf 3 [[0; 1; 0]%R] [1; 2]%R false true) eq_refl eq_refl).
Defined.

(** ** The mode *)

Section ModeReal.
Open Scope R_scope.
Variables (i0e i1e lgam : R -> R) (tol : R).

Local Hint Extern 0 (Scalar R) =>
  exact (R_scalar i0e i1e lgam tol) : typeclass_instances.

(** Adding the zeros of [concentration] leaves a mean direction as it
    is. *)
Lemma real_add_zero (m : list R) : map (fun a => add a zero) m = m.
Proof.
  rewrite <- (map_id m) at 2. apply map_ext. intros a. real_ops.
  rewrite real_zero. lra.
Qed.

Lemma real_dot_mean_bound (x m : list R) :
  2 * dot x m <= dot x x + dot m m.
Proof.
  revert m; induction x as [|a x IH]; intros [|b m].
  - rewrite !real_dot_nil_l. lra.
  - rewrite !real_dot_nil_l. pose proof (@real_dot_nonneg i0e i1e lgam tol (b :: m)). lra.
  - rewrite real_dot_nil_r, real_dot_nil_l.
    pose proof (@real_dot_nonneg i0e i1e lgam tol (a :: x)). lra.
  - rewrite !real_dot_cons. pose proof (IH m).
    pose proof (pow2_ge_0 (a - b)). nra.
Qed.

(** The row product of two vectors of one length sums to their inner
    product. *)
Lemma row_product_dot (D : nat) (x m p : list R) :
  List.length x = D -> List.length m = D ->
  broadcast_with mul x (map (fun c => add c zero) m) = Ok p ->
  reduce_sum p = dot x m.
Proof.
  intros Hx Hm. rewrite real_add_zero.
  rewrite broadcast_with_same by congruence. now intros [= <-].
Qed.

(** X9.  The mean direction is where the density peaks: for unit mean
    directions and non-negative concentrations, the log-density of any
    sample no longer than 1 is at most the log-density of [_mode], batch
    member by batch member, whatever broadcasts along the batch; the
    samples and the mean directions have the event size of the
    distribution. *)
Theorem mode_maximizes_log_prob (d : VonMisesFisher R)
    (x mo : list (list R)) (lp lpm : list R) :
  Forall (fun k => 0 <= k) (concentration d) ->
  Forall (fun m => dot m m = 1) (mean_direction d) ->
  Forall (fun xi => dot xi xi <= 1) x ->
  Forall (fun m => List.length m = event_dim d) (mean_direction d) ->
  Forall (fun xi => List.length xi = event_dim d) x ->
  _log_prob d x = Ok lp ->
  _mode d = Ok mo ->
  _log_prob d mo = Ok lpm ->
  forall (i : nat) (a b : R),
    nth_error lp i = Some a -> nth_error lpm i = Some b -> a <= b.
Proof.
  intros Hk Hm Hx Hmr Hxr H1 Hmo H2 i a b Ha Hb.
  destruct (@log_prob_entry R _ d x lp i a H1 Ha)
    as (k & xi & m & nrm & norms & p & Hki & Hxi & Hmi & Hn & Hnrm & Hp & ->).
  destruct (@log_prob_entry R _ d mo lpm i b H2 Hb)
    as (k' & mi & m' & nrm' & norms' & p' & Hki' & Hmoi & Hmi' & Hn' & Hnrm'
        & Hp' & ->).
  rewrite Hki in Hki'. injection Hki' as <-.
  rewrite Hmi in Hmi'. injection Hmi' as <-.
  rewrite Hn in Hn'. injection Hn' as <-.
  rewrite Hnrm in Hnrm'. injection Hnrm' as <-.
  unfold _mode, bcast_mean_dir in Hmo.
  destruct (@broadcast_with_bcast_nth _ _ _ _ _ _ _ _ _ Hmo Hmoi)
    as (m' & z0 & Hm' & Hz & ->).
  rewrite Hmi in Hm'. injection Hm' as <-.
  unfold zeros_like in Hz. rewrite bcast_nth_map, Hki in Hz.
  injection Hz as <-. rewrite real_add_zero in Hp'.
  rewrite Forall_forall in Hk, Hm, Hx, Hmr, Hxr.
  pose proof (@bcast_nth_In _ _ _ _ Hki) as Ik.
  pose proof (@bcast_nth_In _ _ _ _ Hmi) as Im.
  pose proof (@bcast_nth_In _ _ _ _ Hxi) as Ix.
  rewrite (@row_product_dot _ _ _ _ (Hxr _ Ix) (Hmr _ Im) Hp).
  rewrite (@row_product_dot _ _ _ _ (Hmr _ Im) (Hmr _ Im) Hp').
  pose proof (real_dot_mean_bound xi m) as Hb'.
  pose proof (Hk _ Ik). pose proof (Hm _ Im) as Hm1. pose proof (Hx _ Ix).
  rewrite Hm1 in Hb' |- * . real_ops. nra.
Qed.
End ModeReal.
Section ModeExample.
Open Scope R_scope.

Local Hint Extern 0 (Scalar R) =>
  exact (R_scalar (fun _ => 0) (fun _ => 0) (fun _ => 0) 0)
  : typeclass_instances.

Lemma example_log_prob (x : list R) :
  List.length x = 3%nat ->
  _log_prob vmf_example [x]
  = Ok (zip_with sub
          (zip_with mul (concentration vmf_example)
             (zip_with dot [x]
                (map (map (fun a => add a zero))
                   (mean_direction vmf_example))))
          [- scenario_bracket]).
Proof.
  intros Hx.
  apply log_prob_from_parts;
    [reflexivity | reflexivity | reflexivity | repeat constructor
    | repeat constructor; exact Hx | apply scenario_normalization
    | reflexivity].
Qed.

Lemma example_mode :
  _mode vmf_example = Ok [map (fun a => add a zero) [0; 1; 0]].
Proof. reflexivity. Qed.

Lemma example_mode_log_prob :
  _log_prob vmf_example [map (fun a => add a zero) [0; 1; 0]]
  = Ok (zip_with sub
          (zip_with mul (concentration vmf_example)
             (zip_with dot [map (fun a => add a zero) [0; 1; 0]]
                (map (map (fun a => add a zero))
                   (mean_direction vmf_example))))
          [- scenario_bracket]).
Proof. now apply example_log_prob. Qed.

Lemma example_mean_unit : Forall (fun m => dot m m = 1) [[0; 1; 0]].
Proof.
  constructor; [|constructor].
  rewrite !real_dot_cons, real_dot_nil_l. lra.
Qed.

Lemma example_sample_unit : Forall (fun x => dot x x <= 1) [[1; 0; 0]].
Proof.
  constructor; [|constructor].
  rewrite !real_dot_cons, real_dot_nil_l. lra.
Qed.

Lemma example_concentration : Forall (fun k => 0 <= k) [1].
Proof. constructor; [lra | constructor]. Qed.

Lemma example_rows (x : list R) :
  List.length x = 3%nat -> Forall (fun xi => List.length xi = 3%nat) [x].
Proof. intros H. now repeat constructor. Qed.
End ModeExample.

Lemma mode_maximizes_log_prob_witness :
  exists (mo : list (list R)) (lp lpm : list R) (a b : R),
    @_log_prob R (R_scalar (fun _ => 0%R) (fun _ => 0%R) (fun _ => 0%R) 0%R)
      vmf_example [[1; 0; 0]%R] = Ok lp /\
    @_mode R (R_scalar (fun _ => 0%R) (fun _ => 0%R) (fun _ => 0%R) 0%R)
      vmf_example = Ok mo /\
    @_log_prob R (R_scalar (fun _ => 0%R) (fun _ => 0%R) (fun _ => 0%R) 0%R)
      vmf_example mo = Ok lpm /\
    nth_error lp 0 = Some a /\ nth_error lpm 0 = Some b /\ (a <= b)%R.
Proof.
  do 5 eexists.
  split; [apply example_log_prob; reflexivity|].
  split; [apply example_mode|].
  split; [apply example_mode_log_prob|].
  split; [reflexivity|]. split; [reflexivity|].
  exact (@mode_maximizes_log_prob
           (fun _ => 0%R) (fun _ => 0%R) (fun _ => 0%R) 0%R
           vmf_example [[1; 0; 0]%R] _ _ _
           example_concentration example_mean_unit example_sample_unit
           (example_rows [0; 1; 0]%R eq_refl)
           (example_rows [1; 0; 0]%R eq_refl)
           (example_log_prob [1; 0; 0]%R eq_refl) example_mode
           example_mode_log_prob 0%nat _ _
           eq_refl eq_refl).
Defined.

(** ** The geometry of the rotation *)

Section RotateGeometry.
Open Scope R_scope.
Variables (i0e i1e lgam : R -> R) (tol : R).

Local Hint Extern 0 (Scalar R) =>
  exact (R_scalar i0e i1e lgam tol) : typeclass_instances.

Lemma real_dot_sub_l (a b w : list R) :
  List.length a = List.length b ->
  dot (zip_with sub a b) w = dot a w - dot b w.
Proof.
  revert b w; induction a as [|a0 a IH]; intros [|b0 b] w; simpl;
    try discriminate.
  - intros _. rewrite real_dot_nil_l. lra.
  - intros [= Hl]. destruct w as [|w0 w].
    + rewrite !real_dot_nil_r. lra.
    + change (zip_with sub (a0 :: a) (b0 :: b))
        with ((a0 - b0) :: zip_with sub a b).
      rewrite !real_dot_cons, IH by assumption. lra.
Qed.

Lemma real_dot_sub_sub (a b : list R) :
  List.length a = List.length b ->
  dot (zip_with sub a b) (zip_with sub a b)
  = dot a a - 2 * dot a b + dot b b.
Proof.
  intros Hl. rewrite real_dot_sub_l by assumption.
  rewrite (real_dot_comm i0e i1e lgam tol a), (real_dot_comm i0e i1e lgam tol b).
  rewrite !real_dot_sub_l by assumption.
  rewrite (real_dot_comm i0e i1e lgam tol b a). lra.
Qed.

(** The reflection across a unit normal, or across the zero vector,
    keeps inner products. *)
Lemma reflect_isometry (u a b : list R) :
  List.length u = List.length a ->
  List.length u = List.length b ->
  dot u u = 1 \/ (forall v, dot v u = 0) ->
  dot (reflect u a) (reflect u b) = dot a b.
Proof.
  intros Ha Hb H. rewrite !real_reflect.
  rewrite real_dot_axpy by assumption.
  rewrite (real_dot_comm i0e i1e lgam tol a),
          (real_dot_comm i0e i1e lgam tol u).
  rewrite !real_dot_axpy by assumption.
  rewrite (real_dot_comm i0e i1e lgam tol b a),
          (real_dot_comm i0e i1e lgam tol u a).
  destruct H as [-> | H]; [lra|].
  rewrite (H a), (H b). lra.
Qed.

Lemma real_dot_repeat_zero (k : nat) (v : list R) : dot (repeat zero k) v = 0.
Proof.
  revert v; induction k as [|k IH]; intros [|v0 v]; cbn [repeat].
  - apply real_dot_nil_l.
  - apply real_dot_nil_l.
  - apply real_dot_nil_r.
  - rewrite real_dot_cons, IH, real_zero. lra.
Qed.

Lemma real_dot_basis (D : nat) (e1 : list R) :
  basis D = Ok e1 -> dot e1 e1 = 1.
Proof.
  destruct D as [|k]; [discriminate|]. intros [= <-].
  rewrite real_dot_cons, real_dot_repeat_zero.
  replace (Q2R 1) with 1 by (unfold Q2R; simpl; lra). lra.
Qed.

Lemma real_sub_sub (a b : list R) :
  List.length a = List.length b ->
  zip_with sub a (map (fun x => 1 * x) (zip_with sub a b)) = b.
Proof.
  revert b; induction a as [|a0 a IH]; intros [|b0 b]; simpl;
    try discriminate; try reflexivity.
  intros [= Hl]. rewrite IH by assumption. f_equal. real_ops. lra.
Qed.

Lemma real_sub_zero (a b : list R) :
  List.length a = List.length b ->
  dot (zip_with sub a b) (zip_with sub a b) = 0 -> a = b.
Proof.
  revert b; induction a as [|a0 a IH]; intros [|b0 b]; cbn [List.length];
    try discriminate; try reflexivity.
  intros [= Hl].
  change (zip_with sub (a0 :: a) (b0 :: b))
    with ((a0 - b0) :: zip_with sub a b).
  rewrite real_dot_cons. intros H.
  pose proof (@real_dot_nonneg i0e i1e lgam tol (zip_with sub a b)) as Hp.
  pose proof (Rle_0_sqr (a0 - b0)) as Hsq. unfold Rsqr in Hsq.
  assert (H0 : a0 - b0 = 0).
  { assert (Hz : (a0 - b0) * (a0 - b0) = 0) by lra.
    apply Rmult_integral in Hz. tauto. }
  assert (H1 : dot (zip_with sub a b) (zip_with sub a b) = 0) by lra.
  f_equal; [lra | now apply IH].
Qed.

(** The reflection of [_rotate] takes the basis vector to the mean
    direction. *)
Lemma reflect_basis_to_mean (D : nat) (e1 m : list R) :
  basis D = Ok e1 ->
  List.length m = D ->
  dot m m = 1 ->
  dot (zip_with sub e1 m) (zip_with sub e1 m) = 0 \/
  / 1000000000000 <= dot (zip_with sub e1 m) (zip_with sub e1 m) ->
  reflect (l2_normalize (zip_with sub e1 m)) e1 = m.
Proof.
  intros He Hl Hm Hq.
  assert (Hle : List.length e1 = List.length m).
  { rewrite Hl. exact (@basis_length i0e i1e lgam tol D e1 He). }
  set (delta := zip_with sub e1 m) in * .
  assert (Hld : List.length delta = List.length e1).
  { unfold delta. rewrite zip_with_length, Hle. apply Nat.min_id. }
  rewrite real_reflect.
  destruct Hq as [Hq|Hq].
  - rewrite (@normalize_zero i0e i1e lgam tol e1 delta Hq).
    replace (2 * 0) with 0 by lra.
    rewrite real_axpy_zero by now rewrite l2_normalize_length.
    now apply real_sub_zero.
  - rewrite (@normalize_long i0e i1e lgam tol delta Hq).
    rewrite real_dot_scale_r, map_map.
    assert (Hq0 : 0 < dot delta delta) by lra.
    assert (Hs : 0 < sqrt (dot delta delta)) by now apply sqrt_lt_R0.
    assert (Hd : dot e1 delta = dot delta delta / 2).
    { rewrite (real_dot_comm i0e i1e lgam tol e1 delta). unfold delta.
      rewrite real_dot_sub_sub, real_dot_sub_l by assumption.
      rewrite (@real_dot_basis D e1 He), Hm.
      rewrite (real_dot_comm i0e i1e lgam tol m e1). lra. }
    transitivity (zip_with sub e1 (map (fun x => 1 * x) delta));
      [| exact (@real_sub_sub e1 m Hle)].
    f_equal. apply map_ext. intros x. rewrite Hd.
    rewrite <- (sqrt_sqrt (dot delta delta)) at 2 by lra.
    field. lra.
Qed.

(** X10.  [_rotate] takes the basis vector [(1, 0, ..., 0)] to the mean
    direction of each batch member, when every mean direction is a unit
    vector that is the basis vector itself or at least [1e-6] away from
    it: the check [_sample_n] makes of [_rotate(basis)] holds exactly. *)
Theorem rotate_basis_to_mean (d : VonMisesFisher R) (e1 : list R) :
  basis (event_dim d) = Ok e1 ->
  Forall (fun m =>
            List.length m = event_dim d /\
            dot m m = 1 /\
            (dot (zip_with sub e1 m) (zip_with sub e1 m) = 0 \/
             / 1000000000000 <= dot (zip_with sub e1 m) (zip_with sub e1 m)))
    (mean_direction d) ->
  _rotate d [map (fun _ => e1) (mean_direction d)] = Ok [mean_direction d].
Proof.
  intros He Hm. rewrite rotate_value with (1 := He). cbn [map].
  do 2 f_equal. rewrite zip_with_map_r, zip_with_same.
  rewrite <- (map_id (mean_direction d)) at 2.
  apply map_ext_in. intros m Hin.
  rewrite Forall_forall in Hm. destruct (Hm m Hin) as (Hl & Hu & Hq).
  now apply reflect_basis_to_mean with (D := event_dim d).
Qed.
End RotateGeometry.

Section RotateExample.
Open Scope R_scope.
Variables (i0e i1e lgam : R -> R) (tol : R).

Local Hint Extern 0 (Scalar R) =>
  exact (R_scalar i0e i1e lgam tol) : typeclass_instances.

(** A mean direction far from the basis vector: [(0, 1)]. *)
Lemma orthogonal_mean_valid :
  Forall (fun m =>
            List.length m = 2%nat /\
            dot m m = 1 /\
            (dot (zip_with sub [one; zero] m) (zip_with sub [one; zero] m) = 0 \/
             / 1000000000000
             <= dot (zip_with sub [one; zero] m) (zip_with sub [one; zero] m)))
    [[0; 1]].
Proof.
  constructor; [|constructor]. split; [reflexivity|]. split.
  - rewrite !real_dot_cons, real_dot_nil_l. lra.
  - right. cbn [zip_with]. real_ops. rewrite real_one, real_zero.
    rewrite !real_dot_cons, real_dot_nil_l. lra.
Qed.
End RotateExample.

Lemma rotate_basis_to_mean_witness :
  @_rotate R (R_scalar (fun _ => 0%R) (fun _ => 0%R) (fun _ => 0%R) 0%R)
    (vmf 2 [[0; 1]%R] [1%R] false true) [[[Q2R 1; Q2R 0]]]
  = Ok [[[0; 1]%R]].
Proof.
  exact (@rotate_basis_to_mean
           (fun _ => 0%R) (fun _ => 0%R) (fun _ => 0%R) 0%R
           (vmf 2 [[0; 1]%R] [1%R] false true) [Q2R 1; Q2R 0] eq_refl
           (@orthogonal_mean_valid
              (fun _ => 0%R) (fun _ => 0%R) (fun _ => 0%R) 0%R)).
Defined.

(** ** The 3-D sampler inverts the distribution function *)

Section Sample3dRows.
Context {F : Type} {S : Scalar F}.
Open Scope scalar_scope.

(** A row of [u], entry by entry. *)
Lemma u_row_3d_zip (d : VonMisesFisher F) (z : list F) :
  u_row_3d d z
  = zip_with
      (fun zi k =>
         if eqb zi zero then neg one
         else if zero <?. k then safe_u_elem k zi
              else two *. zi -. one)
      z (concentration d).
Proof.
  unfold u_row_3d. generalize (concentration d) as ks.
  induction z as [|zi z IH]; intros [|k ks]; try reflexivity.
  specialize (IH ks). revert IH.
  unfold safe, ones_like, zeros_like.
  cbn [map where_ zip_with]. intros IH. rewrite IH. reflexivity.
Qed.
End Sample3dRows.

Section Sample3dInversion.
Open Scope R_scope.
Variables (i0e i1e lgam : R -> R) (tol : R).
Variable G : Type.
Variable hash : Z -> nat -> string -> Z.
Variable next_state : G -> G.
Variable uniform_at : source G -> nat -> nat -> R.

Local Hint Extern 0 (Scalar R) =>
  exact (R_scalar i0e i1e lgam tol) : typeclass_instances.

Lemma real_logsumexp2 (a b : R) : logsumexp2 a b = ln (exp a + exp b).
Proof.
  unfold logsumexp2. real_ops. cbv iota.
  set (M := Rmax a b).
  replace (exp (a - M) + exp (b - M)) with ((exp a + exp b) * exp (- M)).
  - rewrite ln_mult, ln_exp; [lra | | apply exp_pos].
    pose proof (exp_pos a). pose proof (exp_pos b). lra.
  - unfold Rminus. rewrite !exp_plus. lra.
Qed.

(** The safe form of the inversion, where nothing is guarded. *)
Lemma real_safe_u_elem (k z : R) :
  0 < k -> 0 < z -> z < 1 ->
  safe_u_elem k z = 1 + ln (z + (1 - z) * exp (- (2 * k))) / k.
Proof.
  intros Hk Hz Hz1. unfold safe_u_elem. rewrite !real_gt0.
  destruct (Rlt_dec 0 z) as [_|H]; [|contradiction].
  destruct (Rlt_dec 0 k) as [_|H]; [|contradiction].
  rewrite real_logsumexp2. real_ops. rewrite real_one, real_two.
  do 3 f_equal. rewrite exp_ln by assumption.
  unfold Rminus. rewrite exp_plus, exp_ln by lra. lra.
Qed.

Lemma inversion_bounds (k z : R) :
  0 < k -> 0 < z -> z < 1 ->
  let s := z + (1 - z) * exp (- (2 * k)) in
  exp (- (2 * k)) <= s /\ s <= 1 /\ 0 < s.
Proof.
  intros Hk Hz Hz1 s. subst s.
  pose proof (exp_pos (- (2 * k))) as Hp.
  assert (He : exp (- (2 * k)) < 1).
  { rewrite <- exp_0. apply exp_increasing. lra. }
  repeat split; nra.
Qed.

Lemma safe_u_range (k z : R) :
  0 < k -> 0 < z -> z < 1 -> -1 <= safe_u_elem k z <= 1.
Proof.
  intros Hk Hz Hz1. rewrite real_safe_u_elem by assumption.
  destruct (inversion_bounds Hk Hz Hz1) as (Hlo & Hhi & Hpos).
  set (s := z + (1 - z) * exp (- (2 * k))) in * .
  assert (Hl1 : ln s <= 0).
  { rewrite <- ln_1. destruct Hhi as [Hhi| ->]; [|lra].
    left. now apply ln_increasing. }
  assert (Hl2 : - (2 * k) <= ln s).
  { rewrite <- (ln_exp (- (2 * k))).
    destruct Hlo as [Hlo| <-]; [|lra].
    left. apply ln_increasing; [apply exp_pos | assumption]. }
  assert (Hq : -2 <= ln s / k <= 0).
  { split.
    - apply Rmult_le_reg_r with k; [assumption|].
      unfold Rdiv. rewrite Rmult_assoc, Rinv_l by lra. lra.
    - apply Rmult_le_reg_r with k; [assumption|].
      unfold Rdiv. rewrite Rmult_assoc, Rinv_l by lra. lra. }
  lra.
Qed.

Lemma safe_u_distribution (k z : R) :
  0 < k -> 0 < z -> z < 1 ->
  (exp (k * safe_u_elem k z) - exp (- k)) / (exp k - exp (- k)) = z.
Proof.
  intros Hk Hz Hz1. rewrite real_safe_u_elem by assumption.
  destruct (inversion_bounds Hk Hz Hz1) as (_ & _ & Hpos).
  set (s := z + (1 - z) * exp (- (2 * k))) in * .
  replace (k * (1 + ln s / k)) with (k + ln s) by (field; lra).
  rewrite exp_plus, exp_ln by assumption. unfold s.
  replace (- (2 * k)) with (- k + - k) by lra. rewrite exp_plus.
  assert (He : exp k * exp (- k) = 1).
  { rewrite <- exp_plus. replace (k + - k) with 0 by lra. apply exp_0. }
  assert (Hd : exp (- k) < exp k) by (apply exp_increasing; lra).
  apply Rmult_eq_reg_r with (exp k - exp (- k)); [|lra].
  unfold Rdiv. rewrite Rmult_assoc, Rinv_l, Rmult_1_r by lra.
  replace (exp k * (z + (1 - z) * (exp (- k) * exp (- k))) - exp (- k))
    with (exp k * z + (1 - z) * (exp k * exp (- k)) * exp (- k) - exp (- k))
    by ring.
  rewrite He. ring.
Qed.

(** One entry of the value of [_sample_3d]. *)
Lemma sample_3d_entry (d : VonMisesFisher R) (n : nat) (seed : option Z)
    (r r' : rng G) (src : source G) (i b : nat) (k : R) :
  random_op next_state Uniform
    (option_map (fun sd => hash sd 1 "von_mises_fisher_3d") seed) 0 r
  = Done src r' ->
  (i < n)%nat ->
  nth_error (concentration d) b = Some k ->
  exists u row,
    _sample_3d hash next_state uniform_at d n seed r = Done u r' /\
    nth_error u i = Some row /\
    nth_error row b
    = Some [if Req_dec_T (uniform_at src i b) 0 then -1
            else if Rlt_dec 0 k then safe_u_elem k (uniform_at src i b)
                 else 2 * uniform_at src i b - 1].
Proof.
  intros Hdraw Hi Hk.
  assert (Hb : (b < batch_size d)%nat).
  { unfold batch_size. apply nth_error_Some. now rewrite Hk. }
  destruct (@tabulate2_nth_error R n (batch_size d) (uniform_at src) i b
              Hi Hb) as (zrow & Hz & Hzb).
  pose proof (@u_row_3d_nth R _ d zrow b k _ Hk Hzb) as Hu.
  eexists; eexists; split.
  { apply (@sample_3d_value i0e i1e lgam tol G hash next_state uniform_at
             d n seed r r' src Hdraw). }
  split.
  { apply map_nth_error, map_nth_error, Hz. }
  erewrite map_nth_error by exact Hu. do 2 f_equal.
  real_ops. rewrite real_zero, real_one, real_two.
  unfold Reqb, Rltb.
  destruct (Req_dec_T (uniform_at src i b) 0); [lra|].
  destruct (Rlt_dec 0 k); reflexivity.
Qed.

End Sample3dInversion.


(** ** The range of the first coordinate *)

Section WhereFacts.
Variable A : Type.

Lemma where_Forall (P : A -> Prop) (c : list bool) (x y : list A) :
  Forall P x -> Forall P y -> Forall P (where_ c x y).
Proof.
  intros Hx. revert c y. induction Hx as [|a x Ha _ IH]; intros c y Hy.
  - destruct c; constructor.
  - destruct c as [|b c]; [constructor|].
    destruct Hy as [|a' y Ha' Hy]; cbn [where_]; [constructor|].
    constructor; [now destruct b | now apply IH].
Qed.

Lemma combine_Forall_snd (B : Type) (P : A -> Prop) (l : list B)
    (l' : list A) :
  Forall P l' -> Forall (fun cw => P (snd cw)) (combine l l').
Proof.
  intros H. revert l. induction H as [|x l' Hx _ IH]; intros l.
  - destruct l; constructor.
  - destruct l as [|c l]; cbn [combine]; constructor; [exact Hx | apply IH].
Qed.
End WhereFacts.

Section WoodRange.
Open Scope R_scope.
Variables (i0e i1e lgam : R -> R) (tol : R).
Variable G : Type.
Variable hash : Z -> nat -> string -> Z.
Variable next_state : G -> G.
Variable uniform_at : source G -> nat -> nat -> R.
Variable beta_at : R -> R -> source G -> nat -> nat -> R.

Local Hint Extern 0 (Scalar R) =>
  exact (R_scalar i0e i1e lgam tol) : typeclass_instances.

Lemma real_dim_of (D : nat) : dim_of D = INR D - 1.
Proof.
  unfold dim_of. real_ops. unfold Q2R. cbn [Qnum Qden inject_Z].
  rewrite minus_IZR, <- INR_IZR_INZ. lra.
Qed.

Lemma real_dim_of_pos (D : nat) : (2 <= D)%nat -> 1 <= dim_of D.
Proof.
  intros H. rewrite real_dim_of. apply le_INR in H. simpl in H. lra.
Qed.

Lemma real_wood_b (D : nat) (k : R) :
  wood_b D k
  = dim_of D / (2 * k + sqrt (4 * (k * k) + dim_of D * dim_of D)).
Proof.
  unfold wood_b, square. real_ops. rewrite real_two.
  replace (Q2R 4) with 4 by (unfold Q2R; simpl; lra). reflexivity.
Qed.

(** The constant [b] of the rejection sampler lies in [(0, 1]]. *)
Lemma wood_b_range (D : nat) (k : R) :
  (2 <= D)%nat -> 0 <= k -> 0 < wood_b D k <= 1.
Proof.
  intros HD Hk. rewrite real_wood_b.
  pose proof (real_dim_of_pos HD) as Hd.
  set (dm := dim_of D) in * .
  assert (Hs : dm <= sqrt (4 * (k * k) + dm * dm)).
  { rewrite <- (sqrt_square dm) at 1 by lra. apply sqrt_le_1; nra. }
  assert (Hden : 0 < 2 * k + sqrt (4 * (k * k) + dm * dm)) by lra.
  split.
  - apply Rdiv_lt_0_compat; lra.
  - apply Rmult_le_reg_r with (2 * k + sqrt (4 * (k * k) + dm * dm));
      [assumption|].
    unfold Rdiv. rewrite Rmult_assoc, Rinv_l by lra. lra.
Qed.

(** The candidate of the loop body lies in [[-1, 1]]. *)
Lemma candidate_range (b z : R) :
  0 < b <= 1 -> 0 <= z <= 1 ->
  -1 <= (1 - (1 + b) * z) / (1 - (1 - b) * z) <= 1.
Proof.
  intros [Hb0 Hb1] [Hz0 Hz1].
  assert (Hden : 0 < 1 - (1 - b) * z) by nra.
  split.
  - apply Rmult_le_reg_r with (1 - (1 - b) * z); [assumption|].
    unfold Rdiv. rewrite Rmult_assoc, Rinv_l by lra. nra.
  - apply Rmult_le_reg_r with (1 - (1 - b) * z); [assumption|].
    unfold Rdiv. rewrite Rmult_assoc, Rinv_l by lra. nra.
Qed.

Lemma next_w_range (d : VonMisesFisher R) (D : nat)
    (z w : list (list R)) (sc : list (list bool)) :
  (2 <= D)%nat ->
  Forall (fun k => 0 <= k) (concentration d) ->
  Forall (Forall (fun zi => 0 <= zi <= 1)) z ->
  Forall (Forall (fun wi => -1 <= wi <= 1)) w ->
  Forall (Forall (fun wi => -1 <= wi <= 1)) (next_w d D z w sc).
Proof.
  intros HD Hk Hz Hw. unfold next_w.
  apply Forall_zip_with
    with (Qa := fun cw : list bool * list R =>
                  Forall (fun wi => -1 <= wi <= 1) (snd cw))
         (Qb := Forall (fun wi => -1 <= wi <= 1)).
  - intros [c x] y Hx Hy. now apply where_Forall.
  - apply combine_Forall_snd.
    apply Forall_map. revert Hz. apply Forall_impl. intros zrow Hzrow.
    apply Forall_zip_with with (2 := Hk) (3 := Hzrow).
    intros k zi Hk0 Hzi. real_ops. rewrite real_one.
    apply candidate_range; [now apply wood_b_range | assumption].
  - assumption.
Qed.

Lemma tabulate2_Forall (P : R -> Prop) (n B : nat) (f : nat -> nat -> R) :
  (forall i b, P (f i b)) -> Forall (Forall P) (tabulate2 n B f).
Proof.
  intros H. unfold tabulate2. apply Forall_map, Forall_forall. intros i _.
  apply Forall_map, Forall_forall. intros b _. apply H.
Qed.

Lemma body_fn_range (d : VonMisesFisher R) (D n : nat) (s1 s2 : option Z)
    (st st' : loop_state) (r r' : rng G) :
  (2 <= D)%nat ->
  Forall (fun k => 0 <= k) (concentration d) ->
  (forall a b src i j, 0 <= beta_at a b src i j <= 1) ->
  Forall (Forall (fun wi => -1 <= wi <= 1)) (fst (fst st)) ->
  body_fn next_state uniform_at beta_at d D n s1 s2 st r = Done st' r' ->
  Forall (Forall (fun wi => -1 <= wi <= 1)) (fst (fst st')).
Proof.
  intros HD Hk Hb Hw H. destruct st as [[w sc] s]. cbn [fst] in Hw.
  unfold body_fn in H.
  apply bindR_done in H as (z & r1 & Hz & H).
  unfold beta_sample in Hz.
  apply bindR_done in Hz as (src & r0 & _ & Hz).
  apply ret_done in Hz as [-> _].
  apply bindR_done in H as (w1 & r2 & Hw1 & H).
  apply lift_done in Hw1 as [Hw1 _].
  rewrite real_check_numerics2 in Hw1. injection Hw1 as <-.
  apply bindR_done in H as (unif & r3 & _ & H).
  apply ret_done in H as [-> _]. cbn [fst].
  apply next_w_range; try assumption.
  apply tabulate2_Forall. intros i b. apply Hb.
Qed.

Lemma while_loop_range (d : VonMisesFisher R) (D n fuel : nat)
    (s1 s2 : option Z) (st st' : loop_state) (r r' : rng G) :
  (2 <= D)%nat ->
  Forall (fun k => 0 <= k) (concentration d) ->
  (forall a b src i j, 0 <= beta_at a b src i j <= 1) ->
  Forall (Forall (fun wi => -1 <= wi <= 1)) (fst (fst st)) ->
  while_loop fuel cond_fn
    (body_fn next_state uniform_at beta_at d D n s1 s2) st r
  = Done st' r' ->
  Forall (Forall (fun wi => -1 <= wi <= 1)) (fst (fst st')).
Proof.
  intros HD Hk Hb. revert st r.
  induction fuel as [|fuel IH]; intros st r Hw; [discriminate|].
  cbn [while_loop]. destruct (cond_fn st).
  - intros H. apply bindR_done in H as (st1 & r1 & H1 & H).
    apply (IH st1 r1); [|exact H].
    exact (@body_fn_range d D n s1 s2 st st1 r r1 HD Hk Hb Hw H1).
  - intros H. apply ret_done in H as [-> _]. exact Hw.
Qed.

(** The rows of [u] in [_sample_3d] lie in [[-1, 1]]. *)
Lemma u_row_3d_range (d : VonMisesFisher R) (z : list R) :
  Forall (fun k => 0 <= k) (concentration d) ->
  Forall (fun zi => 0 <= zi < 1) z ->
  Forall (fun ui => -1 <= ui <= 1) (u_row_3d d z).
Proof.
  intros Hk Hz. rewrite u_row_3d_zip.
  apply Forall_zip_with with (2 := Hz) (3 := Hk).
  intros zi k [Hz0 Hz1] Hk0. real_ops. rewrite real_zero, real_one, real_two.
  unfold Reqb, Rltb.
  destruct (Req_dec_T zi 0) as [_|Hne]; [lra|].
  destruct (Rlt_dec 0 k) as [Hkp|_]; [|lra].
  apply (@safe_u_range i0e i1e lgam tol); lra.
Qed.

(** The value of the rejection loop lies in [[-1, 1]]. *)
Lemma wood_dim0_range (d : VonMisesFisher R) (fuel D n : nat)
    (stream stream' : SeedStream) (r r' : rng G)
    (x : list (list (list R))) :
  (2 <= D)%nat ->
  Forall (fun k => 0 <= k) (concentration d) ->
  (forall a b src i j, 0 <= beta_at a b src i j <= 1) ->
  wood_dim0 hash next_state uniform_at beta_at d fuel D n stream r
  = Done (x, stream') r' ->
  Forall (Forall (Forall (fun wi => -1 <= wi <= 1))) x.
Proof.
  intros HD Hk Hb H. unfold wood_dim0 in H.
  destruct (SeedStream_call hash stream) as [s1 stream1].
  destruct (SeedStream_call hash stream1) as [s2 stream2].
  apply bindR_done in H as ([[w sc] run] & r1 & Hw & Hr).
  apply ret_done in Hr as [[= -> _] _].
  apply while_loop_range in Hw; try assumption.
  - cbn [fst] in Hw. apply Forall_map. revert Hw. apply Forall_impl.
    intros row Hrow. apply Forall_map. revert Hrow. apply Forall_impl.
    intros wi Hwi. constructor; [assumption | constructor].
  - cbn [fst]. apply tabulate2_Forall. intros _ _. rewrite real_zero. lra.
Qed.

(** The value of the 3-D sampler lies in [[-1, 1]]. *)
Lemma sample_3d_range (d : VonMisesFisher R) (n : nat) (seed : option Z)
    (r r' : rng G) (u : list (list (list R))) :
  Forall (fun k => 0 <= k) (concentration d) ->
  (forall src i j, 0 <= uniform_at src i j < 1) ->
  _sample_3d hash next_state uniform_at d n seed r = Done u r' ->
  Forall (Forall (Forall (fun wi => -1 <= wi <= 1))) u.
Proof.
  intros Hk Hu H3. unfold _sample_3d in H3.
  destruct (SeedStream_call hash _) as [s1 st1].
  apply bindR_done in H3 as (z & r2 & Hz & H3).
  unfold random_uniform in Hz.
  apply bindR_done in Hz as (src & r0 & _ & Hz).
  apply ret_done in Hz as [-> _].
  apply bindR_done in H3 as (u' & r3 & Hu' & H3).
  apply ret_done in H3 as [-> _].
  assert (Hu'' : u' = map (u_row_3d d)
                        (tabulate2 n (batch_size d) (uniform_at src))).
  { destruct (negb (allow_nan_stats d)).
    - apply lift_done in Hu' as [Hu' _].
      rewrite real_check_numerics2 in Hu'. now injection Hu' as <-.
    - now apply ret_done in Hu' as [-> _]. }
  subst u'. apply Forall_map, Forall_map.
  unfold tabulate2. apply Forall_map, Forall_forall. intros i _.
  apply Forall_map.
  apply (Forall_impl (P := fun ui => -1 <= ui <= 1)).
  { intros ui Hui. constructor; [assumption | constructor]. }
  apply u_row_3d_range; [assumption|].
  apply Forall_map, Forall_forall. intros b _. apply Hu.
Qed.

(** X12.  The first coordinate of a sample, the cosine of its angle to
    the mean direction, lies in [[-1, 1]]: for non-negative
    concentrations and at least two dimensions, with the uniform draws in
    [[0, 1)] and the beta draws in [[0, 1]], both the 3-D inversion and
    every candidate kept by the rejection loop stay in that range, so
    the range checks of [_sample_n] cannot fail. *)
Theorem first_coordinate_range (d : VonMisesFisher R) (fuel n : nat)
    (seed0 : option Z) (stream stream' : SeedStream) (r r' : rng G)
    (x : list (list (list R))) :
  (2 <= event_dim d)%nat ->
  Forall (fun k => 0 <= k) (concentration d) ->
  (forall src i j, 0 <= uniform_at src i j < 1) ->
  (forall a b src i j, 0 <= beta_at a b src i j <= 1) ->
  first_coordinate hash next_state uniform_at beta_at d fuel n seed0
    stream r = Done (x, stream') r' ->
  Forall (Forall (Forall (fun wi => -1 <= wi <= 1))) x.
Proof.
  intros HD Hk Hu Hb. unfold first_coordinate.
  destruct (event_shape_value d) as [[|[|[|[|D]]]]|];
    try (intros H;
         exact (@wood_dim0_range d fuel (event_dim d) n stream stream' r r' x
                  HD Hk Hb H)).
  intros H. apply bindR_done in H as (u & r1 & H3 & Hr).
  apply ret_done in Hr as [[= -> _] _].
  exact (@sample_3d_range d n seed0 r r1 u Hk Hu H3).
Qed.
End WoodRange.

Lemma first_coordinate_range_witness :
  Forall (Forall (Forall (fun wi => (-1 <= wi <= 1)%R))) [[[0%R]]].
Proof.
  apply (@first_coordinate_range
           (fun _ => 0%R) (fun _ => 0%R) (fun _ => 0%R) 0%R
           unit (fun _ _ _ => 0%Z) (fun g => g)
           (fun _ _ _ => (1 / 2)%R) (fun _ _ _ _ _ => (1 / 2)%R)
           (vmf 2 [[1; 0]%R] [0%R] false true) 2 1 (Some 0%Z)
           (SeedStream_new (Some 0%Z) "vom_mises_fisher")
           {| original_seed := Some 0%Z; salt := "vom_mises_fisher";
              counter := 2 |}
           {| ambient := tt; drawn := [] |}
           {| ambient := tt;
              drawn := [(Beta, Some 0%Z); (Uniform, Some 0%Z)] |}).
  - cbn. lia.
  - constructor; [lra | constructor].
  - intros; lra.
  - intros; lra.
  - apply (@zero_conc_first_coordinate
             (fun _ => 0%R) (fun _ => 0%R) (fun _ => 0%R) 0%R
             unit (fun _ _ _ => 0%Z) (fun g => g) [1; 0]%R 0%Z
             {| ambient := tt; drawn := [] |}).
Defined.

(** ** The rejection loop at zero concentration *)

Section CombineFacts.
Variables A B C : Type.

Lemma combine_map (f : A -> B) (g : A -> C) (l : list A) :
  combine (map f l) (map g l) = map (fun x => (f x, g x)) l.
Proof. induction l as [|a l IH]; simpl; [reflexivity | now rewrite IH]. Qed.

Lemma combine_Forall_fst (P : A -> Prop) (l : list A) (l' : list B) :
  Forall P l -> Forall (fun kw => P (fst kw)) (combine l l').
Proof.
  intros H. revert l'. induction H as [|x l Hx _ IH]; intros l'.
  - constructor.
  - destruct l' as [|c l']; cbn [combine]; constructor; [exact Hx | apply IH].
Qed.
End CombineFacts.

Lemma existsb_and_false (sc rej : list (list bool)) :
  Forall (Forall (fun b => b = false)) rej ->
  existsb (existsb (fun c => c)) (zip_with (zip_with andb) sc rej) = false.
Proof.
  intros H. revert sc. induction H as [|row rej Hrow _ IH]; intros sc.
  - now destruct sc.
  - destruct sc as [|srow sc]; [reflexivity|]. cbn [zip_with existsb].
    rewrite IH, orb_false_r. clear IH. revert srow.
    induction Hrow as [|b row Hb _ IH]; intros srow.
    + now destruct srow.
    + destruct srow as [|s srow]; [reflexivity|]. cbn [zip_with existsb].
      rewrite IH, Hb, andb_false_r. reflexivity.
Qed.

Lemma existsb_all_true_false (n B : nat) :
  existsb (existsb (fun c => c))
    (map (fun _ : nat => map (fun _ : nat => true) (seq 0 B)) (seq 0 n))
  = false ->
  n = 0%nat \/ B = 0%nat.
Proof.
  destruct n as [|n]; [now left|]. destruct B as [|B]; [now right|].
  cbn [seq map existsb orb]. discriminate.
Qed.

Section ZeroConcentration.
Open Scope R_scope.
Variables (i0e i1e lgam : R -> R) (tol : R).
Variable G : Type.
Variable hash : Z -> nat -> string -> Z.
Variable next_state : G -> G.
Variable uniform_at : source G -> nat -> nat -> R.
Variable beta_at : R -> R -> source G -> nat -> nat -> R.

Local Hint Extern 0 (Scalar R) =>
  exact (R_scalar i0e i1e lgam tol) : typeclass_instances.

Lemma wood_b_zero (D : nat) : (2 <= D)%nat -> wood_b D 0 = 1.
Proof.
  intros HD. rewrite real_wood_b.
  pose proof (real_dim_of_pos i0e i1e lgam tol HD) as Hd.
  replace (4 * (0 * 0) + dim_of D * dim_of D) with (dim_of D * dim_of D)
    by lra.
  rewrite sqrt_square by lra. field. lra.
Qed.

Lemma wood_x_zero (D : nat) : (2 <= D)%nat -> wood_x D 0 = 0.
Proof.
  intros HD. unfold wood_x. rewrite wood_b_zero, real_one by assumption.
  real_ops. lra.
Qed.

Lemma wood_c_zero (D : nat) : (2 <= D)%nat -> wood_c D 0 = 0.
Proof.
  intros HD. unfold wood_c, square. rewrite wood_x_zero by assumption.
  real_ops. replace (1 + - (0 * 0)) with 1 by lra. rewrite ln_1. lra.
Qed.

(** At zero concentration the acceptance test fails for no draw: every
    lane accepts its candidate. *)
Lemma next_should_continue_zero (d : VonMisesFisher R) (D : nat)
    (w unif : list (list R)) (sc : list (list bool)) (run : nat) :
  (2 <= D)%nat ->
  Forall (fun k => k = 0) (concentration d) ->
  Forall (Forall (fun u => u <= 1)) unif ->
  cond_fn (w, next_should_continue d D w unif sc, run) = false.
Proof.
  intros HD Hk Hu. unfold cond_fn, next_should_continue.
  apply existsb_and_false.
  apply Forall_zip_with
    with (Qa := fun _ : list R => True) (Qb := Forall (fun u => u <= 1));
    [| apply Forall_forall; intros; exact I | assumption].
  intros wrow urow _ Hurow.
  apply Forall_zip_with
    with (Qa := fun kw : R * R => fst kw = 0) (Qb := fun u => u <= 1);
    [| exact (@combine_Forall_fst R R (fun k => k = 0) _ wrow Hk)
     | assumption].
  intros [k wi] u Hk0 Hu1. cbn [fst] in Hk0. subst k.
  rewrite wood_x_zero, wood_c_zero by assumption. real_ops.
  replace (0 * wi + dim_of D * ln (1 + - 0 * wi) - 0) with 0.
  2:{ replace (1 + - 0 * wi) with 1 by lra. rewrite ln_1. lra. }
  unfold Rltb. destruct (Rlt_dec 0 (ln u)) as [H|_]; [|reflexivity].
  exfalso. destruct (Rle_dec u 0) as [Hn|Hp].
  - unfold ln in H. destruct (Rlt_dec 0 u); lra.
  - assert (Hl : ln u <= ln 1).
    { destruct Hu1 as [Hu1| ->]; [|lra]. left. apply ln_increasing; lra. }
    rewrite ln_1 in Hl. lra.
Qed.

(** The candidate from the starting state, with every lane active. *)
Lemma next_w_zero (d : VonMisesFisher R) (D n B : nat)
    (g : nat -> nat -> R) :
  (2 <= D)%nat ->
  concentration d = map (fun _ => 0) (seq 0 B) ->
  next_w d D (tabulate2 n B g)
    (tabulate2 n B (fun _ _ => zero))
    (map (fun _ => map (fun _ => true) (seq 0 B)) (seq 0 n))
  = tabulate2 n B (fun i b => 1 - 2 * g i b).
Proof.
  intros HD Hk. unfold next_w, tabulate2. rewrite Hk, map_map.
  rewrite combine_map, zip_with_map.
  apply map_ext. intros i. cbn [fst snd].
  rewrite zip_with_map, where_map.
  apply map_ext. intros b. rewrite wood_b_zero, real_one by assumption.
  real_ops. field; lra.
Qed.

Lemma zeros_as_map (l : list R) :
  Forall (fun k => k = 0) l ->
  l = map (fun _ => 0) (seq 0 (List.length l)).
Proof.
  induction 1 as [|k l Hk _ IH]; [reflexivity|].
  cbn [List.length seq map]. rewrite <- seq_shift, map_map. now f_equal.
Qed.

(** Over the reals the loop body always completes. *)
Lemma body_fn_real (d : VonMisesFisher R) (D n : nat) (s1 s2 : option Z)
    (w : list (list R)) (sc : list (list bool)) (run : nat) (r : rng G) :
  exists src1 src2 r',
    let z := tabulate2 n (batch_size d)
               (beta_at (dim_of D / 2) (dim_of D / 2) src1) in
    let unif := tabulate2 n (batch_size d) (uniform_at src2) in
    body_fn next_state uniform_at beta_at d D n s1 s2 (w, sc, run) r
    = Done (next_w d D z w sc,
            next_should_continue d D (next_w d D z w sc) unif sc,
            Datatypes.S run) r'.
Proof.
  unfold body_fn.
  destruct (random_op_done next_state Beta s1 run r) as (src1 & r1 & H1).
  destruct (random_op_done next_state Uniform s2 run r1) as (src2 & r2 & H2).
  exists src1, src2, r2. cbv zeta.
  unfold beta_sample, random_uniform.
  unfold bindR at 1 2. rewrite H1. unfold ret at 1.
  unfold bindR at 1. unfold lift. rewrite real_check_numerics2.
  unfold bindR at 1 2. rewrite H2. unfold ret at 1.
  real_ops. rewrite real_two. reflexivity.
Qed.

End ZeroConcentration.


(** ** Lanes that have accepted *)

Section EntryFacts.
Variables A B C : Type.

Lemma entry_rows (t : list (list A)) (i b : nat) (a : A) :
  entry t i b = Some a <->
  exists row, nth_error t i = Some row /\ nth_error row b = Some a.
Proof.
  unfold entry. split.
  - destruct (nth_error t i) as [row|]; [|discriminate].
    intros H. now exists row.
  - intros (row & -> & H). exact H.
Qed.

Lemma nth_error_combine (l : list A) (l' : list B) (i : nat) (a : A) (b : B) :
  nth_error l i = Some a -> nth_error l' i = Some b ->
  nth_error (combine l l') i = Some (a, b).
Proof.
  revert l l'; induction i as [|i IH]; intros [|x l] [|y l']; simpl;
    try discriminate.
  - now intros [= ->] [= ->].
  - apply IH.
Qed.

Lemma nth_error_exists (l : list A) (i : nat) :
  (i < List.length l)%nat -> exists a, nth_error l i = Some a.
Proof.
  intros H. destruct (nth_error l i) as [a|] eqn:E; [now exists a|].
  apply nth_error_None in E. lia.
Qed.
End EntryFacts.

Section FrozenLanes.
Context {F : Type} {S : Scalar F}.
Variable G : Type.
Variable hash : Z -> nat -> string -> Z.
Variable next_state : G -> G.
Variable uniform_at : source G -> nat -> nat -> F.
Variable beta_at : F -> F -> source G -> nat -> nat -> F.

Lemma check_numerics2_ok (t t' : list (list F)) (tag : numerics_tag) :
  check_numerics2 t tag = Ok t' -> t' = t.
Proof.
  unfold check_numerics2. destruct (forallb all_finite t); [|discriminate].
  now intros [= <-].
Qed.

(** Where a lane is no longer active, [tf.where] keeps its [w]. *)
Lemma next_w_frozen (d : VonMisesFisher F) (D n : nat)
    (g : nat -> nat -> F) (w : list (list F)) (sc : list (list bool))
    (i b : nat) (wi : F) :
  (i < n)%nat -> (b < batch_size d)%nat ->
  entry sc i b = Some false ->
  entry w i b = Some wi ->
  entry (next_w d D (tabulate2 n (batch_size d) g) w sc) i b = Some wi.
Proof.
  intros Hi Hb Hsc Hw.
  apply entry_rows in Hsc as (scrow & Hsc & Hscb).
  apply entry_rows in Hw as (wrow & Hw & Hwb).
  destruct (tabulate2_nth_error g Hi Hb) as (zrow & Hz & Hzb).
  destruct (nth_error_exists (concentration d) Hb) as (k & Hk).
  apply entry_rows. unfold next_w.
  eexists. split.
  - apply zip_with_nth_error with (2 := Hw).
    apply nth_error_combine; [exact Hsc|].
    apply map_nth_error. exact Hz.
  - cbn [fst snd].
    erewrite where_nth_error.
    2: exact Hscb.
    2: apply zip_with_nth_error; [exact Hk | exact Hzb].
    2: exact Hwb.
    reflexivity.
Qed.

Lemma next_should_continue_frozen (d : VonMisesFisher F) (D n : nat)
    (g : nat -> nat -> F) (w : list (list F)) (sc : list (list bool))
    (i b : nat) (wi : F) :
  (i < n)%nat -> (b < batch_size d)%nat ->
  entry sc i b = Some false ->
  entry w i b = Some wi ->
  entry (next_should_continue d D w (tabulate2 n (batch_size d) g) sc) i b
  = Some false.
Proof.
  intros Hi Hb Hsc Hw.
  apply entry_rows in Hsc as (scrow & Hsc & Hscb).
  apply entry_rows in Hw as (wrow & Hw & Hwb).
  destruct (tabulate2_nth_error g Hi Hb) as (urow & Hu & Hub).
  destruct (nth_error_exists (concentration d) Hb) as (k & Hk).
  apply entry_rows. unfold next_should_continue.
  eexists. split.
  - apply zip_with_nth_error; [exact Hsc|].
    apply zip_with_nth_error; [exact Hw | exact Hu].
  - pose proof
      (@zip_with_nth_error (F * F) F bool
         (fun (kw : F * F) (ui : F) =>
            let '(k, wi) := kw in
            ltb (sub (add (mul k wi)
                        (mul (dim_of D) (log1p (mul (neg (wood_x D k)) wi))))
                   (wood_c D k))
              (logf ui))
         _ _ _ _ _
         (@nth_error_combine F F (concentration d) wrow b k wi Hk Hwb) Hub)
      as Hr.
    rewrite (@zip_with_nth_error bool bool bool andb _ _ _ _ _ Hscb Hr).
    reflexivity.
Qed.

Lemma body_fn_frozen (d : VonMisesFisher F) (D n : nat) (s1 s2 : option Z)
    (w w' : list (list F)) (sc sc' : list (list bool)) (run run' : nat)
    (r r' : rng G) (i b : nat) (wi : F) :
  body_fn next_state uniform_at beta_at d D n s1 s2 (w, sc, run) r
  = Done (w', sc', run') r' ->
  (i < n)%nat -> (b < batch_size d)%nat ->
  entry sc i b = Some false ->
  entry w i b = Some wi ->
  entry w' i b = Some wi /\ entry sc' i b = Some false.
Proof.
  intros H Hi Hb Hsc Hw. unfold body_fn in H.
  apply bindR_done in H as (z & r1 & Hz & H).
  unfold beta_sample in Hz.
  apply bindR_done in Hz as (src & r0 & _ & Hz).
  apply ret_done in Hz as [-> _].
  apply bindR_done in H as (w1 & r2 & Hw1 & H).
  apply lift_done in Hw1 as [Hw1 _].
  apply check_numerics2_ok in Hw1. subst w1.
  apply bindR_done in H as (unif & r3 & Hu & H).
  unfold random_uniform in Hu.
  apply bindR_done in Hu as (src2 & r4 & _ & Hu).
  apply ret_done in Hu as [-> _].
  apply ret_done in H as [[= -> -> ->] _].
  split; [now apply next_w_frozen|].
  apply next_should_continue_frozen with (wi := wi); try assumption.
  now apply next_w_frozen.
Qed.

(** X14.  A lane of the rejection loop that has accepted is never
    touched again: once [should_continue] is false at a sample and batch
    index, the value of [w] there and the flag stay as they are through
    every later iteration, so the loop returns the candidate the lane
    accepted. *)
Theorem accepted_lanes_frozen (d : VonMisesFisher F) (D n fuel : nat)
    (s1 s2 : option Z)
    (w w' : list (list F)) (sc sc' : list (list bool)) (run run' : nat)
    (r r' : rng G) (i b : nat) (wi : F) :
  while_loop fuel cond_fn
    (body_fn next_state uniform_at beta_at d D n s1 s2) (w, sc, run) r
  = Done (w', sc', run') r' ->
  (i < n)%nat -> (b < batch_size d)%nat ->
  entry sc i b = Some false ->
  entry w i b = Some wi ->
  entry w' i b = Some wi /\ entry sc' i b = Some false.
Proof.
  intros H Hi Hb. revert w sc run r H.
  induction fuel as [|fuel IH]; intros w sc run r H Hsc Hw; [discriminate|].
  cbn [while_loop] in H. destruct (cond_fn (w, sc, run)).
  - apply bindR_done in H as ([[w1 sc1] run1] & r1 & H1 & H).
    destruct (@body_fn_frozen d D n s1 s2 w w1 sc sc1 run run1 r r1 i b wi
                H1 Hi Hb Hsc Hw) as [Hw1 Hsc1].
    exact (IH w1 sc1 run1 r1 H Hsc1 Hw1).
  - apply ret_done in H as [[= -> -> ->] _]. now split.
Qed.
End FrozenLanes.

Section FrozenExample.
Open Scope R_scope.

Local Hint Extern 0 (Scalar R) =>
  exact (R_scalar (fun _ => 0) (fun _ => 0) (fun _ => 0) 0)
  : typeclass_instances.

(** One run of the loop from a state where the first lane has accepted
    the value 5 and the second has not: the body runs once, and at zero
    concentration the second lane accepts. *)
Lemma frozen_example_run :
  exists w' sc' r',
    while_loop 2 cond_fn
      (body_fn (fun g : unit => g)
         (fun _ _ _ => 1 / 2) (fun _ _ _ _ _ => 1 / 2)
         (vmf 2 [[1; 0]; [1; 0]] [0; 0] false true) 2 1
         (Some 1%Z) (Some 2%Z))
      ([[5; 0]], [[false; true]], 0%nat)
      {| ambient := tt; drawn := [] |}
    = Done (w', sc', 1%nat) r'.
Proof.
  cbn [while_loop cond_fn existsb orb].
  destruct (@body_fn_real (fun _ => 0) (fun _ => 0) (fun _ => 0) 0
              unit (fun g : unit => g)
              (fun _ _ _ => 1 / 2) (fun _ _ _ _ _ => 1 / 2)
              (vmf 2 [[1; 0]; [1; 0]] [0; 0] false true) 2 1
              (Some 1%Z) (Some 2%Z) [[5; 0]] [[false; true]] 0%nat
              {| ambient := tt; drawn := [] |})
    as (src1 & src2 & r' & Hb).
  cbv zeta in Hb. unfold bindR at 1. rewrite Hb.
  rewrite (@next_should_continue_zero (fun _ => 0) (fun _ => 0) (fun _ => 0) 0).
  - eexists; eexists; eexists; reflexivity.
  - lia.
  - repeat constructor.
  - apply (@tabulate2_Forall (fun u => u <= 1)). intros; lra.
Qed.
End FrozenExample.

Lemma accepted_lanes_frozen_witness :
  exists w' sc' r',
    while_loop 2 cond_fn
      (@body_fn R
         (R_scalar (fun _ => 0%R) (fun _ => 0%R) (fun _ => 0%R) 0%R)
         unit (fun g : unit => g)
         (fun _ _ _ => (1 / 2)%R) (fun _ _ _ _ _ => (1 / 2)%R)
         (vmf 2 [[1; 0]; [1; 0]]%R [0; 0]%R false true) 2 1
         (Some 1%Z) (Some 2%Z))
      ([[5; 0]]%R, [[false; true]], 0%nat)
      {| ambient := tt; drawn := [] |}
    = Done (w', sc', 1%nat) r' /\
    entry w' 0 0 = Some 5%R /\ entry sc' 0 0 = Some false.
Proof.
  destruct frozen_example_run as (w' & sc' & r' & H).
  exists w', sc', r'. split; [exact H|].
  apply (@accepted_lanes_frozen R
           (R_scalar (fun _ => 0%R) (fun _ => 0%R) (fun _ => 0%R) 0%R)
           unit (fun g => g)
           (fun _ _ _ => (1 / 2)%R) (fun _ _ _ _ _ => (1 / 2)%R)
           (vmf 2 [[1; 0]; [1; 0]]%R [0; 0]%R false true) 2 1 2
           (Some 1%Z) (Some 2%Z)
           [[5; 0]]%R w' [[false; true]] sc' 0%nat 1%nat
           {| ambient := tt; drawn := [] |} r' 0%nat 0%nat 5%R H).
  - lia.
  - cbn. lia.
  - reflexivity.
  - reflexivity.
Defined.

(** ** The angle of a sample to the mean direction *)

Section NthInversion.
Variables A B C : Type.

Lemma Forall_nth_error (P : A -> Prop) (l : list A) (i : nat) (a : A) :
  Forall P l -> nth_error l i = Some a -> P a.
Proof.
  intros H Hi. rewrite Forall_forall in H. apply H.
  now apply nth_error_In with i.
Qed.
End NthInversion.

Section SampleCosine.
Open Scope R_scope.
Variables (i0e i1e lgam : R -> R) (tol : R).
Variable G : Type.
Variable hash : Z -> nat -> string -> Z.
Variable next_state : G -> G.
Variable uniform_at : source G -> nat -> nat -> R.
Variable normal_at : source G -> nat -> nat -> nat -> R.
Variable beta_at : R -> R -> source G -> nat -> nat -> R.

Local Hint Extern 0 (Scalar R) =>
  exact (R_scalar i0e i1e lgam tol) : typeclass_instances.

(** One sample about the basis vector: for [|w| <= 1] the second
    normalisation changes nothing, and the first coordinate is [w]. *)
Lemma assemble_vector_first (w : R) (o : list R) :
  -1 <= w <= 1 ->
  / 1000000000000 <= dot o o ->
  l2_normalize
    ([w] ++ bcast_mul
              (map (fun x => sqrtf (maximum (sub one (square x)) zero)) [w])
              (l2_normalize o))
  = w :: map (fun oj => sqrt (1 - w * w) * oj) (l2_normalize o).
Proof.
  intros Hw Ho. cbn [map bcast_mul app]. unfold square. real_ops.
  rewrite real_one, real_zero.
  assert (Hp : 0 <= 1 - w * w) by nra.
  rewrite Rmax_left by lra.
  set (v := w :: map (fun oj => sqrt (1 - w * w) * oj) (l2_normalize o)).
  assert (Hv : dot v v = 1).
  { unfold v. rewrite real_dot_cons.
    rewrite (@real_dot_scale_l i0e i1e lgam tol).
    rewrite (@normalize_unit i0e i1e lgam tol o Ho).
    rewrite sqrt_sqrt by assumption. lra. }
  rewrite real_l2_normalize, Hv, Rmax_left by lra.
  rewrite sqrt_1. rewrite <- (map_id v) at 2.
  apply map_ext. intros a. field.
Qed.

Lemma real_dot_repeat_zero_r (k : nat) (v : list R) :
  dot v (repeat zero k) = 0.
Proof.
  rewrite (real_dot_comm i0e i1e lgam tol).
  apply (@real_dot_repeat_zero i0e i1e lgam tol).
Qed.

Lemma real_dot_first (D : nat) (e1 : list R) (a : R) (v : list R) :
  basis D = Ok e1 -> dot (a :: v) e1 = a.
Proof.
  destruct D as [|k]; [discriminate|]. intros [= <-].
  rewrite real_dot_cons, real_dot_repeat_zero_r.
  replace (Q2R 1) with 1 by (unfold Q2R; simpl; lra). lra.
Qed.

(** The rotated sample makes with the mean direction the angle the
    sample made with the basis vector. *)
Lemma rotated_cosine (D : nat) (e1 m v : list R) :
  basis D = Ok e1 ->
  List.length m = D ->
  List.length v = D ->
  dot m m = 1 ->
  dot (zip_with sub e1 m) (zip_with sub e1 m) = 0 \/
  / 1000000000000 <= dot (zip_with sub e1 m) (zip_with sub e1 m) ->
  dot (reflect (l2_normalize (zip_with sub e1 m)) v) m = dot v e1.
Proof.
  intros He Hm Hv Hu Hq.
  pose proof (@basis_length i0e i1e lgam tol D e1 He) as Hl.
  pose proof (@reflect_basis_to_mean i0e i1e lgam tol D e1 m He Hm Hu Hq)
    as Hr.
  rewrite <- Hr at 2.
  assert (Hlu : List.length (l2_normalize (zip_with sub e1 m)) = D).
  { rewrite l2_normalize_length, zip_with_length, Hl, Hm. apply Nat.min_id. }
  apply (@reflect_isometry i0e i1e lgam tol); [congruence | congruence |].
  destruct Hq as [Hq|Hq].
  - right. intros v0. now apply (@normalize_zero i0e i1e lgam tol).
  - left. now apply (@normalize_unit i0e i1e lgam tol).
Qed.

(** X15.  The cosine of the angle between a sample and the mean
    direction is the first coordinate that was drawn for it: for unit
    mean directions (each the basis vector or at least [1e-6] away from
    it), a normal draw with no vector shorter than [1e-6], and a first
    coordinate [w] in [[-1, 1]], the sample [x] that [_sample_n] returns
    at the same sample and batch index satisfies [x . mu = w]. *)
Theorem sample_cosine (d : VonMisesFisher R) (e1 : list R)
    (fuel n : nat) (seed : option Z) (r r' : rng G)
    (x : list (list (list R))) :
  basis (event_dim d) = Ok e1 ->
  Forall (fun m =>
            List.length m = event_dim d /\
            dot m m = 1 /\
            (dot (zip_with sub e1 m) (zip_with sub e1 m) = 0 \/
             / 1000000000000 <= dot (zip_with sub e1 m) (zip_with sub e1 m)))
    (mean_direction d) ->
  (forall src i b,
      let o := map (normal_at src i b) (seq 0 (event_dim d - 1)) in
      / 1000000000000 <= dot o o) ->
  _sample_n hash next_state uniform_at normal_at beta_at d fuel n seed r
  = Done x r' ->
  exists (w : list (list R)) (stream : SeedStream) (r1 : rng G),
    first_coordinate hash next_state uniform_at beta_at d fuel n seed
      (SeedStream_new seed "vom_mises_fisher") r
    = Done (map (map (fun wi => [wi])) w, stream) r1 /\
    forall (i b : nat) (wi : R) (v m : list R),
      entry w i b = Some wi ->
      entry x i b = Some v ->
      nth_error (mean_direction d) b = Some m ->
      -1 <= wi <= 1 ->
      dot v m = wi.
Proof.
  intros He Hm Hn H. unfold _sample_n in H.
  apply bindR_done in H as ([x0 stream] & r1 & H1 & H).
  pose proof H1 as H1'. apply first_coordinate_shape in H1' as [w ->].
  exists w, stream, r1. split; [exact H1|].
  apply bindR_done in H as (? & r2 & _ & H).
  destruct (SeedStream_call hash stream) as [s1 st1].
  apply bindR_done in H as (normal & r3 & H3 & H).
  apply random_normal_value in H3 as [src ->].
  apply bindR_done in H as (samples & r4 & H4 & H).
  apply if_check_numerics3_done in H4. subst samples.
  apply bindR_done in H as (? & r5 & _ & H).
  apply bindR_done in H as (? & r6 & _ & H).
  apply lift_done in H as [H _].
  rewrite rotate_value with (1 := He) in H. injection H as <-.
  assert (HD : Datatypes.S (event_dim d - 1) = event_dim d).
  { destruct (event_dim d); [discriminate | lia]. }
  assert (HN : Forall (Forall (fun o => List.length o = (event_dim d - 1)%nat /\
                                        / 1000000000000 <= dot o o))
                 (tabulate3 n (batch_size d) (event_dim d - 1)
                    (normal_at src))).
  { unfold tabulate3. apply Forall_map, Forall_forall. intros i _.
    apply Forall_map, Forall_forall. intros b _. split.
    - now rewrite length_map, length_seq.
    - apply Hn. }
  revert HN. generalize (tabulate3 n (batch_size d) (event_dim d - 1)
                           (normal_at src)) as normal.
  intros normal HN i b wi v m Hw Hx Hmb Hwi.
  apply entry_rows in Hw as (wrow & Hw & Hwb).
  apply entry_rows in Hx as (xrow & Hx & Hxb).
  apply map_nth_error_inv in Hx as (arow & Ha & ->).
  apply zip_with_nth_error_inv in Hxb as (m' & a & Hm' & Hab & ->).
  rewrite Hmb in Hm'. injection Hm' as <-.
  unfold assemble in Ha.
  apply map_nth_error_inv in Ha as (prow & Hp & ->).
  apply map_nth_error_inv in Hab as (p & Hpb & ->).
  apply zip_with_nth_error_inv in Hp as (Wrow & Nrow & HW & HN' & ->).
  apply zip_with_nth_error_inv in Hpb as (d0 & o' & Hd0 & Ho' & ->).
  apply map_nth_error_inv in HW as (wrow' & Hw' & ->).
  rewrite Hw in Hw'. injection Hw' as <-.
  apply map_nth_error_inv in Hd0 as (wi' & Hwi' & ->).
  rewrite Hwb in Hwi'. injection Hwi' as <-.
  apply map_nth_error_inv in HN' as (nrow & Hnrow & ->).
  apply map_nth_error_inv in Ho' as (o & Ho & ->).
  pose proof (@Forall_nth_error _ _ _ _ _ HN Hnrow) as HNrow.
  pose proof (@Forall_nth_error _ _ _ _ _ HNrow Ho) as [Hlo Hqo].
  pose proof (@Forall_nth_error _ _ _ _ _ Hm Hmb) as (Hlm & Hum & Hqm).
  rewrite (@assemble_vector_first wi o Hwi Hqo).
  rewrite (@rotated_cosine (event_dim d) e1 m _ He Hlm).
  - now apply real_dot_first with (D := event_dim d).
  - cbn [List.length]. now rewrite length_map, l2_normalize_length, Hlo.
  - assumption.
  - assumption.
Qed.
End SampleCosine.

Section BasisMeanExample.
Open Scope R_scope.
Variables (i0e i1e lgam : R -> R) (tol : R).

Local Hint Extern 0 (Scalar R) =>
  exact (R_scalar i0e i1e lgam tol) : typeclass_instances.

(** The mean direction that is the basis vector itself. *)
Lemma basis_mean_valid :
  Forall (fun m =>
            List.length m = 2%nat /\
            dot m m = 1 /\
            (dot (zip_with sub [one; zero] m) (zip_with sub [one; zero] m) = 0 \/
             / 1000000000000
             <= dot (zip_with sub [one; zero] m) (zip_with sub [one; zero] m)))
    [[1; 0]].
Proof.
  constructor; [|constructor]. split; [reflexivity|]. split.
  - rewrite !real_dot_cons, real_dot_nil_l. lra.
  - left. apply basis_mean_difference.
Qed.
End BasisMeanExample.

Lemma sample_cosine_witness :
  exists (w : list (list R)) (stream : SeedStream) (r1 : rng unit),
    @first_coordinate R
      (R_scalar (fun _ => 0%R) (fun _ => 0%R) (fun _ => 0%R) 0%R)
      unit (fun _ _ _ => 0%Z) (fun g => g)
      (fun _ _ _ => (1 / 2)%R) (fun _ _ _ _ _ => (1 / 2)%R)
      (vmf 2 [[1; 0]%R] [0%R] false true) 2 1 (Some 0%Z)
      (SeedStream_new (Some 0%Z) "vom_mises_fisher")
      {| ambient := tt; drawn := [] |}
    = Done (map (map (fun wi => [wi])) w, stream) r1 /\
    forall (i b : nat) (wi : R) (v m : list R),
      entry w i b = Some wi ->
      entry [[[0; 1]%R]] i b = Some v ->
      nth_error [[1; 0]%R] b = Some m ->
      (-1 <= wi <= 1)%R ->
      @dot R (R_scalar (fun _ => 0%R) (fun _ => 0%R) (fun _ => 0%R) 0%R) v m
      = wi.
Proof.
  apply (@sample_cosine
           (fun _ => 0%R) (fun _ => 0%R) (fun _ => 0%R) 0%R
           unit (fun _ _ _ => 0%Z) (fun g => g)
           (fun _ _ _ => (1 / 2)%R) (fun _ _ _ _ => 1%R)
           (fun _ _ _ _ _ => (1 / 2)%R)
           (vmf 2 [[1; 0]%R] [0%R] false true)
           [Q2R 1; Q2R 0] 2 1 (Some 0%Z)
           {| ambient := tt; drawn := [] |}
           {| ambient := tt;
              drawn := [(Beta, Some 0%Z); (Uniform, Some 0%Z);
                        (Normal, Some 0%Z)] |}).
  - reflexivity.
  - apply basis_mean_valid.
  - intros src i b.
    exact (@unit_normal_draw (fun _ => 0%R) (fun _ => 0%R) (fun _ => 0%R)
             0%R 2 eq_refl).
  - apply sample_at_basis.
Defined.

(** ** The sampler in three dimensions always returns *)

Section ThreeDimensionalSampler.
Context {F : Type} {S : Scalar F}.
Variable G : Type.
Variable hash : Z -> nat -> string -> Z.
Variable next_state : G -> G.
Variable uniform_at : source G -> nat -> nat -> F.
Variable normal_at : source G -> nat -> nat -> nat -> F.
Variable beta_at : F -> F -> source G -> nat -> nat -> F.

Lemma static_event_dim_3 (d : VonMisesFisher F) :
  event_shape_value d = Some 3%nat -> event_dim d = 3%nat.
Proof.
  unfold event_shape_value, static_event_dim.
  destruct (static_shape d); [|discriminate]. now intros [= ->].
Qed.

Lemma assemble_length (x0 normal : list (list (list F))) :
  List.length (assemble x0 normal)
  = Nat.min (List.length x0) (List.length normal).
Proof.
  unfold assemble. now rewrite length_map, zip_with_length, length_map.
Qed.

Lemma tabulate2_length (n B : nat) (f : nat -> nat -> F) :
  List.length (tabulate2 n B f) = n.
Proof. unfold tabulate2. now rewrite length_map, length_seq. Qed.

Lemma tabulate3_length (n B D : nat) (f : nat -> nat -> nat -> F) :
  List.length (tabulate3 n B D f) = n.
Proof. unfold tabulate3. now rewrite length_map, length_seq. Qed.

End ThreeDimensionalSampler.

(** ** The covariance *)

Section CovarianceFacts.
Context {F : Type} {S : Scalar F}.
Open Scope scalar_scope.

Lemma safe_length (z : list F) : List.length (safe z) = List.length z.
Proof. rewrite safe_map. apply length_map. Qed.

Lemma zip_with_zip_l {A B C D : Type} (f : A -> C -> D) (g : A -> B -> C)
    (l : list A) (l' : list B) :
  zip_with f l (zip_with g l l') = zip_with (fun a b => f a (g a b)) l l'.
Proof.
  revert l'; induction l as [|a l IH]; intros [|b l']; cbn; try reflexivity.
  now rewrite IH.
Qed.

(** The last [tf.where] of [_covariance], matrix by matrix: the mask is
    computed from the matrix it selects from. *)
Lemma where_mask {A : Type} (g : list A -> list bool) (c iso : list (list A)) :
  zip_with (fun (cx : list bool * list A) erow => where_ (fst cx) (snd cx) erow)
    (combine (map g c) c) iso
  = zip_with (fun crow erow => where_ (g crow) crow erow) c iso.
Proof.
  revert iso; induction c as [|row c IH]; intros [|e iso]; cbn;
    try reflexivity.
  now rewrite IH.
Qed.

Lemma select_rows {K C M E T : Type} (G : K -> C -> M) (F1 : M * C -> E -> T)
    (conc : list K) (cov : list C) (iso : E) :
  List.length cov = List.length conc ->
  zip_with F1 (combine (zip_with G conc cov) cov)
    (repeat iso (List.length conc))
  = zip_with (fun k c => F1 (G k c, c) iso) conc cov.
Proof.
  revert cov; induction conc as [|k conc IH]; intros [|c cov]; cbn;
    try reflexivity; try discriminate.
  intros [= H]. now rewrite IH.
Qed.

(** Shapes that broadcast give a tensor of the broadcast size. *)
Lemma broadcast_with_ok {A B C : Type} (f : A -> B -> C) (l1 : list A)
    (l2 : list B) (n : nat) :
  broadcast_shape (List.length l1) (List.length l2) = Ok n ->
  exists l, broadcast_with f l1 l2 = Ok l /\ List.length l = n.
Proof.
  unfold broadcast_shape, broadcast_with.
  destruct (List.length l1 =? List.length l2)%nat eqn:Hl.
  - intros [= <-]. eexists; split; [reflexivity|].
    apply Nat.eqb_eq in Hl. rewrite zip_with_length. lia.
  - destruct l1 as [|a [|a' l1]]; destruct l2 as [|b [|b' l2]];
      cbn in Hl |- *; try discriminate; intros [= <-];
      eexists; (split; [reflexivity|]); cbn; now rewrite ?length_map.
Qed.

Lemma broadcast_shape_absorb (a b n : nat) :
  broadcast_shape a b = Ok n ->
  broadcast_shape n b = Ok n /\ broadcast_shape b n = Ok n.
Proof.
  unfold broadcast_shape.
  destruct (a =? b)%nat eqn:E1.
  { intros [= <-]. apply Nat.eqb_eq in E1. subst b.
    now rewrite Nat.eqb_refl. }
  destruct (a =? 1)%nat eqn:E2.
  { intros [= <-]. now rewrite Nat.eqb_refl. }
  destruct (b =? 1)%nat eqn:E3; [|discriminate].
  intros [= <-]. rewrite E1, E2, (Nat.eqb_sym b a), E1. now split.
Qed.

Ltac len :=
  repeat (rewrite zip_with_length || rewrite length_map
          || rewrite safe_length);
  lia.

(** [_covariance] with the parameters at one batch size and in
    [tf.float32]: every product pairs up along the batch. *)
Lemma covariance_same_shape (d : VonMisesFisher F) (D : nat)
    (n1 n2 : list F) :
  event_shape_value d = Some D ->
  (2 <? D)%nat = false ->
  _bessel_ive (half D) (safe (concentration d)) = Ok n1 ->
  _bessel_ive (half D - 1) (safe (concentration d)) = Ok n2 ->
  List.length n1 = List.length (concentration d) ->
  List.length n2 = List.length (concentration d) ->
  List.length (mean_direction d) = List.length (concentration d) ->
  dtype d = float32 ->
  _covariance d
  = Ok (let event_dim := of_Q (inject_Z (Z.of_nat D)) in
        let safe_conc := safe (concentration d) in
        let h := zip_with div n1 n2 in
        let factor :=
          zip_with (fun hk sc => one -. event_dim *. hk /. sc -. square hk)
            h safe_conc in
        let intermediate :=
          zip_with (fun m f => map (map (fun x => x *. f)) (outer m))
            (mean_direction d) factor in
        let shift := zip_with div h safe_conc in
        let cov :=
          zip_with
            (fun t s =>
               matrix_set_diag t (map (fun x => x +. s) (matrix_diag_part t)))
            intermediate shift in
        let isotropic := map (map (fun x => x /. event_dim)) (eye D) in
        zip_with
          (fun k c =>
             zip_with
               (fun crow erow =>
                  where_ (map (fun z0 => z0 <?. k) (zeros_like crow))
                    crow erow)
               c isotropic)
          (concentration d) cov).
Proof.
  intros HE HD H1 H2 L1 L2 Hml Hdt. unfold _covariance.
  rewrite HE, HD, H1, H2. cbn [bind].
  rewrite broadcast_with_same by len. cbn [bind].
  rewrite broadcast_with_same by len. cbn [bind].
  rewrite zip_with_zip_l.
  rewrite broadcast_with_same by len. cbn [bind].
  unfold _batch_shape_tensor, broadcast_shape.
  rewrite Hml, Nat.eqb_refl. cbn [bind]. rewrite Hdt. cbn [is_float32].
  cbv zeta. f_equal.
  rewrite select_rows by len.
  apply zip_with_ext. intros k c. cbn [fst snd].
  apply (where_mask (fun crow => map (fun z0 => z0 <?. k) (zeros_like crow))).
Qed.

(** [_covariance] when the two Bessel values are known as functions of
    the entries of [safe_conc]: the result, and its entry for one batch
    member. *)
Lemma covariance_entry (d : VonMisesFisher F) (D : nat) (f1 f2 : F -> F)
    (b : nat) (k : F) (m : list F) :
  event_shape_value d = Some D ->
  (2 <? D)%nat = false ->
  _bessel_ive (half D) (safe (concentration d))
  = Ok (map f1 (safe (concentration d))) ->
  _bessel_ive (half D - 1) (safe (concentration d))
  = Ok (map f2 (safe (concentration d))) ->
  List.length (mean_direction d) = List.length (concentration d) ->
  dtype d = float32 ->
  nth_error (concentration d) b = Some k ->
  nth_error (mean_direction d) b = Some m ->
  exists c,
    _covariance d = Ok c /\
    nth_error c b
    = Some
        (let sc := if gt0 k then k else one in
         let h := f1 sc /. f2 sc in
         let t :=
           map (map (fun x =>
                       x *. (one -. of_Q (inject_Z (Z.of_nat D)) *. h /. sc
                             -. square h)))
             (outer m) in
         let cov :=
           matrix_set_diag t
             (map (fun x => x +. h /. sc) (matrix_diag_part t)) in
         zip_with
           (fun crow erow =>
              where_ (map (fun z0 => z0 <?. k) (zeros_like crow)) crow erow)
           cov
           (map (map (fun x => x /. of_Q (inject_Z (Z.of_nat D)))) (eye D))).
Proof.
  intros HE HD H1 H2 Hml Hdt Hk Hm.
  rewrite (covariance_same_shape d HE HD H1 H2) by (try assumption; len).
  eexists. split; [reflexivity|]. cbv zeta.
  assert (Hsc : nth_error (safe (concentration d)) b
                = Some (if gt0 k then k else one)).
  { rewrite safe_map.
    exact (map_nth_error (fun x => if gt0 x then x else one) _ _ Hk). }
  set (sc := if gt0 k then k else one) in * .
  pose proof (@zip_with_nth_error _ _ _ div _ _ _ _ _
                (map_nth_error f1 _ _ Hsc) (map_nth_error f2 _ _ Hsc)) as Hh.
  pose proof (@zip_with_nth_error _ _ _
                (fun hk s =>
                   one -. of_Q (inject_Z (Z.of_nat D)) *. hk /. s -. square hk)
                _ _ _ _ _ Hh Hsc) as Hf.
  pose proof (@zip_with_nth_error _ _ _
                (fun m f => map (map (fun x => x *. f)) (outer m))
                _ _ _ _ _ Hm Hf) as Hi.
  pose proof (@zip_with_nth_error _ _ _ div _ _ _ _ _ Hh Hsc) as Hs.
  pose proof (@zip_with_nth_error _ _ _
                (fun t s =>
                   matrix_set_diag t
                     (map (fun x => x +. s) (matrix_diag_part t)))
                _ _ _ _ _ Hi Hs) as Hc.
  exact (@zip_with_nth_error _ _ _
           (fun k c =>
              zip_with
                (fun crow erow =>
                   where_ (map (fun z0 => z0 <?. k) (zeros_like crow))
                     crow erow)
                c
                (map (map (fun x => x /. of_Q (inject_Z (Z.of_nat D))))
                   (eye D)))
           _ _ _ _ _ Hk Hc).
Qed.

(** [_covariance] whatever broadcasts: one matrix per member of the
    broadcast batch in [tf.float32], and the [TypeError] of the last
    [tf.where] in any other type. *)
Lemma covariance_broadcast (d : VonMisesFisher F) (D B : nat)
    (n1 n2 : list F) :
  event_shape_value d = Some D ->
  (2 <? D)%nat = false ->
  _bessel_ive (half D) (safe (concentration d)) = Ok n1 ->
  _bessel_ive (half D - 1) (safe (concentration d)) = Ok n2 ->
  List.length n1 = List.length (concentration d) ->
  List.length n2 = List.length (concentration d) ->
  _batch_shape_tensor d = Ok B ->
  exists c,
    List.length c = B /\
    _covariance d
    = if is_float32 (dtype d) then Ok c
      else Err (TypeError
                  "Input 'e' of 'Select' Op has type float32 that does not match the type of argument 't'").
Proof.
  intros HE HD H1 H2 L1 L2 HB. unfold _covariance.
  rewrite HE, HD, H1, H2. cbn [bind]. unfold _batch_shape_tensor in HB.
  destruct (broadcast_shape_absorb _ _ HB) as [HB1 HB2].
  match goal with
  | |- context [bind (broadcast_with ?f ?l1 ?l2) _] =>
      destruct (@broadcast_with_ok _ _ _ f l1 l2 B) as (inter & Ei & Li);
        [|rewrite Ei]
  end.
  { replace (List.length (zip_with _ _ (safe (concentration d))))
      with (List.length (concentration d)) by len.
    exact HB. }
  cbn [bind].
  match goal with
  | |- context [bind (broadcast_with ?f ?l1 ?l2) _] =>
      destruct (@broadcast_with_ok _ _ _ f l1 l2 B) as (diag & Ed & Ld);
        [|rewrite Ed]
  end.
  { rewrite Li.
    replace (List.length (zip_with div _ (safe (concentration d))))
      with (List.length (concentration d)) by len.
    exact HB1. }
  cbn [bind].
  match goal with
  | |- context [bind (broadcast_with ?f ?l1 ?l2) _] =>
      destruct (@broadcast_with_ok _ _ _ f l1 l2 B) as (cond & Ec & Lc);
        [|rewrite Ec]
  end.
  { rewrite zip_with_length, Li, Ld, Nat.min_id. exact HB2. }
  cbn [bind]. unfold _batch_shape_tensor. rewrite HB. cbn [bind].
  eexists. split; [|reflexivity].
  rewrite zip_with_length, length_combine, repeat_length, zip_with_length.
  lia.
Qed.
End CovarianceFacts.

Section CovarianceReal.
Open Scope R_scope.
Variables (i0e i1e lgam : R -> R) (tol : R).

Local Hint Extern 0 (Scalar R) =>
  exact (R_scalar i0e i1e lgam tol) : typeclass_instances.

Lemma static_event_shape (d : VonMisesFisher R) :
  static_shape d = true -> event_shape_value d = Some (event_dim d).
Proof.
  intros H. unfold event_shape_value, static_event_dim. now rewrite H.
Qed.

Lemma half_1 : (half 1 == 1 # 2)%Q.
Proof. reflexivity. Qed.

Lemma half_0 : (half 0 == 0)%Q.
Proof. reflexivity. Qed.

(** X17.  [_covariance] is there for one and two dimensions and for
    [tf.float32] only.  Over the reals, with the event size known
    statically: an event size above 2 raises the [ValueError] on
    numerical instability before anything is computed, a zero event size
    raises [KeyError] from the Bessel evaluator at order -1, and an
    event size that is not known statically raises the [ValueError] on
    the static shape; for an event size of 1 or 2 and parameters that
    broadcast it returns one matrix per member of the broadcast batch
    when the distribution is in [tf.float32], and in any other type it
    raises [TypeError], the identity of the last [tf.where] being built
    in [tf.float32]. *)
Theorem covariance_supported (d : VonMisesFisher R) :
  (static_shape d = false ->
   _covariance d
   = Err (ValueError "event shape must be statically known for _bessel_ive"))
  /\
  (static_shape d = true -> (2 < event_dim d)%nat ->
   _covariance d
   = Err (ValueError "vMF covariance is numerically unstable for dim>2")) /\
  (static_shape d = true -> event_dim d = 0%nat ->
   _covariance d = Err (KeyError (half 0 - 1))) /\
  (static_shape d = true -> event_dim d = 1%nat \/ event_dim d = 2%nat ->
   forall B : nat,
     _batch_shape_tensor d = Ok B ->
     (dtype d = float32 ->
      exists c, _covariance d = Ok c /\ List.length c = B) /\
     (dtype d <> float32 ->
      _covariance d
      = Err (TypeError
               "Input 'e' of 'Select' Op has type float32 that does not match the type of argument 't'"))).
Proof.
  split; [|split; [|split]].
  - intros H. unfold _covariance, event_shape_value, static_event_dim.
    now rewrite H.
  - intros H HD. unfold _covariance. rewrite (static_event_shape d H).
    apply Nat.ltb_lt in HD. now rewrite HD.
  - intros H HD. unfold _covariance. rewrite (static_event_shape d H), HD.
    cbn [Nat.ltb Nat.leb].
    rewrite (@real_bessel_0 i0e i1e lgam tol (half 0) _ half_0).
    cbn [bind].
    rewrite (@bessel_ive_missing_low R _ (half 0 - 1)); [reflexivity|..];
      unfold half; cbn; intros Hq; discriminate Hq.
  - intros H HD B HB.
    assert (Hc : exists c,
               List.length c = B /\
               _covariance d
               = if is_float32 (dtype d) then Ok c
                 else Err (TypeError
                             "Input 'e' of 'Select' Op has type float32 that does not match the type of argument 't'")).
    { destruct HD as [HD|HD].
      + apply covariance_broadcast
          with (D := 1%nat)
               (n1 := map (fun x => sqrt (2 / PI) * (sinh x * exp (- Rabs x))
                                    * (if Rlt_dec 0 x then / sqrt x else 1))
                        (safe (concentration d)))
               (n2 := map (fun x => sqrt (2 / PI) * (cosh x * exp (- Rabs x))
                                    * (if Rlt_dec 0 x then / sqrt x else 1))
                        (safe (concentration d))).
        * rewrite <- HD. now apply static_event_shape.
        * reflexivity.
        * now apply real_bessel_half.
        * now apply real_bessel_minus_half.
        * now rewrite length_map, safe_length.
        * now rewrite length_map, safe_length.
        * exact HB.
      + apply covariance_broadcast
          with (D := 2%nat) (n1 := map i1e (safe (concentration d)))
               (n2 := map i0e (safe (concentration d))).
        * rewrite <- HD. now apply static_event_shape.
        * reflexivity.
        * now apply real_bessel_1.
        * now apply real_bessel_0.
        * now rewrite length_map, safe_length.
        * now rewrite length_map, safe_length.
        * exact HB. }
    destruct Hc as (c & Lc & Hc). split.
    + intros Hdt. exists c. rewrite Hc, Hdt. now split.
    + intros Hdt. rewrite Hc. destruct (dtype d); try reflexivity.
      now elim Hdt.
Qed.
End CovarianceReal.

Section CovarianceValues.
Open Scope R_scope.
Variables (i0e i1e lgam : R -> R) (tol : R).

Local Hint Extern 0 (Scalar R) =>
  exact (R_scalar i0e i1e lgam tol) : typeclass_instances.

Lemma real_event_dim (D : nat) : of_Q (inject_Z (Z.of_nat D)) = INR D.
Proof.
  real_ops. unfold Q2R. cbn [Qnum Qden inject_Z].
  rewrite <- INR_IZR_INZ. lra.
Qed.

(** The covariance of one batch member in two dimensions. *)
Lemma covariance_2d_entry (d : VonMisesFisher R) (b : nat) (k a b0 : R) :
  static_shape d = true ->
  event_dim d = 2%nat ->
  dtype d = float32 ->
  List.length (mean_direction d) = List.length (concentration d) ->
  nth_error (concentration d) b = Some k ->
  nth_error (mean_direction d) b = Some [a; b0] ->
  exists c,
    _covariance d = Ok c /\
    nth_error c b
    = Some (if Rlt_dec 0 k
            then
              let h := i1e k / i0e k in
              let f := 1 - 2 * h / k - h * h in
              [[a * a * f + h / k; a * b0 * f];
               [b0 * a * f; b0 * b0 * f + h / k]]
            else [[1 / 2; 0]; [0; 1 / 2]]).
Proof.
  intros Hs HD Hdt Hml Hk Hm.
  assert (HE : event_shape_value d = Some 2%nat).
  { rewrite <- HD. now apply static_event_shape. }
  destruct (@covariance_entry R _ d 2 i1e i0e b k [a; b0] HE eq_refl
              (@real_bessel_1 i0e i1e lgam tol (half 2) _ half_2)
              (@real_bessel_0 i0e i1e lgam tol (half 2 - 1) _
                 ltac:(reflexivity))
              Hml Hdt Hk Hm) as (c & Hc & Hb).
  exists c. split; [exact Hc|]. rewrite Hb. f_equal.
  cbv zeta. rewrite real_gt0, real_event_dim.
  unfold outer, matrix_set_diag, matrix_diag_part, eye, zeros_like, square.
  cbn [map List.length seq zip_with combine nth fst snd Nat.eqb where_].
  real_ops. rewrite real_one, real_zero. unfold Rltb.
  destruct (Rlt_dec 0 k) as [Hp|Hn].
  - reflexivity.
  - cbn [INR]. repeat f_equal; lra.
Qed.

(** The mean of one batch member in two dimensions. *)
Lemma mean_2d_entry (d : VonMisesFisher R) (b : nat) (k : R) (m : list R) :
  static_shape d = true ->
  event_dim d = 2%nat ->
  List.length (mean_direction d) = List.length (concentration d) ->
  nth_error (concentration d) b = Some k ->
  nth_error (mean_direction d) b = Some m ->
  exists mn,
    _mean d = Ok mn /\
    nth_error mn b
    = Some (if Rlt_dec 0 k then map (fun x => x * (i1e k / i0e k)) m
            else map (fun _ => 0) m).
Proof.
  intros Hs HD Hml Hk Hm.
  assert (HE : event_shape_value d = Some 2%nat).
  { rewrite <- HD. now apply static_event_shape. }
  eexists. split.
  - rewrite (@mean_from_values R _ d 2 i1e i0e HE).
    + apply broadcast_with_same. now symmetry.
    + apply real_bessel_1. apply half_2.
    + apply real_bessel_0. reflexivity.
  - erewrite zip_with_nth_error by eassumption.
    rewrite real_gt0. f_equal. destruct (Rlt_dec 0 k); [reflexivity|].
    apply map_ext. intros x. apply real_zero.
Qed.

(** X18.  In two dimensions the covariance and the mean agree on the
    second moment: for a distribution in [tf.float32] with its parameters
    at one batch size, a unit mean direction and [kappa > 0], the trace
    of the covariance matrix plus the squared length of the mean is 1
    (every sample has length 1), and the matrix is symmetric. *)
Theorem covariance_trace_2d (d : VonMisesFisher R) (b : nat)
    (k a b0 : R) :
  static_shape d = true ->
  event_dim d = 2%nat ->
  dtype d = float32 ->
  List.length (mean_direction d) = List.length (concentration d) ->
  nth_error (concentration d) b = Some k ->
  nth_error (mean_direction d) b = Some [a; b0] ->
  0 < k ->
  dot [a; b0] [a; b0] = 1 ->
  exists c mn cb mb,
    _covariance d = Ok c /\ _mean d = Ok mn /\
    nth_error c b = Some cb /\ nth_error mn b = Some mb /\
    reduce_sum (matrix_diag_part cb) + dot mb mb = 1 /\
    entry cb 0 1 = entry cb 1 0.
Proof.
  intros Hs HD Hdt Hml Hk Hm Hp Hu.
  destruct (covariance_2d_entry d b Hs HD Hdt Hml Hk Hm) as (c & Hc & Hcb).
  destruct (mean_2d_entry d b Hs HD Hml Hk Hm) as (mn & Hmn & Hmb).
  destruct (Rlt_dec 0 k) as [_|Hn]; [|contradiction].
  cbv zeta in Hcb. cbn [map] in Hmb.
  do 4 eexists.
  split; [exact Hc|]. split; [exact Hmn|].
  split; [exact Hcb|]. split; [exact Hmb|].
  rewrite !real_dot_cons, real_dot_nil_l in Hu.
  split.
  - unfold matrix_diag_part, reduce_sum.
    cbn [List.length seq zip_with nth fold_right].
    rewrite !real_dot_cons, real_dot_nil_l. real_ops. rewrite real_zero.
    set (h := i1e k / i0e k) in * .
    replace (a * a * (1 - 2 * h / k - h * h) + h / k
             + (b0 * b0 * (1 - 2 * h / k - h * h) + h / k + 0)
             + (a * h * (a * h) + (b0 * h * (b0 * h) + 0)))
      with ((a * a + (b0 * b0 + 0)) * (1 - 2 * h / k) + 2 * (h / k))
      by (field; lra).
    rewrite Hu. field. lra.
  - unfold entry. cbn [nth_error]. f_equal. ring.
Qed.

(** The covariance of one batch member in one dimension, at a
    concentration that is not positive. *)
Lemma covariance_1d_zero (d : VonMisesFisher R) (b : nat) (k a : R) :
  static_shape d = true ->
  event_dim d = 1%nat ->
  dtype d = float32 ->
  List.length (mean_direction d) = List.length (concentration d) ->
  nth_error (concentration d) b = Some k ->
  nth_error (mean_direction d) b = Some [a] ->
  k <= 0 ->
  exists c, _covariance d = Ok c /\ nth_error c b = Some [[1]].
Proof.
  intros Hs HD Hdt Hml Hk Hm Hn.
  assert (HE : event_shape_value d = Some 1%nat).
  { rewrite <- HD. now apply static_event_shape. }
  destruct (@covariance_entry R _ d 1 _ _ b k [a] HE eq_refl
              (@real_bessel_half i0e i1e lgam tol (half 1) _ half_1)
              (@real_bessel_minus_half i0e i1e lgam tol (half 1 - 1) _
                 ltac:(reflexivity))
              Hml Hdt Hk Hm) as (c & Hc & Hb).
  exists c. split; [exact Hc|]. rewrite Hb. f_equal.
  cbv zeta. rewrite real_event_dim.
  unfold outer, matrix_set_diag, matrix_diag_part, eye, zeros_like.
  cbn [map List.length seq zip_with combine nth fst snd Nat.eqb where_].
  real_ops. rewrite real_one, real_zero. unfold Rltb.
  destruct (Rlt_dec 0 k) as [Hp|_]; [lra|].
  cbn [INR]. repeat f_equal. lra.
Qed.

(** X19.  Where the concentration is not positive the covariance is
    that of the uniform distribution on the sphere, the identity divided
    by the event size: [[1]] in one dimension and [diag(1/2, 1/2)] in
    two, for a distribution in [tf.float32] with its parameters at one
    batch size. *)
Theorem covariance_zero_concentration (d : VonMisesFisher R) (b : nat)
    (k : R) (m : list R) :
  static_shape d = true ->
  dtype d = float32 ->
  List.length (mean_direction d) = List.length (concentration d) ->
  nth_error (concentration d) b = Some k ->
  nth_error (mean_direction d) b = Some m ->
  List.length m = event_dim d ->
  k <= 0 ->
  (event_dim d = 1%nat ->
   exists c, _covariance d = Ok c /\ nth_error c b = Some [[1]]) /\
  (event_dim d = 2%nat ->
   exists c,
     _covariance d = Ok c /\ nth_error c b = Some [[1 / 2; 0]; [0; 1 / 2]]).
Proof.
  intros Hs Hdt Hml Hk Hm Hl Hn. split; intros HD; rewrite HD in Hl.
  - destruct m as [|a [|a' m]]; try discriminate Hl.
    now apply covariance_1d_zero with (k := k) (a := a).
  - destruct m as [|a [|b0 [|c0 m]]]; try discriminate Hl.
    destruct (covariance_2d_entry d b Hs HD Hdt Hml Hk Hm) as (c & Hc & Hcb).
    exists c. split; [exact Hc|]. rewrite Hcb.
    destruct (Rlt_dec 0 k); [lra | reflexivity].
Qed.
End CovarianceValues.

Section CovarianceExample.
Open Scope R_scope.
Variables (i0e i1e lgam : R -> R) (tol : R).

Local Hint Extern 0 (Scalar R) =>
  exact (R_scalar i0e i1e lgam tol) : typeclass_instances.

Lemma basis_2_unit : dot [1; 0] [1; 0] = 1.
Proof. rewrite !real_dot_cons, real_dot_nil_l. lra. Qed.
End CovarianceExample.

Lemma covariance_trace_2d_witness :
  exists c mn cb mb,
    @_covariance R
      (R_scalar (fun _ => 0%R) (fun _ => 0%R) (fun _ => 0%R) 0%R)
      (vmf 2 [[1; 0]%R] [1%R] false true) = Ok c /\
    @_mean R (R_scalar (fun _ => 0%R) (fun _ => 0%R) (fun _ => 0%R) 0%R)
      (vmf 2 [[1; 0]%R] [1%R] false true) = Ok mn /\
    nth_error c 0 = Some cb /\ nth_error mn 0 = Some mb /\
    (@reduce_sum R
       (R_scalar (fun _ => 0%R) (fun _ => 0%R) (fun _ => 0%R) 0%R)
       (@matrix_diag_part R
          (R_scalar (fun _ => 0%R) (fun _ => 0%R) (fun _ => 0%R) 0%R) cb)
     + @dot R (R_scalar (fun _ => 0%R) (fun _ => 0%R) (fun _ => 0%R) 0%R)
         mb mb = 1)%R /\
    entry cb 0 1 = entry cb 1 0.
Proof.
  apply (@covariance_trace_2d
           (fun _ => 0%R) (fun _ => 0%R) (fun _ => 0%R) 0%R
           (vmf 2 [[1; 0]%R] [1%R] false true) 0 1%R 1%R 0%R).
  - reflexivity.
  - reflexivity.
  - reflexivity.
  - reflexivity.
  - reflexivity.
  - reflexivity.
  - lra.
  - apply basis_2_unit.
Defined.

Lemma covariance_zero_concentration_witness :
  (2%nat = 1%nat ->
   exists c,
     @_covariance R
       (R_scalar (fun _ => 0%R) (fun _ => 0%R) (fun _ => 0%R) 0%R)
       (vmf 2 [[1; 0]%R] [0%R] false true) = Ok c /\
     nth_error c 0 = Some [[1%R]]) /\
  (2%nat = 2%nat ->
   exists c,
     @_covariance R
       (R_scalar (fun _ => 0%R) (fun _ => 0%R) (fun _ => 0%R) 0%R)
       (vmf 2 [[1; 0]%R] [0%R] false true) = Ok c /\
     nth_error c 0 = Some [[1 / 2; 0]; [0; 1 / 2]]%R).
Proof.
  apply (@covariance_zero_concentration
           (fun _ => 0%R) (fun _ => 0%R) (fun _ => 0%R) 0%R
           (vmf 2 [[1; 0]%R] [0%R] false true) 0 0%R [1; 0]%R).
  - reflexivity.
  - reflexivity.
  - reflexivity.
  - reflexivity.
  - reflexivity.
  - reflexivity.
  - lra.
Defined.

(** ** The event sizes the log-density supports *)

Section LogNormalizationSupport.
Open Scope R_scope.
Variables (i0e i1e lgam : R -> R) (tol : R).

Local Hint Extern 0 (Scalar R) =>
  exact (R_scalar i0e i1e lgam tol) : typeclass_instances.

Lemma real_bessel_supported_1_5 (D : nat) :
  (1 <= D <= 5)%nat ->
  exists f : R -> R,
    forall z : list R, _bessel_ive (half D - 1) z = Ok (map f z).
Proof.
  intros H. destruct (Nat.eq_dec D 1) as [->|Hne].
  - eexists. intros z. apply real_bessel_minus_half. reflexivity.
  - apply (@real_bessel_supported i0e i1e lgam tol). lia.
Qed.

(** X20.  [_log_normalization], and with it the log-density, is there
    for event sizes 1 to 5.  Over the reals, with the event size known
    statically, it returns one value per concentration for an event size
    from 1 to 5; an event size of 6 or more raises the [ValueError] of
    the Bessel evaluator (the order is at least 2), a zero event size
    raises its [KeyError] at order -1, and an event size that is not
    known statically raises the [ValueError] on the static shape. *)
Theorem log_normalization_supported (d : VonMisesFisher R) :
  (static_shape d = false ->
   _log_normalization d
   = Err (ValueError
            "vMF _log_normalizer currently only supports statically known event shape"))
  /\
  (static_shape d = true -> (6 <= event_dim d)%nat ->
   _log_normalization d
   = Err (ValueError
            "Evaluating bessel_i by recurrence becomes imprecise for large v"))
  /\
  (static_shape d = true -> event_dim d = 0%nat ->
   _log_normalization d = Err (KeyError (half 0 - 1))) /\
  (static_shape d = true -> (1 <= event_dim d <= 5)%nat ->
   exists norms,
     _log_normalization d = Ok norms /\
     List.length norms = List.length (concentration d)).
Proof.
  split; [|split; [|split]].
  - intros H. unfold _log_normalization, event_shape_value, static_event_dim.
    now rewrite H.
  - intros H HD. unfold _log_normalization.
    rewrite (@static_event_shape d H).
    rewrite bessel_ive_large_order; [reflexivity|].
    unfold half. unfold Qle, Qminus, Qplus, Qopp, Qdiv, Qmult, Qinv, inject_Z.
    simpl. lia.
  - intros H HD. unfold _log_normalization.
    rewrite (@static_event_shape d H), HD.
    rewrite (@bessel_ive_missing_low R _ (half 0 - 1)); [reflexivity|..];
      unfold half; cbn; intros Hq; discriminate Hq.
  - intros H HD.
    destruct (real_bessel_supported_1_5 HD) as [f Hf].
    eexists. split.
    + apply log_normalization_from_values with (f := f).
      * now apply static_event_shape.
      * apply Hf.
    + apply length_map.
Qed.
End LogNormalizationSupport.

(** ** A request for no samples *)

Section EmptySample.
Context {F : Type} {S : Scalar F}.
Variable G : Type.
Variable hash : Z -> nat -> string -> Z.
Variable next_state : G -> G.
Variable uniform_at : source G -> nat -> nat -> F.
Variable normal_at : source G -> nat -> nat -> nat -> F.
Variable beta_at : F -> F -> source G -> nat -> nat -> F.

(** X21.  With [allow_nan_stats] false, asking [_sample_n] for zero
    samples raises, whatever the distribution is: the checks take the
    largest entry of a tensor with [tf.nn.top_k], which refuses a tensor
    with no entry.  (With [allow_nan_stats] true the checks are not
    made.) *)
Theorem sample_n_empty_raises (d : VonMisesFisher F) (fuel : nat)
    (seed : option Z) (r : rng G) :
  allow_nan_stats d = false ->
  exists e : error,
    _sample_n hash next_state uniform_at normal_at beta_at d
      (Datatypes.S fuel) 0 seed r
    = Raised _ _ e.
Proof.
  intros Ha. eexists.
  unfold _sample_n, first_coordinate, _sample_3d, wood_dim0.
  rewrite Ha. cbn [negb while_loop].
  destruct (event_shape_value d) as [[|[|[|[|D]]]]|]; destruct seed;
    reflexivity.
Qed.
End EmptySample.

Lemma sample_n_empty_raises_witness :
  exists e : error,
    @_sample_n R (R_scalar (fun _ => 0%R) (fun _ => 0%R) (fun _ => 0%R) 0%R)
      unit (fun _ _ _ => 0%Z) (fun g => g)
      (fun _ _ _ => (1 / 2)%R) (fun _ _ _ _ => 1%R)
      (fun _ _ _ _ _ => (1 / 2)%R)
      (vmf 3 [[0; 1; 0]%R] [1%R] false false) 1 0 (Some 0%Z)
      {| ambient := tt; drawn := [] |}
    = Raised _ _ e.
Proof.
  apply (@sample_n_empty_raises R
           (R_scalar (fun _ => 0%R) (fun _ => 0%R) (fun _ => 0%R) 0%R)
           unit (fun _ _ _ => 0%Z) (fun g => g)
           (fun _ _ _ => (1 / 2)%R) (fun _ _ _ _ => 1%R)
           (fun _ _ _ _ _ => (1 / 2)%R)
           (vmf 3 [[0; 1; 0]%R] [1%R] false false) 0 (Some 0%Z)
           {| ambient := tt; drawn := [] |}).
  reflexivity.
Defined.

(** ** The shape of a sample *)

Section ShapeFacts.
Variables A B C : Type.

Lemma where_length (c : list bool) (x y : list A) :
  List.length (where_ c x y)
  = Nat.min (List.length c) (Nat.min (List.length x) (List.length y)).
Proof.
  revert x y; induction c as [|b c IH]; intros [|a x] [|a' y];
    simpl; try reflexivity.
  now rewrite IH.
Qed.

Lemma zip_with_shape (f : A -> B -> C) (P : A -> Prop) (Q : B -> Prop)
    (R : C -> Prop) (n : nat) (l : list A) (l' : list B) :
  (forall a b, P a -> Q b -> R (f a b)) ->
  List.length l = n /\ Forall P l ->
  List.length l' = n /\ Forall Q l' ->
  List.length (zip_with f l l') = n /\ Forall R (zip_with f l l').
Proof.
  intros Hf [Hl HP] [Hl' HQ]. split.
  - rewrite zip_with_length, Hl, Hl'. apply Nat.min_id.
  - now apply Forall_zip_with with (Qa := P) (Qb := Q).
Qed.

Lemma combine_shape (P : A -> Prop) (Q : B -> Prop) (n : nat)
    (l : list A) (l' : list B) :
  List.length l = n /\ Forall P l ->
  List.length l' = n /\ Forall Q l' ->
  List.length (combine l l') = n /\
  Forall (fun p => P (fst p) /\ Q (snd p)) (combine l l').
Proof.
  intros [Hl HP] [Hl' HQ]. split.
  - rewrite length_combine, Hl, Hl'. apply Nat.min_id.
  - clear Hl Hl'. revert l' HQ.
    induction HP as [|a l Ha _ IH]; intros l' HQ; [constructor|].
    destruct HQ as [|b l' Hb HQ]; cbn [combine]; constructor.
    + now split.
    + now apply IH.
Qed.

Lemma map_shape (f : A -> B) (P : A -> Prop) (Q : B -> Prop) (n : nat)
    (l : list A) :
  (forall a, P a -> Q (f a)) ->
  List.length l = n /\ Forall P l ->
  List.length (map f l) = n /\ Forall Q (map f l).
Proof.
  intros Hf [Hl HP]. split; [now rewrite length_map|].
  apply Forall_map. revert HP. apply Forall_impl. exact Hf.
Qed.

Lemma seq_shape (f : nat -> A) (Q : A -> Prop) (n : nat) :
  (forall i, Q (f i)) ->
  List.length (map f (seq 0 n)) = n /\ Forall Q (map f (seq 0 n)).
Proof.
  intros Hf. split; [now rewrite length_map, length_seq|].
  apply Forall_map, Forall_forall. intros i _. apply Hf.
Qed.
End ShapeFacts.

Section SampleShape.
Context {F : Type} {S : Scalar F}.
Variable G : Type.
Variable hash : Z -> nat -> string -> Z.
Variable next_state : G -> G.
Variable uniform_at : source G -> nat -> nat -> F.
Variable normal_at : source G -> nat -> nat -> nat -> F.
Variable beta_at : F -> F -> source G -> nat -> nat -> F.

Lemma tabulate2_shape (n B : nat) (f : nat -> nat -> F) :
  List.length (tabulate2 n B f) = n /\
  Forall (fun row => List.length row = B) (tabulate2 n B f).
Proof.
  unfold tabulate2. apply seq_shape. intros i.
  now rewrite length_map, length_seq.
Qed.

Lemma next_w_shape (d : VonMisesFisher F) (D n : nat)
    (g : nat -> nat -> F) (w : list (list F)) (sc : list (list bool)) :
  List.length w = n /\ Forall (fun row => List.length row = batch_size d) w ->
  List.length sc = n /\
  Forall (fun row => List.length row = batch_size d) sc ->
  List.length (next_w d D (tabulate2 n (batch_size d) g) w sc) = n /\
  Forall (fun row => List.length row = batch_size d)
    (next_w d D (tabulate2 n (batch_size d) g) w sc).
Proof.
  intros Hw Hsc. unfold next_w.
  apply zip_with_shape
    with (P := fun cw : list bool * list F =>
                 List.length (fst cw) = batch_size d /\
                 List.length (snd cw) = batch_size d)
         (Q := fun row : list F => List.length row = batch_size d).
  - intros [c x] y [Hc Hx] Hy. cbn [fst snd] in * .
    rewrite where_length, Hc, Hx, Hy. now rewrite !Nat.min_id.
  - apply combine_shape
      with (P := fun c : list bool => List.length c = batch_size d)
           (Q := fun x : list F => List.length x = batch_size d);
      [exact Hsc|].
    apply map_shape
      with (P := fun row : list F => List.length row = batch_size d);
      [|apply tabulate2_shape].
    intros zrow Hz. rewrite zip_with_length, Hz. apply Nat.min_id.
  - exact Hw.
Qed.

Lemma next_should_continue_shape (d : VonMisesFisher F) (D n : nat)
    (g : nat -> nat -> F) (w : list (list F)) (sc : list (list bool)) :
  List.length w = n /\ Forall (fun row => List.length row = batch_size d) w ->
  List.length sc = n /\
  Forall (fun row => List.length row = batch_size d) sc ->
  List.length
    (next_should_continue d D w (tabulate2 n (batch_size d) g) sc) = n /\
  Forall (fun row => List.length row = batch_size d)
    (next_should_continue d D w (tabulate2 n (batch_size d) g) sc).
Proof.
  intros Hw Hsc. unfold next_should_continue.
  apply zip_with_shape
    with (P := fun row : list bool => List.length row = batch_size d)
         (Q := fun row : list bool => List.length row = batch_size d).
  - intros a b Ha Hb. rewrite zip_with_length, Ha, Hb. apply Nat.min_id.
  - exact Hsc.
  - apply zip_with_shape
      with (P := fun row : list F => List.length row = batch_size d)
           (Q := fun row : list F => List.length row = batch_size d).
    + intros wrow urow Hwr Hur.
      rewrite zip_with_length, length_combine, Hwr, Hur.
      unfold batch_size. now rewrite !Nat.min_id.
    + exact Hw.
    + apply tabulate2_shape.
Qed.

Lemma body_fn_shape (d : VonMisesFisher F) (D n : nat) (s1 s2 : option Z)
    (w w' : list (list F)) (sc sc' : list (list bool)) (s s' : nat)
    (r r' : rng G) :
  body_fn next_state uniform_at beta_at d D n s1 s2 (w, sc, s) r
  = Done (w', sc', s') r' ->
  List.length w = n /\ Forall (fun row => List.length row = batch_size d) w ->
  List.length sc = n /\
  Forall (fun row => List.length row = batch_size d) sc ->
  (List.length w' = n /\
   Forall (fun row => List.length row = batch_size d) w') /\
  (List.length sc' = n /\
   Forall (fun row => List.length row = batch_size d) sc').
Proof.
  intros H Hw Hsc. unfold body_fn in H.
  apply bindR_done in H as (z & r1 & Hz & H).
  unfold beta_sample in Hz.
  apply bindR_done in Hz as (src & r0 & _ & Hz).
  apply ret_done in Hz as [-> _].
  apply bindR_done in H as (w1 & r2 & Hw1 & H).
  apply lift_done in Hw1 as [Hw1 _].
  apply check_numerics2_ok in Hw1. subst w1.
  apply bindR_done in H as (unif & r3 & Hu & H).
  unfold random_uniform in Hu.
  apply bindR_done in Hu as (src2 & r4 & _ & Hu).
  apply ret_done in Hu as [-> _].
  apply ret_done in H as [[= -> -> ->] _].
  split; [now apply next_w_shape|].
  apply next_should_continue_shape; [|exact Hsc].
  now apply next_w_shape.
Qed.

Lemma while_loop_shape (d : VonMisesFisher F) (D n fuel : nat)
    (s1 s2 : option Z)
    (w w' : list (list F)) (sc sc' : list (list bool)) (s s' : nat)
    (r r' : rng G) :
  while_loop fuel cond_fn
    (body_fn next_state uniform_at beta_at d D n s1 s2) (w, sc, s) r
  = Done (w', sc', s') r' ->
  List.length w = n /\ Forall (fun row => List.length row = batch_size d) w ->
  List.length sc = n /\
  Forall (fun row => List.length row = batch_size d) sc ->
  List.length w' = n /\ Forall (fun row => List.length row = batch_size d) w'.
Proof.
  revert w sc s r. induction fuel as [|fuel IH]; intros w sc s r H Hw Hsc;
    [discriminate|].
  cbn [while_loop] in H. destruct (cond_fn (w, sc, s)).
  - apply bindR_done in H as ([[w1 sc1] run1] & r1 & H1 & H).
    destruct (@body_fn_shape d D n s1 s2 w w1 sc sc1 s run1 r r1 H1 Hw Hsc)
      as [Hw1 Hsc1].
    exact (IH w1 sc1 run1 r1 H Hw1 Hsc1).
  - apply ret_done in H as [[= -> -> ->] _]. exact Hw.
Qed.

(** The first coordinates come one per sample and batch member. *)
Lemma first_coordinate_shape2 (d : VonMisesFisher F) (fuel n : nat)
    (seed0 : option Z) (stream stream' : SeedStream) (r r' : rng G)
    (x : list (list (list F))) :
  first_coordinate hash next_state uniform_at beta_at d fuel n seed0
    stream r = Done (x, stream') r' ->
  exists w,
    x = map (map (fun wi => [wi])) w /\
    List.length w = n /\
    Forall (fun row => List.length row = batch_size d) w.
Proof.
  unfold first_coordinate.
  assert (Hwood :
    wood_dim0 hash next_state uniform_at beta_at d fuel (event_dim d) n
      stream r = Done (x, stream') r' ->
    exists w,
      x = map (map (fun wi => [wi])) w /\
      List.length w = n /\
      Forall (fun row => List.length row = batch_size d) w).
  { intros H. unfold wood_dim0 in H.
    apply bindR_done in H as ([[w sc] st1] & r1 & Hw & Hr).
    apply ret_done in Hr as [[= -> _] _]. exists w.
    split; [reflexivity|].
    apply while_loop_shape in Hw; [exact Hw | apply tabulate2_shape |].
    apply seq_shape. intros i. now rewrite length_map, length_seq. }
  destruct (event_shape_value d) as [[|[|[|[|D]]]]|]; try exact Hwood.
  intros H. apply bindR_done in H as (u & r1 & Hu & Hr).
  apply ret_done in Hr as [[= -> _] _].
  unfold _sample_3d in Hu.
  destruct (SeedStream_call hash _) as [s1 st1].
  apply bindR_done in Hu as (z & r2 & Hz & Hu).
  unfold random_uniform in Hz.
  apply bindR_done in Hz as (src & r0 & _ & Hz).
  apply ret_done in Hz as [-> _].
  apply bindR_done in Hu as (u' & r3 & Hu' & Hu).
  apply ret_done in Hu as [-> _].
  assert (Hu'' : u' = map (u_row_3d d)
                        (tabulate2 n (batch_size d) (uniform_at src))).
  { destruct (negb (allow_nan_stats d)).
    - apply lift_done in Hu' as [Hu' _].
      now apply check_numerics2_ok in Hu'.
    - now apply ret_done in Hu' as [-> _]. }
  subst u'. eexists. split; [reflexivity|].
  apply map_shape
    with (P := fun row : list F => List.length row = batch_size d);
    [|apply tabulate2_shape].
  intros zrow Hz. rewrite u_row_3d_zip, zip_with_length, Hz.
  unfold batch_size. apply Nat.min_id.
Qed.

Lemma l2_normalize_length_any (x : list F) :
  List.length (l2_normalize x) = List.length x.
Proof. unfold l2_normalize. apply length_map. Qed.

Lemma assemble_shape (n B k : nat) (w : list (list F))
    (normal : list (list (list F))) :
  List.length w = n /\ Forall (fun row => List.length row = B) w ->
  List.length normal = n /\
  Forall (fun row => List.length row = B /\
                     Forall (fun o => List.length o = k) row) normal ->
  List.length (assemble (map (map (fun wi => [wi])) w) normal) = n /\
  Forall (fun row => List.length row = B /\
                     Forall (fun v => List.length v = Datatypes.S k) row)
    (assemble (map (map (fun wi => [wi])) w) normal).
Proof.
  intros Hw Hn. unfold assemble.
  apply map_shape
    with (P := fun row : list (list F) =>
                 List.length row = B /\
                 Forall (fun v => List.length v = Datatypes.S k) row).
  { intros row Hrow.
    apply map_shape with (P := fun v : list F => List.length v = Datatypes.S k);
      [|exact Hrow].
    intros v Hv. now rewrite l2_normalize_length_any. }
  apply zip_with_shape
    with (P := fun row : list (list F) =>
                 List.length row = B /\
                 Forall (fun d0 => exists wi : F, d0 = [wi]) row)
         (Q := fun row : list (list F) =>
                 List.length row = B /\
                 Forall (fun o => List.length o = k) row).
  - intros wrow orow Hwr Hor.
    apply zip_with_shape
      with (P := fun d0 : list F => exists wi : F, d0 = [wi])
           (Q := fun o : list F => List.length o = k);
      [| exact Hwr | exact Hor].
    intros d0 o [wi ->] Ho. cbn [map bcast_mul app List.length].
    now rewrite length_map, Ho.
  - apply map_shape
      with (P := fun row : list F => List.length row = B); [|exact Hw].
    intros wrow Hwr.
    apply map_shape with (P := fun _ : F => True).
    + intros wi _. now exists wi.
    + split; [exact Hwr|]. apply Forall_forall. intros; exact I.
  - apply map_shape
      with (P := fun row : list (list F) =>
                   List.length row = B /\
                   Forall (fun o => List.length o = k) row);
      [|exact Hn].
    intros row Hrow.
    apply map_shape with (P := fun o : list F => List.length o = k);
      [|exact Hrow].
    intros o Ho. now rewrite l2_normalize_length_any.
Qed.

Lemma tabulate3_shape (n B D : nat) (f : nat -> nat -> nat -> F) :
  List.length (tabulate3 n B D f) = n /\
  Forall (fun row => List.length row = B /\
                     Forall (fun o => List.length o = D) row)
    (tabulate3 n B D f).
Proof.
  unfold tabulate3. apply seq_shape. intros i.
  apply seq_shape. intros b. now rewrite length_map, length_seq.
Qed.

Lemma rotate_shape (d : VonMisesFisher F) (n : nat)
    (samples x : list (list (list F))) :
  List.length (mean_direction d) = batch_size d ->
  Forall (fun m => List.length m = event_dim d) (mean_direction d) ->
  List.length samples = n /\
  Forall (fun row => List.length row = batch_size d /\
                     Forall (fun v => List.length v = event_dim d) row)
    samples ->
  _rotate d samples = Ok x ->
  List.length x = n /\
  Forall (fun row => List.length row = batch_size d /\
                     Forall (fun v => List.length v = event_dim d) row) x.
Proof.
  intros HB Hm Hs H. unfold _rotate, rotate_normals in H.
  destruct (basis (event_dim d)) as [e1|] eqn:He; [|discriminate].
  cbn [bind] in H. injection H as <-.
  assert (Hl : List.length e1 = event_dim d).
  { unfold basis in He. destruct (event_dim d) as [|k]; [discriminate|].
    injection He as <-. cbn [List.length]. now rewrite repeat_length. }
  apply map_shape
    with (P := fun row : list (list F) =>
                 List.length row = batch_size d /\
                 Forall (fun v => List.length v = event_dim d) row);
    [|exact Hs].
  intros row Hrow.
  apply zip_with_shape
    with (P := fun u : list F => List.length u = event_dim d)
         (Q := fun v : list F => List.length v = event_dim d);
    [| | exact Hrow].
  - intros u v Hu Hv. unfold reflect.
    rewrite zip_with_length, length_map, Hu, Hv. apply Nat.min_id.
  - apply map_shape
      with (P := fun m : list F => List.length m = event_dim d);
      [|now split].
    intros m Hlm.
    rewrite l2_normalize_length_any, zip_with_length, Hl, Hlm.
    apply Nat.min_id.
Qed.

Lemma if_check_numerics3_ok (b : bool) (t t' : list (list (list F)))
    (tag : numerics_tag) (r r' : rng G) :
  (if b then lift (check_numerics3 t tag) else ret t) r = Done t' r' ->
  t' = t.
Proof.
  destruct b; intros H.
  - apply lift_done in H as [H _]. unfold check_numerics3 in H.
    destruct (forallb _ t); [now injection H | discriminate].
  - now apply ret_done in H.
Qed.

(** X22.  What [_sample_n] returns has the shape [[n, B, D]]: [n]
    samples, one vector per batch member in each, each vector of the
    event size, when the mean directions are given one per concentration
    and at the event size. *)
Theorem sample_n_shape (d : VonMisesFisher F) (fuel n : nat)
    (seed : option Z) (r r' : rng G) (x : list (list (list F))) :
  List.length (mean_direction d) = batch_size d ->
  Forall (fun m => List.length m = event_dim d) (mean_direction d) ->
  _sample_n hash next_state uniform_at normal_at beta_at d fuel n seed r
  = Done x r' ->
  List.length x = n /\
  Forall (fun row => List.length row = batch_size d /\
                     Forall (fun v => List.length v = event_dim d) row) x.
Proof.
  intros HB Hm H. unfold _sample_n in H.
  apply bindR_done in H as ([x0 stream] & r1 & H1 & H).
  apply first_coordinate_shape2 in H1 as (w & -> & Hw).
  apply bindR_done in H as (? & r2 & _ & H).
  destruct (SeedStream_call hash stream) as [s1 st1].
  apply bindR_done in H as (normal & r3 & H3 & H).
  unfold random_normal in H3.
  apply bindR_done in H3 as (src & r0 & _ & H3).
  apply ret_done in H3 as [-> _].
  apply bindR_done in H as (samples & r4 & H4 & H).
  apply if_check_numerics3_ok in H4. subst samples.
  apply bindR_done in H as (? & r5 & _ & H).
  apply bindR_done in H as (? & r6 & _ & H).
  apply lift_done in H as [H _].
  apply (rotate_shape d HB Hm) with (2 := H).
  assert (HD : Datatypes.S (event_dim d - 1) = event_dim d).
  { unfold _rotate, rotate_normals, basis in H.
    destruct (event_dim d); [discriminate | lia]. }
  pose proof (assemble_shape (k := event_dim d - 1) Hw
                (tabulate3_shape n (batch_size d) (event_dim d - 1)
                   (normal_at src))) as HA.
  rewrite HD in HA. exact HA.
Qed.
End SampleShape.

Lemma sample_n_shape_witness :
  List.length [[[0; 1]%R]] = 1%nat /\
  Forall (fun row : list (list R) =>
            List.length row = 1%nat /\
            Forall (fun v => List.length v = 2%nat) row)
    [[[0; 1]%R]].
Proof.
  apply (@sample_n_shape R
           (R_scalar (fun _ => 0%R) (fun _ => 0%R) (fun _ => 0%R) 0%R)
           unit (fun _ _ _ => 0%Z) (fun g => g)
           (fun _ _ _ => (1 / 2)%R) (fun _ _ _ _ => 1%R)
           (fun _ _ _ _ _ => (1 / 2)%R)
           (vmf 2 [[1; 0]%R] [0%R] false true)
           2 1 (Some 0%Z)
           {| ambient := tt; drawn := [] |}
           {| ambient := tt;
              drawn := [(Beta, Some 0%Z); (Uniform, Some 0%Z);
                        (Normal, Some 0%Z)] |}).
  - reflexivity.
  - repeat constructor.
  - apply sample_at_basis.
Defined.

(** ** The runtime checks of the sampler *)

Section MonadSteps.
Variable G : Type.

Lemma bindR_lift_ok {A B : Type} (m : result A) (a : A)
    (k : A -> Rand G B) (r : rng G) :
  m = Ok a -> bindR (lift m) k r = k a r.
Proof. intros ->. reflexivity. Qed.

Lemma bindR_done_eq {A B : Type} (m : Rand G A) (a : A)
    (k : A -> Rand G B) (r r1 : rng G) :
  m r = Done a r1 -> bindR m k r = k a r1.
Proof. unfold bindR. now intros ->. Qed.
End MonadSteps.

Lemma run_assertions_all_true (l : list (bool * string)) :
  forallb fst l = true -> run_assertions l = Ok tt.
Proof.
  intros H. rewrite <- run_assertions_ok in H.
  destruct (run_assertions l) as [[]|]; [reflexivity | discriminate].
Qed.

Lemma in_combine_map {A B : Type} (f : A -> B) (l : list A) (u : B) (m : A) :
  In (u, m) (combine (map f l) l) -> u = f m /\ In m l.
Proof.
  induction l as [|a l IH]; cbn [map combine In]; [tauto|].
  intros [[= <- <-] | H]; [now split; [|left]|].
  destruct (IH H) as [-> Hin]. now split; [|right].
Qed.

Lemma forallb3_true {A : Type} (p : A -> bool) (P : A -> Prop)
    (t : list (list (list A))) :
  (forall a, P a -> p a = true) ->
  Forall (Forall (Forall P)) t ->
  forallb (forallb (forallb p)) t = true.
Proof.
  intros Hp H. apply forallb_forall. intros row Hrow.
  rewrite Forall_forall in H. pose proof (H row Hrow) as H1.
  apply forallb_forall. intros v Hv.
  rewrite Forall_forall in H1. pose proof (H1 v Hv) as H2.
  apply forallb_forall. intros a Ha.
  rewrite Forall_forall in H2. apply Hp. now apply H2.
Qed.

Section ChecksPass.
Open Scope R_scope.
Variables (i0e i1e lgam : R -> R) (tol : R).
Variable G : Type.
Variable hash : Z -> nat -> string -> Z.
Variable next_state : G -> G.
Variable uniform_at : source G -> nat -> nat -> R.
Variable normal_at : source G -> nat -> nat -> nat -> R.
Variable beta_at : R -> R -> source G -> nat -> nat -> R.

Local Hint Extern 0 (Scalar R) =>
  exact (R_scalar i0e i1e lgam tol) : typeclass_instances.

Lemma real_check_numerics3 (t : list (list (list R))) (tag : numerics_tag) :
  check_numerics3 t tag = Ok t.
Proof.
  unfold check_numerics3.
  replace (forallb (forallb all_finite) t) with true; [reflexivity|].
  symmetry. apply forallb_forall. intros row _.
  apply forallb_forall. intros x _.
  apply (@real_all_finite i0e i1e lgam tol).
Qed.

(** Over the reals the loop never raises: it ends or is still going. *)
Lemma while_loop_not_raised (d : VonMisesFisher R) (D n fuel : nat)
    (s1 s2 : option Z) (st : loop_state) (r : rng G) (e : error) :
  while_loop fuel cond_fn
    (body_fn next_state uniform_at beta_at d D n s1 s2) st r
  <> Raised _ _ e.
Proof.
  revert st r. induction fuel as [|fuel IH]; intros st r; [discriminate|].
  cbn [while_loop]. destruct (cond_fn st); [|discriminate].
  destruct st as [[w sc] s].
  destruct (@body_fn_real i0e i1e lgam tol G next_state uniform_at
              beta_at d D n s1 s2 w sc s r) as (src1 & src2 & r' & Hb).
  cbv zeta in Hb. unfold bindR. rewrite Hb. apply IH.
Qed.

Lemma sample_3d_real (d : VonMisesFisher R) (n : nat) (seed : option Z)
    (r : rng G) :
  exists u r', _sample_3d hash next_state uniform_at d n seed r = Done u r'.
Proof.
  destruct (random_op_done next_state Uniform
              (option_map (fun sd => hash sd 1 "von_mises_fisher_3d") seed)
              0 r)
    as (src & r' & H).
  eexists; eexists.
  apply (@sample_3d_value i0e i1e lgam tol G hash next_state uniform_at
           d n seed r r' src H).
Qed.

Lemma first_coordinate_not_raised (d : VonMisesFisher R) (fuel n : nat)
    (seed0 : option Z) (stream : SeedStream) (r : rng G) (e : error) :
  first_coordinate hash next_state uniform_at beta_at d fuel n seed0
    stream r <> Raised _ _ e.
Proof.
  unfold first_coordinate.
  assert (Hwood :
    wood_dim0 hash next_state uniform_at beta_at d fuel (event_dim d) n
      stream r <> Raised _ _ e).
  { unfold wood_dim0.
    destruct (SeedStream_call hash stream) as [s1 stream1].
    destruct (SeedStream_call hash stream1) as [s2 stream2].
    unfold bindR.
    destruct (while_loop _ _ _ _ r) as [[[w sc] s] r1|e'|] eqn:E;
      try discriminate.
    intros [= ->]. revert E. apply while_loop_not_raised. }
  destruct (event_shape_value d) as [[|[|[|[|D]]]]|]; try exact Hwood.
  destruct (sample_3d_real d n seed0 r) as (u & r' & H).
  unfold bindR. rewrite H. discriminate.
Qed.

Lemma random_normal_real (n B D : nat) (seed : option Z) (r : rng G) :
  exists src r',
    random_normal next_state normal_at n B D seed 0 r
    = Done (tabulate3 n B D (normal_at src)) r'.
Proof.
  destruct (random_op_done next_state Normal seed 0 r) as (src & r' & H).
  exists src, r'. unfold random_normal, bindR. now rewrite H.
Qed.

Lemma fold_left_max_zero (l : list R) :
  Forall (fun x => x = 0) l -> fold_left Rmax l 0 = 0.
Proof.
  induction 1 as [|x l Hx _ IH]; [reflexivity|].
  cbn [fold_left]. rewrite Hx, Rmax_left by lra. exact IH.
Qed.

(** The largest deviation of the norms from 1, for unit vectors. *)
Lemma worst_deviation_zero (vs : list (list R)) :
  vs <> [] ->
  Forall (fun v => dot v v = 1) vs ->
  top_1 (map (fun x => absf (sub one (norm x))) vs) = Ok 0.
Proof.
  intros Hne Hv.
  assert (Hf : forall v, dot v v = 1 -> absf (sub one (norm v)) = 0).
  { intros v Hv1. unfold norm. rewrite real_sum_squares, Hv1. real_ops.
    rewrite real_one, sqrt_1, Rminus_diag. apply Rabs_R0. }
  set (f := fun x : list R => absf (sub one (norm x))) in * .
  assert (Hz : Forall (fun x => x = 0) (map f vs)).
  { apply Forall_map. revert Hv. apply Forall_impl. exact Hf. }
  destruct vs as [|v vs]; [now elim Hne|].
  cbn [map] in Hz. inversion Hz as [|? ? H0 Hz']; subst.
  cbn [map]. unfold top_1. rewrite H0. f_equal.
  change (@maximum R _) with Rmax. now apply fold_left_max_zero.
Qed.

Lemma concat_not_empty (n B : nat) (t : list (list (list R))) :
  (0 < n)%nat -> (0 < B)%nat ->
  List.length t = n ->
  Forall (fun row => List.length row = B) t ->
  List.concat t <> [].
Proof.
  intros Hn HB Hl Hrows. destruct t as [|row t]; [simpl in Hl; lia|].
  inversion Hrows as [|? ? Hrow _]; subst.
  destruct row as [|v row]; [simpl in HB; lia|]. discriminate.
Qed.

Lemma norm_sub_self (m : list R) : norm (zip_with sub m m) = 0.
Proof.
  unfold norm. rewrite real_sum_squares.
  replace (dot (zip_with sub m m) (zip_with sub m m)) with 0;
    [apply sqrt_0|].
  induction m as [|a m IH]; cbn [zip_with].
  - now rewrite real_dot_nil_l.
  - rewrite real_dot_cons, <- IH. real_ops. lra.
Qed.

(** Once the first coordinates are drawn, every check passes. *)
Lemma sample_n_checks (d : VonMisesFisher R) (e1 : list R)
    (fuel n : nat) (seed : option Z) (r r1 : rng G)
    (x0 : list (list (list R))) (stream : SeedStream) :
  (0 < n)%nat -> (0 < batch_size d)%nat ->
  (2 <= event_dim d)%nat ->
  basis (event_dim d) = Ok e1 ->
  Forall (fun k => 0 <= k) (concentration d) ->
  Forall (fun m =>
            List.length m = event_dim d /\
            dot m m = 1 /\
            (dot (zip_with sub e1 m) (zip_with sub e1 m) = 0 \/
             / 1000000000000 <= dot (zip_with sub e1 m) (zip_with sub e1 m)))
    (mean_direction d) ->
  (forall src i j, 0 <= uniform_at src i j < 1) ->
  (forall a b src i j, 0 <= beta_at a b src i j <= 1) ->
  (forall src i b,
      let o := map (normal_at src i b) (seq 0 (event_dim d - 1)) in
      / 1000000000000 <= dot o o) ->
  first_coordinate hash next_state uniform_at beta_at d fuel n seed
    (SeedStream_new seed "vom_mises_fisher") r = Done (x0, stream) r1 ->
  exists x r',
    _sample_n hash next_state uniform_at normal_at beta_at d fuel n seed r
    = Done x r'.
Proof.
  intros Hn HB HD He Hk Hm Hu Hb Hnorm H1.
  assert (Hrange : Forall (Forall (Forall (fun wi => -1 <= wi <= 1))) x0).
  { revert H1. unfold first_coordinate.
    destruct (event_shape_value d) as [[|[|[|[|D]]]]|];
      try (intros H;
           exact (@wood_dim0_range i0e i1e lgam tol G hash next_state
                    uniform_at beta_at d fuel (event_dim d) n _ stream r r1
                    x0 HD Hk Hb H)).
    intros H. apply bindR_done in H as (u & r2 & H3 & Hr).
    apply ret_done in Hr as [[= -> _] _].
    exact (@sample_3d_range i0e i1e lgam tol G hash next_state uniform_at
             d n seed r r2 u Hk Hu H3). }
  pose proof H1 as H1'.
  apply first_coordinate_shape2 in H1' as (w & -> & Hw).
  unfold _sample_n. rewrite bindR_done_eq with (1 := H1).
  destruct (negb (allow_nan_stats d)) eqn:Ha.
  2:{ unfold bindR at 1. unfold ret at 1.
      destruct (SeedStream_call hash stream) as [s1 st1].
      destruct (random_normal_real n (batch_size d) (event_dim d - 1) s1 r1)
        as (src & r2 & Hnr).
      rewrite bindR_done_eq with (1 := Hnr).
      unfold bindR, ret, lift.
      rewrite rotate_value with (1 := He). eexists; eexists; reflexivity. }
  erewrite bindR_lift_ok.
  2:{ apply run_assertions_all_true. cbn [forallb fst].
      rewrite andb_true_r. apply andb_true_intro. split.
      - apply forallb3_true with (P := fun wi => -1 <= wi <= 1);
          [|exact Hrange].
        intros a Ha'. real_ops. unfold Rleb.
        destruct (Rle_dec a (Q2R (101 # 100))) as [_|Hc]; [reflexivity|].
        exfalso. apply Hc. unfold Q2R; simpl. lra.
      - apply forallb3_true with (P := fun wi => -1 <= wi <= 1);
          [|exact Hrange].
        intros a Ha'. real_ops. unfold Rleb.
        destruct (Rle_dec (Q2R (- (101 # 100))) a) as [_|Hc]; [reflexivity|].
        exfalso. apply Hc. unfold Q2R; simpl. lra. }
  destruct (SeedStream_call hash stream) as [s1 st1].
  destruct (random_normal_real n (batch_size d) (event_dim d - 1) s1 r1)
    as (src & r2 & Hnr).
  rewrite bindR_done_eq with (1 := Hnr).
  rewrite bindR_lift_ok with (1 := real_check_numerics3 _ tag_samples).
  set (samples := assemble (map (map (fun wi => [wi])) w)
                    (tabulate3 n (batch_size d) (event_dim d - 1)
                       (normal_at src))).
  assert (Hunit : Forall (Forall (fun v =>
                     List.length v = Datatypes.S (event_dim d - 1) /\
                     dot v v = 1)) samples).
  { apply (@assemble_unit i0e i1e lgam tol).
    unfold tabulate3. apply Forall_map, Forall_forall. intros i _.
    apply Forall_map, Forall_forall. intros b _. split.
    - now rewrite length_map, length_seq.
    - apply Hnorm. }
  pose proof (@assemble_shape R _ n (batch_size d) (event_dim d - 1) w _ Hw
                (@tabulate3_shape R n (batch_size d) (event_dim d - 1)
                   (normal_at src))) as [Hsl Hsr].
  fold samples in Hsl, Hsr.
  erewrite bindR_lift_ok.
  2:{ rewrite worst_deviation_zero.
      - cbn [bind]. apply run_assertions_all_true. cbn [forallb fst].
        rewrite andb_true_r. unfold near. real_ops. rewrite real_zero.
        rewrite Rminus_diag, Rabs_R0. unfold Rleb.
        destruct (Rle_dec 0 (Q2R (1 # 10000) + tol * 0)) as [_|Hc];
          [reflexivity|].
        exfalso. apply Hc. unfold Q2R; simpl. lra.
      - apply concat_not_empty with (n := n) (B := batch_size d);
          try assumption.
        revert Hsr. apply Forall_impl. now intros row [Hr _].
      - apply Forall_concat. revert Hunit. apply Forall_impl.
        intros row. apply Forall_impl. now intros v [_ Hv]. }
  erewrite bindR_lift_ok.
  2:{ rewrite He. cbn [bind]. unfold rotate_normals. rewrite He. cbn [bind].
      apply run_assertions_all_true. cbn [forallb fst].
      rewrite andb_true_r. apply forallb_forall. intros [u m] Hin.
      apply in_combine_map in Hin as [-> Hin]. cbn [fst snd].
      rewrite Forall_forall in Hm. destruct (Hm m Hin) as (Hlm & Hum & Hqm).
      rewrite (@reflect_basis_to_mean i0e i1e lgam tol (event_dim d) e1 m
                 He Hlm Hum Hqm).
      rewrite norm_sub_self. real_ops. unfold Rltb.
      destruct (Rlt_dec 0 (Q2R (1 # 100000))) as [_|Hc]; [reflexivity|].
      exfalso. apply Hc. unfold Q2R; simpl. lra. }
  unfold lift. rewrite rotate_value with (1 := He).
  eexists; eexists; reflexivity.
Qed.

End ChecksPass.


(** ** What [allow_nan_stats] gates *)

Section Gating.
Context {F : Type} {S : Scalar F}.
Open Scope scalar_scope.
Variable G : Type.
Variable hash : Z -> nat -> string -> Z.
Variable next_state : G -> G.
Variable uniform_at : source G -> nat -> nat -> F.
Variable normal_at : source G -> nat -> nat -> nat -> F.
Variable beta_at : F -> F -> source G -> nat -> nat -> F.

(** With [allow_nan_stats] true [_sample_n] checks nothing: once the
    first coordinates are there it draws the normal values and returns
    the rotated samples as they are. *)
Lemma sample_n_unchecked (d : VonMisesFisher F) (fuel n : nat)
    (seed : option Z) (r r1 : rng G) (x0 : list (list (list F)))
    (stream : SeedStream) :
  allow_nan_stats d = true ->
  first_coordinate hash next_state uniform_at beta_at d fuel n seed
    (SeedStream_new seed "vom_mises_fisher") r = Done (x0, stream) r1 ->
  exists src r2,
    random_op next_state Normal (fst (SeedStream_call hash stream)) 0 r1
    = Done src r2 /\
    _sample_n hash next_state uniform_at normal_at beta_at d fuel n seed r
    = lift (_rotate d
              (assemble x0
                 (tabulate3 n (batch_size d) (event_dim d - 1)
                    (normal_at src)))) r2.
Proof.
  intros Ha H1. unfold _sample_n. unfold bindR at 1. rewrite H1, Ha.
  cbn [negb]. destruct (SeedStream_call hash stream) as [s1 st1]. cbn [fst].
  destruct (random_op_done next_state Normal s1 0 r1) as (src & r2 & Hr).
  exists src, r2. split; [exact Hr|].
  unfold bindR at 1. unfold ret at 1. unfold random_normal.
  unfold bindR at 1 2. rewrite Hr. unfold ret at 1.
  reflexivity.
Qed.

(** With [allow_nan_stats] false the 3-D sampler returns only what has
    passed its numerics check. *)
Lemma sample_3d_checked (d : VonMisesFisher F) (n : nat) (seed : option Z)
    (r r' : rng G) (u : list (list (list F))) :
  allow_nan_stats d = false ->
  _sample_3d hash next_state uniform_at d n seed r = Done u r' ->
  exists u',
    u = map (map (fun ui => [ui])) u' /\ forallb all_finite u' = true.
Proof.
  intros Ha H. unfold _sample_3d in H. rewrite Ha in H. cbn [negb] in H.
  destruct (SeedStream_call hash _) as [s1 st1].
  apply bindR_done in H as (z & r1 & _ & H).
  apply bindR_done in H as (u' & r2 & Hu & H).
  apply ret_done in H as [-> _]. exists u'. split; [reflexivity|].
  apply lift_done in Hu as [Hu _]. unfold check_numerics2 in Hu.
  destruct (forallb all_finite _) eqn:E; [|discriminate].
  now injection Hu as <-.
Qed.

(** With [allow_nan_stats] false [_sample_n] returns only samples that
    have passed its four checks. *)
Lemma sample_n_checked (d : VonMisesFisher F) (fuel n : nat)
    (seed : option Z) (r r' : rng G) (x : list (list (list F))) :
  allow_nan_stats d = false ->
  _sample_n hash next_state uniform_at normal_at beta_at d fuel n seed r
  = Done x r' ->
  exists x0 src samples worst e1 u,
    samples = assemble x0
                (tabulate3 n (batch_size d) (event_dim d - 1)
                   (normal_at src)) /\
    forallb (forallb (forallb (fun c => c <=?. of_Q (101 # 100)))) x0
    = true /\
    forallb (forallb (forallb (fun c => of_Q (- (101 # 100)) <=?. c))) x0
    = true /\
    forallb (forallb all_finite) samples = true /\
    top_1 (map (fun v => absf (one -. norm v)) (List.concat samples))
    = Ok worst /\
    near (of_Q (1 # 10000)) near_tol zero worst = true /\
    basis (event_dim d) = Ok e1 /\
    rotate_normals d = Ok u /\
    forallb (fun um => norm (zip_with sub (reflect (fst um) e1) (snd um))
                       <?. of_Q (1 # 100000))
      (combine u (mean_direction d)) = true /\
    _rotate d samples = Ok x.
Proof.
  intros Ha H. unfold _sample_n in H. rewrite Ha in H. cbn [negb] in H.
  apply bindR_done in H as ([x0 stream] & r1 & _ & H).
  apply bindR_done in H as (? & r2 & H2 & H).
  apply lift_done in H2 as [H2 _].
  apply run_assertions_inv in H2. cbn [forallb fst] in H2.
  rewrite andb_true_r in H2. apply andb_prop in H2 as [Hle Hge].
  destruct (SeedStream_call hash stream) as [s1 st1].
  apply bindR_done in H as (normal & r3 & H3 & H).
  unfold random_normal in H3.
  apply bindR_done in H3 as (src & r3' & _ & H3).
  apply ret_done in H3 as [-> _].
  apply bindR_done in H as (samples & r4 & H4 & H).
  apply lift_done in H4 as [H4 _]. unfold check_numerics3 in H4.
  destruct (forallb (forallb all_finite) _) eqn:Ef; [|discriminate].
  injection H4 as <-.
  apply bindR_done in H as (? & r5 & H5 & H).
  apply lift_done in H5 as [H5 _].
  destruct (top_1 _) as [worst|] eqn:Ew; [|discriminate].
  cbn [bind] in H5. apply run_assertions_inv in H5.
  cbn [forallb fst] in H5. rewrite andb_true_r in H5.
  apply bindR_done in H as (? & r6 & H6 & H).
  apply lift_done in H6 as [H6 _].
  destruct (basis (event_dim d)) as [e1|] eqn:Eb; [|discriminate].
  cbn [bind] in H6.
  destruct (rotate_normals d) as [u|] eqn:Eu; [|discriminate].
  cbn [bind] in H6. apply run_assertions_inv in H6.
  cbn [forallb fst] in H6. rewrite andb_true_r in H6.
  apply lift_done in H as [H _].
  exists x0, src,
    (assemble x0
       (tabulate3 n (batch_size d) (event_dim d - 1) (normal_at src))),
    worst, e1, u.
  repeat split; assumption.
Qed.

End Gating.

